(** * Malaysia Agro Distribution System: ledger, transaction pipeline,
      route optimizer and inventory allocator of [MADS_system.cpp].

    The C++ program is embedded shallowly:
    - [int] is a 32-bit two's complement integer, carried as a [Z] with the
      wrap-around of every arithmetic result written out ([wrap_int]);
    - [double] is IEEE-754 binary64, carried as Rocq's primitive [float];
    - [std::string] is [string]; [std::vector] is [list] in index order
      ([push_back] appends at the end);
    - [rand()] and the wall clock are oracles threaded through a [World];
    - a thrown [std::exception] is the [Throw] case of [result]. *)

From Stdlib Require Import ZArith List String Ascii Bool Lia Floats QArith Qround Qpower.
From Stdlib Require Import Uint63 DecimalString DecimalPos.
From stdpp Require Import base option list gmap.
Import ListNotations.

Local Open Scope string_scope.
Local Open Scope list_scope.
Local Open Scope Z_scope.

(* ===================================================================== *)
(** ** Machine integers *)
(* ===================================================================== *)

Definition INT_MIN : Z := -2147483648.
Definition INT_MAX : Z := 2147483647.

(** The value a 32-bit signed register holds after computing [z]. *)
Definition wrap_int (z : Z) : Z := (z + 2147483648) mod 4294967296 - 2147483648.

Definition in_int (z : Z) : Prop := INT_MIN <= z <= INT_MAX.

Definition int_add (a b : Z) : Z := wrap_int (a + b).
Definition int_neg (a : Z) : Z := wrap_int (- a).

(* ===================================================================== *)
(** ** Exceptions *)
(* ===================================================================== *)

(** The subclasses of [std::exception] the program can see. *)
Inductive exn : Type :=
| runtime_error (what : string)
| invalid_argument (what : string)
| out_of_range (what : string).

Definition what (e : exn) : string :=
  match e with
  | runtime_error w | invalid_argument w | out_of_range w => w
  end.

Inductive result (A : Type) : Type :=
| Ok (a : A)
| Throw (e : exn).
Arguments Ok {A} a.
Arguments Throw {A} e.

Definition is_ok {A} (r : result A) : bool :=
  match r with Ok _ => true | Throw _ => false end.

(** Sequencing of steps that may throw: the first exception ends the run. *)
Definition and_then {A B} (r : result A) (k : A -> result B) : result B :=
  match r with
  | Ok a => k a
  | Throw e => Throw e
  end.

Declare Scope result_scope.
Delimit Scope result_scope with result.
Notation "'try!' x := r 'in' k" := (and_then r (fun x => k))
  (at level 10, x name, r at level 100, k at level 200) : result_scope.

(* ===================================================================== *)
(** ** Strings: field splitting and [std::stoi] *)
(* ===================================================================== *)

(** [while (std::getline(ss, item, delim)) parts.push_back(item);]
    A field ends at the delimiter or at the end of the text; an extraction
    that starts at the end of the text fails, so a trailing delimiter does
    not produce a last empty field and the empty text produces no field. *)
Fixpoint split_from (delim : ascii) (s : string) (item : string) : list string :=
  match s with
  | EmptyString => [item]
  | String c rest =>
      if Ascii.eqb c delim then
        item :: match rest with
                | EmptyString => []
                | String _ _ => split_from delim rest EmptyString
                end
      else split_from delim rest (item ++ String c EmptyString)%string
  end.

Definition split (delim : ascii) (s : string) : list string :=
  match s with
  | EmptyString => []
  | String _ _ => split_from delim s EmptyString
  end.

(** [isspace] in the C locale. *)
Definition isspace (c : ascii) : bool :=
  let n := nat_of_ascii c in
  (n =? 32)%nat || ((9 <=? n)%nat && (n <=? 13)%nat).

Definition digit_of (c : ascii) : option Z :=
  let n := nat_of_ascii c in
  if ((48 <=? n)%nat && (n <=? 57)%nat) then Some (Z.of_nat n - 48) else None.

Fixpoint skip_spaces (s : string) : string :=
  match s with
  | String c rest => if isspace c then skip_spaces rest else s
  | EmptyString => s
  end.

(** The value of the leading run of decimal digits; [None] when there is
    no digit. Characters after the run are ignored, as [strtol] does. *)
Fixpoint read_digits (s : string) (acc : option Z) : option Z :=
  match s with
  | String c rest =>
      match digit_of c with
      | Some d => read_digits rest (Some (10 * default 0 acc + d))
      | None => acc
      end
  | EmptyString => acc
  end.

(** [std::stoi(s)]: leading white space, an optional sign, decimal digits.
    No digit: [std::invalid_argument]; a value outside [int]:
    [std::out_of_range]. *)
Definition stoi (s : string) : result Z :=
  let s1 := skip_spaces s in
  let '(negative, s2) :=
    match s1 with
    | String "-" r => (true, r)
    | String "+" r => (false, r)
    | _ => (false, s1)
    end in
  match read_digits s2 None with
  | None => Throw (invalid_argument "stoi")
  | Some v =>
      let v' := if negative then - v else v in
      if (INT_MIN <=? v') && (v' <=? INT_MAX) then Ok v'
      else Throw (out_of_range "stoi")
  end.

(** Decimal text of an [int], as [operator<<] writes it. *)
Definition string_of_int (z : Z) : string := NilZero.string_of_int (Z.to_int z).

(** The lines [while (std::getline(file, line))] reads from a text. *)
Definition newline : ascii := "010"%char.
Definition getlines (text : string) : list string := split newline text.

(** Whether the character occurs in the text, and the text before its
    first occurrence (all of it when there is none). *)
Fixpoint contains (c : ascii) (s : string) : bool :=
  match s with
  | EmptyString => false
  | String a rest => Ascii.eqb a c || contains c rest
  end.

Fixpoint before (c : ascii) (s : string) : string :=
  match s with
  | EmptyString => EmptyString
  | String a rest => if Ascii.eqb a c then EmptyString else String a (before c rest)
  end.

(* ===================================================================== *)
(** ** The outside world: [rand()] and the clock *)
(* ===================================================================== *)

(** [rand_src n] is the value of the [n]-th call of [rand()], [clock_src n]
    the text [strftime] produces at the [n]-th reading of the clock. *)
Record World : Type := mkWorld {
  rand_src : nat -> Z;
  rand_pos : nat;
  clock_src : nat -> string;
  clock_pos : nat
}.

Definition M (A : Type) : Type := World -> A * World.

Definition ret {A} (a : A) : M A := fun w => (a, w).
Definition bind {A B} (m : M A) (k : A -> M B) : M B :=
  fun w => let '(a, w') := m w in k a w'.

Declare Scope world_scope.
Delimit Scope world_scope with world.
Notation "x <- m ;; k" := (bind m (fun x => k))
  (at level 100, m at next level, right associativity) : world_scope.
Local Open Scope world_scope.

Definition rand : M Z :=
  fun w => let 'mkWorld rs rp cs cp := w in (rs rp, mkWorld rs (S rp) cs cp).

Definition getCurrentTimestamp : M string :=
  fun w => let 'mkWorld rs rp cs cp := w in (cs cp, mkWorld rs rp cs (S cp)).

Definition alphanum : string := "0123456789abcdefghijklmnopqrstuvwxyz".

(** [alphanum[rand() % (sizeof(alphanum) - 1)]] *)
Definition alphanum_at (r : Z) : ascii :=
  match String.get (Z.to_nat (r mod 36)) alphanum with
  | Some c => c
  | None => "0"%char
  end.

Fixpoint generateHash_loop (n : nat) (hash : string) : M string :=
  match n with
  | O => ret hash
  | S n' => r <- rand ;; generateHash_loop n' (hash ++ String (alphanum_at r) EmptyString)%string
  end.

Definition generateHash : M string := generateHash_loop 10 EmptyString.

(* ===================================================================== *)
(** ** Block and Blockchain *)
(* ===================================================================== *)

Module Block.

Record t : Type := mk {
  blockNumber : Z;
  currentHash : string;
  previousHash : string;
  timestamp : string;
  data : string
}.

(** The constructor: the time is read first, then the hash is drawn. *)
Definition new (blockNum : Z) (prevHash blockData : string) : M t :=
  ts <- getCurrentTimestamp ;;
  h <- generateHash ;;
  ret (mk blockNum h prevHash ts blockData).

(** [Block::deserialize]: the constructor runs (reading the clock and
    drawing a hash) before the stored hash and time overwrite its own. *)
Definition deserialize (str : string) : M (result t) :=
  let parts := split "|" str in
  if (length parts <? 5)%nat then ret (Throw (runtime_error "Invalid block data format"))
  else
    match stoi (nth 0 parts EmptyString) with
    | Throw e => ret (Throw e)
    | Ok blockNum =>
        b <- new blockNum (nth 2 parts EmptyString) (nth 4 parts EmptyString) ;;
        ret (Ok (mk (blockNumber b) (nth 1 parts EmptyString) (previousHash b)
                    (nth 3 parts EmptyString) (data b)))
    end.

(** [Block::serialize] *)
Definition serialize (b : t) : string :=
  (string_of_int (blockNumber b) ++ "|" ++ currentHash b ++ "|" ++ previousHash b
   ++ "|" ++ timestamp b ++ "|" ++ data b)%string.

(** What [deserialize] makes of the line [serialize] wrote for a block:
    the fifth field, the payload up to its first '|'. *)
Definition reread (b : t) : t :=
  mk (blockNumber b) (currentHash b) (previousHash b) (timestamp b) (before "|" (data b)).

(** None of the three tokens of the block holds the character. *)
Definition tokens_without (c : ascii) (b : t) : Prop :=
  contains c (currentHash b) = false /\ contains c (previousHash b) = false /\
  contains c (timestamp b) = false.

End Block.

Module Blockchain.

(** The [chain] vector. *)
Abbreviation t := (list Block.t).

Definition createGenesisBlock (chain : t) : M t :=
  genesisHash <- generateHash ;;
  genesisBlock <- Block.new 0 genesisHash "Genesis Block" ;;
  ret (chain ++ [genesisBlock]).

(** The constructor [Blockchain()]. *)
Definition new : M t := createGenesisBlock [].

Definition getLatestBlock (chain : t) : result Block.t :=
  match last chain with
  | None => Throw (runtime_error "Blockchain is empty")
  | Some b => Ok b
  end.

(** [addBlock] rethrows what [getLatestBlock] throws. *)
Definition addBlock (blockData : string) (chain : t) : M (result t) :=
  match getLatestBlock chain with
  | Throw e => ret (Throw e)
  | Ok latestBlock =>
      newBlock <- Block.new (int_add (Block.blockNumber latestBlock) 1)
                            (Block.currentHash latestBlock) blockData ;;
      ret (Ok (chain ++ [newBlock]))
  end.

(** The loop of [isChainValid] from index [i] on, [prev] being [chain[i-1]]. *)
Fixpoint isChainValid_from (prev : Block.t) (rest : list Block.t) : bool :=
  match rest with
  | [] => true
  | b :: rest' =>
      if negb (String.eqb (Block.previousHash b) (Block.currentHash prev)) then false
      else isChainValid_from b rest'
  end.

Definition isChainValid (chain : t) : bool :=
  match chain with
  | [] => true
  | b :: rest => isChainValid_from b rest
  end.

Definition size (chain : t) : nat := length chain.

(** The reading loop of [loadFromFile]: the first line that does not
    deserialize makes the function return [false] at once. *)
Fixpoint loadFromFile_lines (lines : list string) (chain : t) : M (bool * t) :=
  match lines with
  | [] =>
      chain' <- (if (length chain =? 0)%nat then createGenesisBlock chain else ret chain) ;;
      ret (true, chain')
  | line :: lines' =>
      r <- Block.deserialize line ;;
      match r with
      | Ok block => loadFromFile_lines lines' (chain ++ [block])
      | Throw _ => ret (false, chain)
      end
  end.

(** [loadFromFile]: [file] is [None] when the file cannot be opened and the
    list of its lines otherwise. *)
Definition loadFromFile (file : option (list string)) (chain : t) : M (bool * t) :=
  match file with
  | None => ret (false, chain)
  | Some lines => loadFromFile_lines lines []
  end.

(** The text [saveToFile] writes once the file is open: a line per
    block, each ended by [std::endl]. *)
Fixpoint saveToFile (chain : t) : string :=
  match chain with
  | [] => EmptyString
  | block :: chain' =>
      (Block.serialize block ++ String newline EmptyString ++ saveToFile chain')%string
  end.

(** A block [saveToFile] writes as one line of at least five fields: its
    tokens hold no '|', nothing in it holds a line end, and its payload is
    not empty. *)
Definition storable (b : Block.t) : Prop :=
  in_int (Block.blockNumber b) /\ Block.tokens_without "|" b /\
  Block.tokens_without newline b /\ contains newline (Block.data b) = false /\
  Block.data b <> EmptyString.

(** [n] calls of [addBlock] in a row, all with the same payload. *)
Fixpoint addBlocks (n : nat) (blockData : string) (chain : t) : M (result t) :=
  match n with
  | O => ret (Ok chain)
  | S n' =>
      r <- addBlock blockData chain ;;
      match r with
      | Ok chain' => addBlocks n' blockData chain'
      | Throw e => ret (Throw e)
      end
  end.

(** The ledgers a freshly constructed one turns into under [addBlock]. *)
Inductive produced : t -> Prop :=
| produced_new w chain w' :
    new w = (chain, w') -> produced chain
| produced_addBlock chain blockData w chain' w' :
    produced chain ->
    addBlock blockData chain w = (Ok chain', w') ->
    produced chain'.

(** Every block but the first names its predecessor's hash. *)
Definition linked (chain : t) : Prop :=
  forall (i : nat) (b p : Block.t),
    (0 < i)%nat -> chain !! i = Some b -> chain !! (i - 1)%nat = Some p ->
    Block.previousHash b = Block.currentHash p.

(** Every sequence number is a value of type [int]. *)
Definition numbered (chain : t) : Prop :=
  Forall (fun b => in_int (Block.blockNumber b)) chain.

End Blockchain.

(* ===================================================================== *)
(** ** Doubles and their text *)
(* ===================================================================== *)

(** The conversion of an [int] to [double] is exact. *)
Definition double_of_int (z : Z) : float :=
  match z with
  | Z0 => PrimFloat.zero
  | Zpos _ => PrimFloat.of_uint63 (Uint63.of_Z z)
  | Zneg p => PrimFloat.opp (PrimFloat.of_uint63 (Uint63.of_Z (Zpos p)))
  end.

(** [static_cast<int>(x)]: the fractional part is dropped. The result is
    not defined by the language when the value fits no [int] or is no
    number; it is [INT_MIN] here, the "integer indefinite" that the
    conversion instruction of x86-64 ([cvttsd2si]) delivers. *)
Definition SFtruncate (x : spec_float) : option Z :=
  match x with
  | S754_zero _ => Some 0
  | S754_finite s m e =>
      let magnitude := if 0 <=? e then Zpos m * 2 ^ e else Zpos m / 2 ^ (- e) in
      Some (if s then - magnitude else magnitude)
  | _ => None
  end.

Definition int_of_double (x : float) : Z :=
  match SFtruncate (Prim2SF x) with
  | Some z => if (INT_MIN <=? z) && (z <=? INT_MAX) then z else INT_MIN
  | None => INT_MIN
  end.

(** [std::numeric_limits<double>::max()] *)
Definition DBL_MAX : float := 0x1.fffffffffffffp+1023%float.

(** [calculateDistance]; [pow(x, 2)] is the rounded square of [x]. *)
Definition calculateDistance (lat1 lon1 lat2 lon2 : float) : float :=
  (PrimFloat.sqrt ((lat2 - lat1) * (lat2 - lat1) + (lon2 - lon1) * (lon2 - lon1)) * 111)%float.

(** *** Vocabulary for the values of doubles *)

(** The exponent of the last digit of a double in the binade of [e]. *)
Definition fexp64 : Z -> Z := SpecFloat.fexp prec emax.

(** The sign of a double is [s] and the double is zero or below [2 ^ k]
    in magnitude. *)
Definition mag (s : bool) (k : Z) (x : spec_float) : Prop :=
  match x with
  | S754_zero s' => s' = s
  | S754_finite s' m e => s' = s /\ Zpos (digits2_pos m) + e <= k
  | _ => False
  end.

(** The same for either sign. *)
Definition small (k : Z) (x : spec_float) : Prop := exists s, mag s k x.

(** The double of a positive integer below [2 ^ 53]. *)
Definition canon (z : Z) : spec_float :=
  S754_finite false (Z.to_pos (z * 2 ^ (53 - Zdigits2 z))) (Zdigits2 z - 53).

(** The number a double stands for (0 for infinities and NaN). *)
Definition SF2Q (x : spec_float) : Q :=
  match x with
  | S754_finite s m e => (if s then -1 else 1) * (inject_Z (Zpos m) * 2 ^ e)
  | _ => 0
  end%Q.

(** [lo <= x <= hi] as the program would test it. *)
Definition between (lo hi x : float) : Prop :=
  PrimFloat.leb lo x = true /\ PrimFloat.leb x hi = true.

(** The integer nearest to [num / den], ties to even ([num >= 0], [den > 0]). *)
Definition round_half_even (num den : Z) : Z :=
  let q := num / den in
  let r := num mod den in
  match 2 * r ?= den with
  | Lt => q
  | Gt => q + 1
  | Eq => if Z.even q then q else q + 1
  end.

(** [os << std::fixed << std::setprecision(2) << x]: the exact value of [x]
    rounded to hundredths. The sign of a NaN is not visible in [float]; it
    is written without one. *)
Definition fixed2 (x : float) : string :=
  match Prim2SF x with
  | S754_nan => "nan"
  | S754_infinity s => if s then "-inf" else "inf"
  | S754_zero s => if s then "-0.00" else "0.00"
  | S754_finite s m e =>
      let hundredths :=
        if 0 <=? e then Zpos m * 2 ^ e * 100
        else round_half_even (Zpos m * 100) (2 ^ (- e)) in
      let frac := hundredths mod 100 in
      let sign := if s then "-" else EmptyString in
      let pad := if frac <? 10 then "0" else EmptyString in
      (sign ++ string_of_int (hundredths / 100) ++ "." ++ pad ++ string_of_int frac)%string
  end.

(* ===================================================================== *)
(** ** Catalog entities *)
(* ===================================================================== *)

Module Product.

Record t : Type := mk {
  id : Z;
  name : string;
  price : float;
  stock : Z
}.

(** [stock += quantity] *)
Definition updateStock (quantity : Z) (p : t) : t :=
  mk (id p) (name p) (price p) (int_add (stock p) quantity).

Definition hasEnoughStock (quantity : Z) (p : t) : bool := quantity <=? stock p.

(** [Product::deserialize]. [stod] stands for [std::stod], which throws
    where the text is no number. *)
Definition deserialize (stod : string -> result float) (str : string) : result t :=
  let parts := split "|" str in
  if (length parts <? 4)%nat then Throw (runtime_error "Invalid product data format")
  else
    (try! id := stoi (nth 0 parts EmptyString) in
     let name := nth 1 parts EmptyString in
     try! price := stod (nth 2 parts EmptyString) in
     try! stock := stoi (nth 3 parts EmptyString) in
     Ok (mk id name price stock))%result.

(** [Product::toString] *)
Definition toString (p : t) : string :=
  ("Product ID: " ++ string_of_int (id p) ++ " | Name: " ++ name p
   ++ " | Price: RM" ++ fixed2 (price p) ++ " | Stock: " ++ string_of_int (stock p))%string.

(** [Product::serialize]. [show] stands for [operator<<] on a [double] in
    the default format of a fresh stream. *)
Definition serialize (show : float -> string) (p : t) : string :=
  (string_of_int (id p) ++ "|" ++ name p ++ "|" ++ show (price p) ++ "|"
   ++ string_of_int (stock p))%string.

End Product.

Module Supplier.

Record t : Type := mk {
  id : Z;
  name : string;
  location : string;
  branch : string;
  latitude : float;
  longitude : float;
  productIds : list Z
}.

Definition addProduct (productId : Z) (s : t) : t :=
  mk (id s) (name s) (location s) (branch s) (latitude s) (longitude s)
     (productIds s ++ [productId]).

(** The loop reading a comma-separated list of product ids. *)
Fixpoint read_productIds (items : list string) (acc : list Z) : result (list Z) :=
  match items with
  | [] => Ok acc
  | productId :: items' =>
      match productId with
      | EmptyString => read_productIds items' acc
      | String _ _ =>
          (try! n := stoi productId in read_productIds items' (acc ++ [n]))%result
      end
  end.

Definition deserialize (stod : string -> result float) (str : string) : result t :=
  let parts := split "|" str in
  if (length parts <? 6)%nat then Throw (runtime_error "Invalid supplier data format")
  else
    (try! id := stoi (nth 0 parts EmptyString) in
     let name := nth 1 parts EmptyString in
     let location := nth 2 parts EmptyString in
     let branch := nth 3 parts EmptyString in
     try! latitude := stod (nth 4 parts EmptyString) in
     try! longitude := stod (nth 5 parts EmptyString) in
     try! ids := (if (6 <? length parts)%nat
                  then read_productIds (split "," (nth 6 parts EmptyString)) []
                  else Ok []) in
     Ok (mk id name location branch latitude longitude ids))%result.

(** [Supplier::toString] *)
Definition toString (s : t) : string :=
  ("Supplier ID: " ++ string_of_int (id s) ++ " | Name: " ++ name s
   ++ " | Location: " ++ location s ++ " | Branch: " ++ branch s)%string.

(** The loop of [serialize] writing the product ids, a comma between
    two of them. *)
Fixpoint productIds_text (productIds : list Z) : string :=
  match productIds with
  | [] => EmptyString
  | [productId] => string_of_int productId
  | productId :: rest => (string_of_int productId ++ "," ++ productIds_text rest)%string
  end.

(** [Supplier::serialize]; the '|' before the product ids is always
    written. *)
Definition serialize (show : float -> string) (s : t) : string :=
  (string_of_int (id s) ++ "|" ++ name s ++ "|" ++ location s ++ "|" ++ branch s ++ "|"
   ++ show (latitude s) ++ "|" ++ show (longitude s) ++ "|"
   ++ productIds_text (productIds s))%string.

End Supplier.

Module Retailer.

Record t : Type := mk {
  id : Z;
  name : string;
  location : string;
  latitude : float;
  longitude : float;
  creditBalance : float;
  annualCreditBalance : float;
  productIds : list Z
}.

Definition addProduct (productId : Z) (r : t) : t :=
  mk (id r) (name r) (location r) (latitude r) (longitude r)
     (creditBalance r) (annualCreditBalance r) (productIds r ++ [productId]).

(** [deductCredit]: the returned flag and the retailer afterwards. *)
Definition deductCredit (amount : float) (r : t) : bool * t :=
  if PrimFloat.leb amount (creditBalance r) then
    (true, mk (id r) (name r) (location r) (latitude r) (longitude r)
              (creditBalance r - amount)%float (annualCreditBalance r - amount)%float
              (productIds r))
  else (false, r).

Definition addCredit (amount : float) (r : t) : t :=
  mk (id r) (name r) (location r) (latitude r) (longitude r)
     (creditBalance r + amount)%float (annualCreditBalance r + amount)%float
     (productIds r).

Definition deserialize (stod : string -> result float) (str : string) : result t :=
  let parts := split "|" str in
  if (length parts <? 7)%nat then Throw (runtime_error "Invalid retailer data format")
  else
    (try! id := stoi (nth 0 parts EmptyString) in
     let name := nth 1 parts EmptyString in
     let location := nth 2 parts EmptyString in
     try! latitude := stod (nth 3 parts EmptyString) in
     try! longitude := stod (nth 4 parts EmptyString) in
     try! creditBalance := stod (nth 5 parts EmptyString) in
     try! annualCreditBalance := stod (nth 6 parts EmptyString) in
     try! ids := (if (7 <? length parts)%nat
                  then Supplier.read_productIds (split "," (nth 7 parts EmptyString)) []
                  else Ok []) in
     Ok (mk id name location latitude longitude creditBalance annualCreditBalance ids))%result.

(** [Retailer::toString] *)
Definition toString (r : t) : string :=
  ("Retailer ID: " ++ string_of_int (id r) ++ " | Name: " ++ name r
   ++ " | Location: " ++ location r
   ++ " | Credit Balance: RM" ++ fixed2 (creditBalance r)
   ++ " | Annual Credit Balance: RM" ++ fixed2 (annualCreditBalance r))%string.

End Retailer.

Module Transporter.

Record t : Type := mk {
  id : Z;
  name : string;
  transportType : string;
  costPerKm : float;
  maxCapacity : float
}.

Definition canTransport (weight : float) (tr : t) : bool :=
  PrimFloat.leb weight (maxCapacity tr).

Definition calculateTransportCost (distance : float) (tr : t) : float :=
  (distance * costPerKm tr)%float.

Definition deserialize (stod : string -> result float) (str : string) : result t :=
  let parts := split "|" str in
  if (length parts <? 5)%nat then Throw (runtime_error "Invalid transporter data format")
  else
    (try! id := stoi (nth 0 parts EmptyString) in
     let name := nth 1 parts EmptyString in
     let transportType := nth 2 parts EmptyString in
     try! costPerKm := stod (nth 3 parts EmptyString) in
     try! maxCapacity := stod (nth 4 parts EmptyString) in
     Ok (mk id name transportType costPerKm maxCapacity))%result.

(** [Transporter::toString]: the stream stays in fixed notation with two
    decimals for the capacity. *)
Definition toString (tr : t) : string :=
  ("Transporter ID: " ++ string_of_int (id tr) ++ " | Name: " ++ name tr
   ++ " | Type: " ++ transportType tr
   ++ " | Cost/km: RM" ++ fixed2 (costPerKm tr)
   ++ " | Max Capacity: " ++ fixed2 (maxCapacity tr) ++ "kg")%string.

End Transporter.

Module Transaction.

Record t : Type := mk {
  id : Z;
  supplierId : Z;
  retailerId : Z;
  productId : Z;
  transporterId : Z;
  quantity : Z;
  productCost : float;
  transportCost : float;
  totalCost : float;
  timestamp : string;
  status : string;
  orderType : string
}.

Definition new (transId sId rId pId tId qty : Z) : M t :=
  ts <- getCurrentTimestamp ;;
  ret (mk transId sId rId pId tId qty PrimFloat.zero PrimFloat.zero PrimFloat.zero
          ts "Pending" "Regular").

Definition setProductCost (cost : float) (x : t) : t :=
  mk (id x) (supplierId x) (retailerId x) (productId x) (transporterId x) (quantity x)
     cost (transportCost x) (totalCost x) (timestamp x) (status x) (orderType x).

Definition setTransportCost (cost : float) (x : t) : t :=
  mk (id x) (supplierId x) (retailerId x) (productId x) (transporterId x) (quantity x)
     (productCost x) cost (totalCost x) (timestamp x) (status x) (orderType x).

Definition calculateTotalCost (x : t) : t :=
  mk (id x) (supplierId x) (retailerId x) (productId x) (transporterId x) (quantity x)
     (productCost x) (transportCost x) (productCost x + transportCost x)%float
     (timestamp x) (status x) (orderType x).

Definition setStatus (newStatus : string) (x : t) : t :=
  mk (id x) (supplierId x) (retailerId x) (productId x) (transporterId x) (quantity x)
     (productCost x) (transportCost x) (totalCost x) (timestamp x) newStatus (orderType x).

Definition setOrderType (type : string) (x : t) : t :=
  mk (id x) (supplierId x) (retailerId x) (productId x) (transporterId x) (quantity x)
     (productCost x) (transportCost x) (totalCost x) (timestamp x) (status x) type.

Definition getBlockData (x : t) : string :=
  ("Transaction ID: " ++ string_of_int (id x)
   ++ " | Supplier ID: " ++ string_of_int (supplierId x)
   ++ " | Retailer ID: " ++ string_of_int (retailerId x)
   ++ " | Product ID: " ++ string_of_int (productId x)
   ++ " | Quantity: " ++ string_of_int (quantity x)
   ++ " | Total Cost: RM" ++ fixed2 (totalCost x)
   ++ " | Timestamp: " ++ timestamp x
   ++ " | Status: " ++ status x
   ++ " | Order Type: " ++ orderType x)%string.

(** [Transaction::serialize]. [show] stands for [operator<<] on a
    [double] in the default format of a fresh stream. *)
Definition serialize (show : float -> string) (x : t) : string :=
  (string_of_int (id x) ++ "|" ++ string_of_int (supplierId x) ++ "|"
   ++ string_of_int (retailerId x) ++ "|" ++ string_of_int (productId x) ++ "|"
   ++ string_of_int (transporterId x) ++ "|" ++ string_of_int (quantity x) ++ "|"
   ++ show (productCost x) ++ "|" ++ show (transportCost x) ++ "|" ++ show (totalCost x)
   ++ "|" ++ timestamp x ++ "|" ++ status x ++ "|" ++ orderType x)%string.

(** [Transaction::deserialize]: the constructor reads the clock once the six
    integers are converted; the costs are converted after it. *)
Definition deserialize (stod : string -> result float) (str : string) : M (result t) :=
  let parts := split "|" str in
  if (length parts <? 12)%nat then ret (Throw (runtime_error "Invalid transaction data format"))
  else
    let ints :=
      (try! id := stoi (nth 0 parts EmptyString) in
       try! supplierId := stoi (nth 1 parts EmptyString) in
       try! retailerId := stoi (nth 2 parts EmptyString) in
       try! productId := stoi (nth 3 parts EmptyString) in
       try! transporterId := stoi (nth 4 parts EmptyString) in
       try! quantity := stoi (nth 5 parts EmptyString) in
       Ok (id, supplierId, retailerId, productId, transporterId, quantity))%result in
    match ints with
    | Throw e => ret (Throw e)
    | Ok (id, supplierId, retailerId, productId, transporterId, quantity) =>
        transaction <- new id supplierId retailerId productId transporterId quantity ;;
        ret (try! productCost := stod (nth 6 parts EmptyString) in
             try! transportCost := stod (nth 7 parts EmptyString) in
             try! totalCost := stod (nth 8 parts EmptyString) in
             Ok (mk id supplierId retailerId productId transporterId quantity
                    productCost transportCost totalCost
                    (nth 9 parts EmptyString) (nth 10 parts EmptyString)
                    (nth 11 parts EmptyString)))%result
    end.

End Transaction.

(** The policies. [PriceThresholdContract] is the only implementation of
    the [SmartContract] interface. *)
Inductive SmartContract : Type :=
| PriceThresholdContract (maxAllowedCost : float).

Definition validate (c : SmartContract) (transaction : Transaction.t) : bool :=
  match c with
  | PriceThresholdContract maxAllowedCost =>
      PrimFloat.leb (Transaction.totalCost transaction) maxAllowedCost
  end.

(* ===================================================================== *)
(** ** The system object and the transaction pipeline *)
(* ===================================================================== *)

(** The first element a [for (auto& x : v) if (x.getId() == id) return &x;]
    scan returns: its position in the vector and its value; [None] is
    [nullptr]. *)
Fixpoint find_from {A} (getId : A -> Z) (id : Z) (l : list A) (i : nat) : option (nat * A) :=
  match l with
  | [] => None
  | x :: l' => if getId x =? id then Some (i, x) else find_from getId id l' (S i)
  end.

Definition find_by_id {A} (getId : A -> Z) (id : Z) (l : list A) : option (nat * A) :=
  find_from getId id l O.

Module ProductionPlanningSystem.

Record t : Type := mk {
  products : list Product.t;
  suppliers : list Supplier.t;
  retailers : list Retailer.t;
  transporters : list Transporter.t;
  transactions : list Transaction.t;
  contracts : list SmartContract;
  blockchain : Blockchain.t;
  nextProductId : Z;
  nextSupplierId : Z;
  nextRetailerId : Z;
  nextTransporterId : Z;
  nextTransactionId : Z
}.

Definition findProduct (id : Z) (sys : t) := find_by_id Product.id id (products sys).
Definition findSupplier (id : Z) (sys : t) := find_by_id Supplier.id id (suppliers sys).
Definition findRetailer (id : Z) (sys : t) := find_by_id Retailer.id id (retailers sys).
Definition findTransporter (id : Z) (sys : t) := find_by_id Transporter.id id (transporters sys).

Definition set_products (ps : list Product.t) (sys : t) : t :=
  mk ps (suppliers sys) (retailers sys) (transporters sys) (transactions sys)
     (contracts sys) (blockchain sys) (nextProductId sys) (nextSupplierId sys)
     (nextRetailerId sys) (nextTransporterId sys) (nextTransactionId sys).

Definition set_retailers (rs : list Retailer.t) (sys : t) : t :=
  mk (products sys) (suppliers sys) rs (transporters sys) (transactions sys)
     (contracts sys) (blockchain sys) (nextProductId sys) (nextSupplierId sys)
     (nextRetailerId sys) (nextTransporterId sys) (nextTransactionId sys).

Definition set_transactions (ts : list Transaction.t) (sys : t) : t :=
  mk (products sys) (suppliers sys) (retailers sys) (transporters sys) ts
     (contracts sys) (blockchain sys) (nextProductId sys) (nextSupplierId sys)
     (nextRetailerId sys) (nextTransporterId sys) (nextTransactionId sys).

Definition set_blockchain (chain : Blockchain.t) (sys : t) : t :=
  mk (products sys) (suppliers sys) (retailers sys) (transporters sys) (transactions sys)
     (contracts sys) chain (nextProductId sys) (nextSupplierId sys)
     (nextRetailerId sys) (nextTransporterId sys) (nextTransactionId sys).

Definition set_nextTransactionId (n : Z) (sys : t) : t :=
  mk (products sys) (suppliers sys) (retailers sys) (transporters sys) (transactions sys)
     (contracts sys) (blockchain sys) (nextProductId sys) (nextSupplierId sys)
     (nextRetailerId sys) (nextTransporterId sys) n.

(** The common tail of the three recording exits of [createTransaction]:
    [transactions.push_back(transaction); blockchain.addBlock(prefix + data);
    return nextTransactionId++;]. The append can throw after the push. *)
Definition record_transaction (prefix : string) (transaction : Transaction.t) (sys : t)
  : M (result Z * t) :=
  let sys1 := set_transactions (transactions sys ++ [transaction]) sys in
  r <- Blockchain.addBlock (prefix ++ Transaction.getBlockData transaction)%string
                           (blockchain sys1) ;;
  match r with
  | Throw e => ret (Throw e, sys1)
  | Ok chain' =>
      ret (Ok (nextTransactionId sys1),
           set_nextTransactionId (int_add (nextTransactionId sys1) 1)
                                 (set_blockchain chain' sys1))
  end.

(** The [try] block of [createTransaction]. *)
Definition createTransaction_try
    (supplierId retailerId productId transporterId quantity : Z) (orderType : string)
    (sys : t) : M (result Z * t) :=
  let supplier := findSupplier supplierId sys in
  let retailer := findRetailer retailerId sys in
  let product := findProduct productId sys in
  let transporter := findTransporter transporterId sys in
  match supplier with
  | None => ret (Throw (runtime_error "Supplier ID not found"), sys)
  | Some (_, supplier) =>
  match retailer with
  | None => ret (Throw (runtime_error "Retailer ID not found"), sys)
  | Some (ri, retailer) =>
  match product with
  | None => ret (Throw (runtime_error "Product ID not found"), sys)
  | Some (pi, product) =>
  match transporter with
  | None => ret (Throw (runtime_error "Transporter ID not found"), sys)
  | Some (_, transporter) =>
  let supplierHasProduct := existsb (fun id => id =? productId) (Supplier.productIds supplier) in
  if negb supplierHasProduct then
    ret (Throw (runtime_error "This supplier does not supply this product"), sys)
  else if negb (Product.hasEnoughStock quantity product) then
    ret (Throw (runtime_error "Insufficient product stock"), sys)
  else
    let productCost := (Product.price product * double_of_int quantity)%float in
    let distance := calculateDistance (Supplier.latitude supplier) (Supplier.longitude supplier)
                                      (Retailer.latitude retailer) (Retailer.longitude retailer) in
    let transportCost := Transporter.calculateTransportCost distance transporter in
    transaction <- Transaction.new (nextTransactionId sys) supplierId retailerId productId
                                   transporterId quantity ;;
    let transaction := Transaction.setProductCost productCost transaction in
    let transaction := Transaction.setTransportCost transportCost transaction in
    let transaction := Transaction.calculateTotalCost transaction in
    let transaction := Transaction.setOrderType orderType transaction in
    let isValid := forallb (fun contract => validate contract transaction) (contracts sys) in
    if negb isValid then
      record_transaction "Failed Transaction | " (Transaction.setStatus "Failed" transaction) sys
    else
      let totalCost := Transaction.totalCost transaction in
      match Retailer.deductCredit totalCost retailer with
      | (false, _) =>
          record_transaction "Failed Transaction (Credit) | "
                             (Transaction.setStatus "Failed" transaction) sys
      | (true, retailer') =>
          let sys := set_retailers (<[ri := retailer']> (retailers sys)) sys in
          let sys := set_products
                       (<[pi := Product.updateStock (int_neg quantity) product]> (products sys))
                       sys in
          record_transaction "Completed Transaction | "
                             (Transaction.setStatus "Completed" transaction) sys
      end
  end end end end.

(** [createTransaction]: the handler turns every exception into [-1]; what
    the [try] block changed before the throw stays changed. *)
Definition createTransaction
    (supplierId retailerId productId transporterId quantity : Z) (orderType : string)
    (sys : t) : M (Z * t) :=
  r <- createTransaction_try supplierId retailerId productId transporterId quantity orderType sys ;;
  match r with
  | (Ok transactionId, sys') => ret (transactionId, sys')
  | (Throw _, sys') => ret (-1, sys')
  end.

(** *** Vocabulary for the pipeline's steps *)

(** Steps 1 to 3: the entities a call resolves to, when all four ids are
    found, the supplier lists the product and the stock covers the
    quantity. A call constructs a [Transaction] exactly when it resolves. *)
Definition resolve (supplierId retailerId productId transporterId quantity : Z) (sys : t)
  : option (Supplier.t * (nat * Retailer.t) * (nat * Product.t) * Transporter.t) :=
  match findSupplier supplierId sys, findRetailer retailerId sys,
        findProduct productId sys, findTransporter transporterId sys with
  | Some (_, supplier), Some r, Some (pi, product), Some (_, transporter) =>
      if existsb (fun id => id =? productId) (Supplier.productIds supplier)
         && Product.hasEnoughStock quantity product
      then Some (supplier, r, (pi, product), transporter)
      else None
  | _, _, _, _ => None
  end.

(** Step 4: the total cost of the order. *)
Definition quote (supplier : Supplier.t) (retailer : Retailer.t) (product : Product.t)
    (transporter : Transporter.t) (quantity : Z) : float :=
  (Product.price product * double_of_int quantity
   + Transporter.calculateTransportCost
       (calculateDistance (Supplier.latitude supplier) (Supplier.longitude supplier)
                          (Retailer.latitude retailer) (Retailer.longitude retailer))
       transporter)%float.

(** Step 6: every contract accepts a transaction of this total cost. *)
Definition approved (contracts : list SmartContract) (totalCost : float) : bool :=
  forallb (fun c => match c with
                    | PriceThresholdContract maxAllowedCost =>
                        PrimFloat.leb totalCost maxAllowedCost
                    end) contracts.

(** Step 5: the transaction as constructed and costed, [timestamp] being
    the time read by its constructor. *)
Definition costed (sys : t) (supplierId retailerId productId transporterId quantity : Z)
    (orderType timestamp : string) (supplier : Supplier.t) (retailer : Retailer.t)
    (product : Product.t) (transporter : Transporter.t) : Transaction.t :=
  let productCost := (Product.price product * double_of_int quantity)%float in
  let transportCost :=
    Transporter.calculateTransportCost
      (calculateDistance (Supplier.latitude supplier) (Supplier.longitude supplier)
                         (Retailer.latitude retailer) (Retailer.longitude retailer))
      transporter in
  Transaction.mk (nextTransactionId sys) supplierId retailerId productId transporterId
                 quantity productCost transportCost (productCost + transportCost)%float
                 timestamp "Pending" orderType.

(** Steps 6 to 8 up to the ledger append: the payload prefix, the
    transaction as it is stored, and the system once credit and stock are
    settled. *)
Definition settle (sys : t) (ri : nat) (retailer : Retailer.t) (pi : nat) (product : Product.t)
    (transaction : Transaction.t) : string * Transaction.t * t :=
  let totalCost := Transaction.totalCost transaction in
  if negb (approved (contracts sys) totalCost) then
    ("Failed Transaction | ", Transaction.setStatus "Failed" transaction, sys)
  else if negb (PrimFloat.leb totalCost (Retailer.creditBalance retailer)) then
    ("Failed Transaction (Credit) | ", Transaction.setStatus "Failed" transaction, sys)
  else
    ("Completed Transaction | ", Transaction.setStatus "Completed" transaction,
     set_products
       (<[pi := Product.updateStock (int_neg (Transaction.quantity transaction)) product]>
          (products sys))
       (set_retailers (<[ri := snd (Retailer.deductCredit totalCost retailer)]> (retailers sys))
                      sys)).

(** *** Sequences of calls *)

Record Call : Type := mkCall {
  call_supplier : Z;
  call_retailer : Z;
  call_product : Z;
  call_transporter : Z;
  call_quantity : Z;
  call_orderType : string
}.

Definition call (c : Call) (sys : t) : M (Z * t) :=
  createTransaction (call_supplier c) (call_retailer c) (call_product c)
                    (call_transporter c) (call_quantity c) (call_orderType c) sys.

Definition constructs (c : Call) (sys : t) : bool :=
  match resolve (call_supplier c) (call_retailer c) (call_product c)
                (call_transporter c) (call_quantity c) sys with
  | Some _ => true
  | None => false
  end.

(** What one call of a run did: whether it constructed a [Transaction],
    what it returned, and the transaction counter before and after it. *)
Record Step : Type := mkStep {
  step_constructs : bool;
  step_returned : Z;
  counter_before : Z;
  counter_after : Z
}.

(** The calls made one after the other; the log of the steps and the
    system at the end. *)
Fixpoint run (calls : list Call) (sys : t) : M (list Step * t) :=
  match calls with
  | [] => ret ([], sys)
  | c :: calls' =>
      r <- call c sys ;;
      rest <- run calls' (snd r) ;;
      ret (mkStep (constructs c sys) (fst r) (nextTransactionId sys)
                  (nextTransactionId (snd r)) :: fst rest,
           snd rest)
  end.

(** No call of the run asks for a quantity that would take the stock of its
    product beyond [INT_MAX] (only a negative quantity can). *)
Fixpoint stock_fits (calls : list Call) (sys : t) (w : World) : Prop :=
  match calls with
  | [] => True
  | c :: calls' =>
      (forall pi product,
          findProduct (call_product c) sys = Some (pi, product) ->
          Product.stock product - call_quantity c <= INT_MAX) /\
      stock_fits calls' (snd (fst (call c sys w))) (snd (call c sys w))
  end.

(** What the log of a run says of one step. *)
Definition step_ok (st : Step) : Prop :=
  if step_constructs st then
    step_returned st = counter_before st /\
    (counter_before st < INT_MAX -> counter_after st = counter_before st + 1)
  else
    step_returned st = -1 /\ counter_after st = counter_before st.

(** One reading loop of [loadData]:
    [while (getline(file, line)) try { store.push_back(deserialize(line)); }
     catch (const std::exception& e) { std::cerr << label << e.what(); }].
    [cerr] collects the lines written to the error stream. *)
Fixpoint load_lines {A} (deserialize : string -> M (result A)) (label : string)
    (lines : list string) (store : list A) (cerr : list string)
  : M (list A * list string) :=
  match lines with
  | [] => ret (store, cerr)
  | line :: lines' =>
      r <- deserialize line ;;
      match r with
      | Ok x => load_lines deserialize label lines' (store ++ [x]) cerr
      | Throw e => load_lines deserialize label lines' store (cerr ++ [label ++ what e]%string)
      end
  end.

Definition loadData_products (stod : string -> result float) :=
  load_lines (fun line => ret (Product.deserialize stod line)) "Error deserializing product: ".

Definition loadData_suppliers (stod : string -> result float) :=
  load_lines (fun line => ret (Supplier.deserialize stod line)) "Error deserializing supplier: ".

Definition loadData_retailers (stod : string -> result float) :=
  load_lines (fun line => ret (Retailer.deserialize stod line)) "Error deserializing retailer: ".

Definition loadData_transporters (stod : string -> result float) :=
  load_lines (fun line => ret (Transporter.deserialize stod line))
             "Error deserializing transporter: ".

Definition loadData_transactions (stod : string -> result float) :=
  load_lines (Transaction.deserialize stod) "Error deserializing transaction: ".

(** What [loadData] does with a record line that has fewer than [required]
    fields: the line adds one warning to the error stream and nothing to
    the store, and the lines after it are read as if it were not there. *)
Definition skips_malformed {A} (deserialize : string -> M (result A)) (label msg : string)
    (required : nat) : Prop :=
  forall (pre : list string) (bad : string) (post : list string) (store : list A)
         (cerr : list string) (w : World),
    (length (split "|" bad) < required)%nat ->
    load_lines deserialize label (pre ++ bad :: post) store cerr w =
      (let '((store1, cerr1), w1) := load_lines deserialize label pre store cerr w in
       load_lines deserialize label post store1 (cerr1 ++ [(label ++ msg)%string]) w1).

(** *** Registration of entities *)

Definition set_suppliers (ss : list Supplier.t) (sys : t) : t :=
  mk (products sys) ss (retailers sys) (transporters sys) (transactions sys)
     (contracts sys) (blockchain sys) (nextProductId sys) (nextSupplierId sys)
     (nextRetailerId sys) (nextTransporterId sys) (nextTransactionId sys).

Definition set_transporters (ts : list Transporter.t) (sys : t) : t :=
  mk (products sys) (suppliers sys) (retailers sys) ts (transactions sys)
     (contracts sys) (blockchain sys) (nextProductId sys) (nextSupplierId sys)
     (nextRetailerId sys) (nextTransporterId sys) (nextTransactionId sys).

Definition set_nextProductId (n : Z) (sys : t) : t :=
  mk (products sys) (suppliers sys) (retailers sys) (transporters sys) (transactions sys)
     (contracts sys) (blockchain sys) n (nextSupplierId sys)
     (nextRetailerId sys) (nextTransporterId sys) (nextTransactionId sys).

Definition set_nextSupplierId (n : Z) (sys : t) : t :=
  mk (products sys) (suppliers sys) (retailers sys) (transporters sys) (transactions sys)
     (contracts sys) (blockchain sys) (nextProductId sys) n
     (nextRetailerId sys) (nextTransporterId sys) (nextTransactionId sys).

Definition set_nextRetailerId (n : Z) (sys : t) : t :=
  mk (products sys) (suppliers sys) (retailers sys) (transporters sys) (transactions sys)
     (contracts sys) (blockchain sys) (nextProductId sys) (nextSupplierId sys)
     n (nextTransporterId sys) (nextTransactionId sys).

Definition set_nextTransporterId (n : Z) (sys : t) : t :=
  mk (products sys) (suppliers sys) (retailers sys) (transporters sys) (transactions sys)
     (contracts sys) (blockchain sys) (nextProductId sys) (nextSupplierId sys)
     (nextRetailerId sys) n (nextTransactionId sys).

(** The common tail of the four [add...] functions, the entity being
    stored already: [blockchain.addBlock(blockData); return next...Id++;],
    and [-1] from the handler when the append throws. *)
Definition register (blockData : string) (nextId : Z) (set_nextId : Z -> t -> t) (sys : t)
  : M (Z * t) :=
  r <- Blockchain.addBlock blockData (blockchain sys) ;;
  match r with
  | Throw _ => ret (-1, sys)
  | Ok chain => ret (nextId, set_nextId (int_add nextId 1) (set_blockchain chain sys))
  end.

Definition addProduct (name : string) (price : float) (stock : Z) (sys : t) : M (Z * t) :=
  let newProduct := Product.mk (nextProductId sys) name price stock in
  register ("Added Product | " ++ Product.toString newProduct)%string
           (nextProductId sys) set_nextProductId
           (set_products (products sys ++ [newProduct]) sys).

Definition addSupplier (name location branch : string) (latitude longitude : float) (sys : t)
  : M (Z * t) :=
  let newSupplier :=
    Supplier.mk (nextSupplierId sys) name location branch latitude longitude [] in
  register ("Added Supplier | " ++ Supplier.toString newSupplier)%string
           (nextSupplierId sys) set_nextSupplierId
           (set_suppliers (suppliers sys ++ [newSupplier]) sys).

Definition addRetailer (name location : string)
    (latitude longitude initialCredit annualCredit : float) (sys : t) : M (Z * t) :=
  let newRetailer :=
    Retailer.mk (nextRetailerId sys) name location latitude longitude
                initialCredit annualCredit [] in
  register ("Added Retailer | " ++ Retailer.toString newRetailer)%string
           (nextRetailerId sys) set_nextRetailerId
           (set_retailers (retailers sys ++ [newRetailer]) sys).

Definition addTransporter (name type : string) (costPerKm capacity : float) (sys : t)
  : M (Z * t) :=
  let newTransporter := Transporter.mk (nextTransporterId sys) name type costPerKm capacity in
  register ("Added Transporter | " ++ Transporter.toString newTransporter)%string
           (nextTransporterId sys) set_nextTransporterId
           (set_transporters (transporters sys ++ [newTransporter]) sys).

(** [Supplier* s = findSupplier(id); if (s) { s->addProduct(p); ... }] *)
Definition link_products (supplierId : Z) (productIds : list Z) (sys : t) : t :=
  match findSupplier supplierId sys with
  | None => sys
  | Some (si, supplier) =>
      set_suppliers
        (<[si := fold_left (fun s productId => Supplier.addProduct productId s)
                           productIds supplier]> (suppliers sys))
        sys
  end.

(** *** Construction and reset *)

#[local] Set Warnings "-inexact-float".

(** [loadSampleData]: three products, two suppliers and their products,
    three retailers, two transporters. *)
Definition loadSampleData (sys : t) : M t :=
  r <- addProduct "Rice" 5.50 1000 sys ;;
  r <- addProduct "Vegetables" 3.20 800 (snd r) ;;
  r <- addProduct "Fruits" 4.75 600 (snd r) ;;
  r <- addSupplier "Malayan Agro" "Lot 348, Kampung Datuk Keramat, 50400 Kuala Lumpur"
                   "Federal Territory of Kuala Lumpur" 3.168 101.708 (snd r) ;;
  r <- addSupplier "Farm Fresh Produce" "Jalan Tun Razak, 55000 Kuala Lumpur"
                   "Federal Territory of Kuala Lumpur" 3.161 101.720 (snd r) ;;
  let sys := link_products 1 [1; 2] (snd r) in
  let sys := link_products 2 [2; 3] sys in
  r <- addRetailer "SuperMart" "Bukit Bintang, 55100 Kuala Lumpur"
                   3.148 101.698 10000 100000 sys ;;
  r <- addRetailer "FreshMart" "Petaling Jaya, 47800 Selangor"
                   3.107 101.607 8000 80000 (snd r) ;;
  r <- addRetailer "QuickMart" "Shah Alam, 40000 Selangor"
                   3.073 101.518 5000 50000 (snd r) ;;
  r <- addTransporter "FastTruck" "Ordinary Ground Transfer" 2.50 2000 (snd r) ;;
  r <- addTransporter "SpeedyDel" "Express Delivery" 3.75 1500 (snd r) ;;
  ret (snd r).

(** The constructor: the ledger member is constructed first, then the
    default contract is added and the sample data loaded. *)
Definition new : M t :=
  chain <- Blockchain.new ;;
  loadSampleData (mk [] [] [] [] [] [PriceThresholdContract 4000] chain 1 1 1 1 1).

(** [resetSystem]: the stores are cleared, the counters set to 1, the
    ledger replaced by a fresh one and the sample data loaded; the
    contracts stay. *)
Definition resetSystem (sys : t) : M t :=
  chain <- Blockchain.new ;;
  loadSampleData (mk [] [] [] [] [] (contracts sys) chain 1 1 1 1 1).

(** *** The interactive order entry *)

(** [beginRetailerTransaction], the five numbers being what the operator's
    entries are read as; an exception ends in the handler, which reports
    it. The order type is the default one. *)
Definition beginRetailerTransaction (retailerId supplierId productId quantity transporterId : Z)
    (sys : t) : M (result Z * t) :=
  match findRetailer retailerId sys with
  | None => ret (Throw (runtime_error "Retailer not found"), sys)
  | Some _ =>
  match findSupplier supplierId sys with
  | None => ret (Throw (runtime_error "Supplier not found"), sys)
  | Some (_, supplier) =>
      let hasProduct := existsb (fun id => id =? productId) (Supplier.productIds supplier) in
      if negb hasProduct then
        ret (Throw (runtime_error "This supplier does not provide this product"), sys)
      else if quantity <=? 0 then
        ret (Throw (runtime_error "Quantity must be positive"), sys)
      else
        r <- createTransaction supplierId retailerId productId transporterId quantity
                               "Regular" sys ;;
        ret (Ok (fst r), snd r)
  end end.

(** [addNewProduct]; [price] and [stock] are what the two extractions
    yield, [None] when an extraction fails. The stock is read once the
    price is accepted. *)
Definition addNewProduct (name : string) (price : option float) (stock : option Z) (sys : t)
  : M (result Z * t) :=
  match price with
  | None => ret (Throw (runtime_error "Invalid price"), sys)
  | Some price =>
      if PrimFloat.ltb price 0 then ret (Throw (runtime_error "Invalid price"), sys)
      else
        match stock with
        | None => ret (Throw (runtime_error "Invalid stock"), sys)
        | Some stock =>
            if stock <? 0 then ret (Throw (runtime_error "Invalid stock"), sys)
            else
              r <- addProduct name price stock sys ;;
              ret (Ok (fst r), snd r)
        end
  end.

(** *** The distribution report *)

(** What [generateDistributionReport] counts before printing it. *)
Record Report : Type := mkReport {
  completed : Z;
  failed : Z;
  totalRevenue : float;
  productQuantities : gmap Z Z
}.

Definition report_step (r : Report) (transaction : Transaction.t) : Report :=
  if String.eqb (Transaction.status transaction) "Completed" then
    let productId := Transaction.productId transaction in
    let quantity := Transaction.quantity transaction in
    mkReport (int_add (completed r) 1) (failed r)
             (totalRevenue r + Transaction.totalCost transaction)%float
             (<[productId := int_add (default 0 (productQuantities r !! productId)) quantity]>
                (productQuantities r))
  else if String.eqb (Transaction.status transaction) "Failed" then
    mkReport (completed r) (int_add (failed r) 1) (totalRevenue r) (productQuantities r)
  else r.

Definition generateDistributionReport (sys : t) : Report :=
  fold_left report_step (transactions sys) (mkReport 0 0 PrimFloat.zero ∅).

(** A transaction the report counts: its status is one of the two the
    pipeline stores. *)
Definition settled (transaction : Transaction.t) : Prop :=
  Transaction.status transaction = "Completed" \/ Transaction.status transaction = "Failed".

(** *** Invariants of the catalog *)

(** The ids of a store are pairwise different and all below the counter
    the next one is drawn from, an [int]. *)
Definition numbered_below {A} (getId : A -> Z) (store : list A) (nextId : Z) : Prop :=
  NoDup (getId <$> store) /\ Forall (fun x => getId x < nextId) store /\ in_int nextId.

Definition well_formed (sys : t) : Prop :=
  blockchain sys <> [] /\ Blockchain.linked (blockchain sys) /\
  numbered_below Product.id (products sys) (nextProductId sys) /\
  numbered_below Supplier.id (suppliers sys) (nextSupplierId sys) /\
  numbered_below Retailer.id (retailers sys) (nextRetailerId sys) /\
  numbered_below Transporter.id (transporters sys) (nextTransporterId sys) /\
  numbered_below Transaction.id (transactions sys) (nextTransactionId sys).

End ProductionPlanningSystem.

(* ===================================================================== *)
(** ** The analytics: what a call displays *)
(* ===================================================================== *)

(** The route optimizer and the inventory allocator catch every exception
    themselves and report it on the console. A call leaves what it has
    displayed by then, and the exception it caught, if any. *)
Record Shown (P : Type) : Type := mkShown {
  displayed : option P;
  caught : option exn
}.
Arguments mkShown {P} displayed caught.
Arguments displayed {P} s.
Arguments caught {P} s.

(* ===================================================================== *)
(** ** The route optimizer *)
(* ===================================================================== *)

Module Router.

Import ProductionPlanningSystem.

Definition distance_between (a b : Retailer.t) : float :=
  calculateDistance (Retailer.latitude a) (Retailer.longitude a)
                    (Retailer.latitude b) (Retailer.longitude b).

Definition distance_from (supplier : Supplier.t) (r : Retailer.t) : float :=
  calculateDistance (Supplier.latitude supplier) (Supplier.longitude supplier)
                    (Retailer.latitude r) (Retailer.longitude r).

Definition distance_to (supplier : Supplier.t) (r : Retailer.t) : float :=
  calculateDistance (Retailer.latitude r) (Retailer.longitude r)
                    (Supplier.latitude supplier) (Supplier.longitude supplier).

(** The matrix [distances]: zero on the diagonal, [calculateDistance]
    elsewhere. *)
Definition distance_matrix (retailers : list Retailer.t) : list (list float) :=
  imap (fun i ri =>
          imap (fun j rj => if (i =? j)%nat then PrimFloat.zero else distance_between ri rj)
               retailers)
       retailers.

(** [v[i]] and [m[i][j]] for indices within bounds. *)
Definition at1 (v : list float) (i : nat) : float := default PrimFloat.zero (v !! i).
Definition at2 (m : list (list float)) (i j : nat) : float := at1 (default [] (m !! i)) j.

(** The table [idToIndex]: [idToIndex[retailers[i].getId()] = i] for
    [i = 0, 1, ...], a later index replacing an earlier one. *)
Fixpoint index_ids (retailers : list Retailer.t) (i : nat) (idToIndex : gmap Z nat)
  : gmap Z nat :=
  match retailers with
  | [] => idToIndex
  | r :: retailers' => index_ids retailers' (S i) (<[Retailer.id r := i]> idToIndex)
  end.

(** [idToIndex[id]]; a missing key reads as 0. *)
Definition index_of (idToIndex : gmap Z nat) (id : Z) : nat := default O (idToIndex !! id).

(** One selection loop,
    [for (j = 0; j < n; ++j) if (eligible(j) && row[j] < minDist)
       { minDist = row[j]; index = j; }],
    from position [j] on; [row] is what is left of the row. *)
Fixpoint scan (eligible : nat -> bool) (row : list float) (j : nat)
    (minDist : float) (index : nat) : nat :=
  match row with
  | [] => index
  | d :: row' =>
      if eligible j && PrimFloat.ltb d minDist then scan eligible row' (S j) d j
      else scan eligible row' (S j) minDist index
  end.

(** The first stop: every retailer is eligible. *)
Definition nearest_to_supplier (supplierDistances : list float) : nat :=
  scan (fun _ => true) supplierDistances O DBL_MAX O.

(** A later stop: the retailers not yet visited are eligible. *)
Definition nearest_unvisited (distances : list (list float)) (visited : list bool)
    (currentIndex : nat) : nat :=
  scan (fun j => negb (default false (visited !! j))) (default [] (distances !! currentIndex))
       O DBL_MAX O.

(** [k] rounds of the greedy loop. *)
Fixpoint greedy (k : nat) (distances : list (list float)) (indexToId : list Z)
    (route : list Z) (visited : list bool) (currentIndex : nat) : list Z :=
  match k with
  | O => route
  | S k' =>
      let nextIndex := nearest_unvisited distances visited currentIndex in
      greedy k' distances indexToId (route ++ [default 0 (indexToId !! nextIndex)])
             (<[nextIndex := true]> visited) nextIndex
  end.

(** The loop adding up the legs between consecutive stops. *)
Fixpoint add_legs (distances : list (list float)) (idToIndex : gmap Z nat) (route : list Z)
    (totalDistance : float) : float :=
  match route with
  | a :: (b :: _) as rest =>
      add_legs distances idToIndex rest
               (totalDistance + at2 distances (index_of idToIndex a) (index_of idToIndex b))%float
  | _ => totalDistance
  end.

(** The body of [optimizeDistributionRoute] from the distance matrix to
    the total distance. *)
Definition plan_tour (supplier : Supplier.t) (retailers : list Retailer.t) : list Z * float :=
  let distances := distance_matrix retailers in
  let indexToId := Retailer.id <$> retailers in
  let idToIndex := index_ids retailers O ∅ in
  let visited := repeat false (length retailers) in
  let supplierDistances := distance_from supplier <$> retailers in
  let currentIndex := nearest_to_supplier supplierDistances in
  let route := [default 0 (indexToId !! currentIndex)] in
  let visited := <[currentIndex := true]> visited in
  let route := greedy (length retailers - 1) distances indexToId route visited
                      currentIndex in
  let totalDistance :=
    at1 supplierDistances (index_of idToIndex (default 0 (head route))) in
  let totalDistance := add_legs distances idToIndex route totalDistance in
  let lastIndex := index_of idToIndex (default 0 (last route)) in
  let totalDistance :=
    match retailers !! lastIndex with
    | Some r => (totalDistance + distance_to supplier r)%float
    | None => totalDistance
    end in
  (route, totalDistance).

(** The route as displayed: for every id of [route], the first retailer
    with that id. *)
Definition listing (retailers : list Retailer.t) (route : list Z) : list Retailer.t :=
  omap (fun id => snd <$> find_by_id Retailer.id id retailers) route.

(** [for (int id : route) ss << id << ","] *)
Fixpoint route_text (route : list Z) : string :=
  match route with
  | [] => EmptyString
  | id :: route' => (string_of_int id ++ "," ++ route_text route')%string
  end.

(** What the optimizer displays: the vector [route], the retailers listed
    for it, the total distance and, once the transporter is found, the
    cost. *)
Record Tour : Type := mkTour {
  tour_route : list Z;
  tour_listed : list Retailer.t;
  tour_distance : float;
  tour_cost : option float
}.

(** [optimizeDistributionRoute]; [supplierId] and [transporterId] are what
    the operator enters, [show] writes a [double] as [operator<<] does. *)
Definition optimizeDistributionRoute (show : float -> string) (supplierId transporterId : Z)
    (sys : t) : M (Shown Tour * t) :=
  if (length (retailers sys) <? 2)%nat then
    ret (mkShown None (Some (runtime_error "Need at least 2 retailers to optimize routes")),
         sys)
  else
    match findSupplier supplierId sys with
    | None => ret (mkShown None (Some (runtime_error "Supplier not found")), sys)
    | Some (_, supplier) =>
        let '(route, totalDistance) := plan_tour supplier (retailers sys) in
        let listed := listing (retailers sys) route in
        match findTransporter transporterId sys with
        | None =>
            ret (mkShown (Some (mkTour route listed totalDistance None))
                         (Some (runtime_error "Transporter not found")), sys)
        | Some (_, transporter) =>
            let transportCost :=
              Transporter.calculateTransportCost totalDistance transporter in
            let tour := mkTour route listed totalDistance (Some transportCost) in
            let blockData :=
              ("Optimized Route | Supplier: " ++ string_of_int (Supplier.id supplier)
               ++ " | Retailers: " ++ route_text route
               ++ " | Distance: " ++ show totalDistance
               ++ " | Transporter: " ++ string_of_int transporterId
               ++ " | Cost: " ++ show transportCost)%string in
            r <- Blockchain.addBlock blockData (blockchain sys) ;;
            match r with
            | Throw e => ret (mkShown (Some tour) (Some e), sys)
            | Ok chain => ret (mkShown (Some tour) None, set_blockchain chain sys)
            end
        end
    end.

(** *** What the claim says of the result *)

(** The strict order of [SFcompare]. *)
Definition SFlt (x y : spec_float) : Prop := SFcompare x y = Some Lt.

(** Index [s] is the nearest eligible one, the first of the nearest: no
    eligible index is strictly nearer and every eligible index before it is
    strictly farther. *)
Definition first_nearest (d : nat -> float) (eligible : nat -> Prop) (n s : nat) : Prop :=
  (s < n)%nat /\ eligible s /\
  (forall j, (j < n)%nat -> eligible j -> PrimFloat.ltb (d j) (d s) = false) /\
  (forall j, (j < s)%nat -> eligible j -> PrimFloat.ltb (d s) (d j) = true).

(** What a selection loop over the row [full] has established once the
    positions before [j] are done: nothing eligible so far, or [index] is
    the first nearest of the eligible positions so far and [minDist] its
    distance. *)
Definition scanned (eligible : nat -> bool) (full : list float) (j : nat) (minDist : float)
    (index : nat) : Prop :=
  (minDist = DBL_MAX /\ forall i, (i < j)%nat -> eligible i = false) \/
  ((index < j)%nat /\ eligible index = true /\ full !! index = Some minDist /\
   (forall i d, (i < j)%nat -> full !! i = Some d -> eligible i = true ->
                PrimFloat.ltb d minDist = false) /\
   (forall i d, (i < index)%nat -> full !! i = Some d -> eligible i = true ->
                PrimFloat.ltb minDist d = true)).

(** The retailers at the given indices. *)
Definition visits_of (retailers : list Retailer.t) (stops : list nat) : list Retailer.t :=
  omap (fun s => retailers !! s) stops.

(** The leg between the retailers at two indices. *)
Definition leg (retailers : list Retailer.t) (i j : nat) : float :=
  match retailers !! i, retailers !! j with
  | Some a, Some b => distance_between a b
  | _, _ => PrimFloat.zero
  end.

(** The leg from the supplier to the retailer at an index. *)
Definition leg_from (supplier : Supplier.t) (retailers : list Retailer.t) (j : nat) : float :=
  match retailers !! j with
  | Some r => distance_from supplier r
  | None => PrimFloat.zero
  end.

(** The stops, as indices into [retailers], are chosen greedily: each is
    the first nearest to the stop before it among those not visited. *)
Fixpoint greedy_from (retailers : list Retailer.t) (visited : list nat) (current : nat)
    (stops : list nat) : Prop :=
  match stops with
  | [] => True
  | s :: stops' =>
      first_nearest (leg retailers current) (fun j => j ∉ visited) (length retailers) s /\
      greedy_from retailers (visited ++ [s]) s stops'
  end.

(** The length of the tour supplier, stops in order, supplier: the legs
    added from left to right. *)
Fixpoint legs_between (stops : list Retailer.t) : list float :=
  match stops with
  | a :: (b :: _) as rest => distance_between a b :: legs_between rest
  | _ => []
  end.

Definition tour_length (supplier : Supplier.t) (stops : list Retailer.t) : float :=
  match stops, last stops with
  | first :: _, Some final =>
      (fold_left PrimFloat.add (legs_between stops) (distance_from supplier first)
       + distance_to supplier final)%float
  | _, _ => PrimFloat.zero
  end.

(** Every leg the optimizer compares is a number below [DBL_MAX]. *)
Definition legs_bounded (supplier : Supplier.t) (retailers : list Retailer.t) : Prop :=
  (forall r, r ∈ retailers -> PrimFloat.ltb (distance_from supplier r) DBL_MAX = true) /\
  (forall i j a b, i <> j -> retailers !! i = Some a -> retailers !! j = Some b ->
                   PrimFloat.ltb (distance_between a b) DBL_MAX = true).

(** The coordinates lie in the ranges of the data model: latitudes in
    [-90, 90], longitudes in [-180, 180]. *)
Definition placed (latitude longitude : float) : Prop :=
  between (-90) 90 latitude /\ between (-180) 180 longitude.

Definition all_placed (supplier : Supplier.t) (retailers : list Retailer.t) : Prop :=
  placed (Supplier.latitude supplier) (Supplier.longitude supplier) /\
  Forall (fun r => placed (Retailer.latitude r) (Retailer.longitude r)) retailers.

End Router.

(* ===================================================================== *)
(** ** The inventory allocator *)
(* ===================================================================== *)

(** The tables are [std::unordered_map<int, int>]. The order in which such
    a table is traversed is not fixed by the language; [map_fold] takes
    one. The sums below do not depend on it: the addition of [int]s is
    commutative and associative also when it wraps, and the sum of
    positive [int]s in [double] is exact in any order as long as it stays
    below [2 ^ 53]. *)
Module Allocator.

Import ProductionPlanningSystem.

(** [m[k]] read as a value: a missing key reads as [0]. *)
Definition at_key (m : gmap Z Z) (k : Z) : Z := default 0 (m !! k).

(** [retailerDemand[retailerId] += quantity] over the completed
    transactions of the product. ([transactionCount] is counted beside it
    and never read.) *)
Definition demand_step (productId : Z) (retailerDemand : gmap Z Z) (x : Transaction.t)
  : gmap Z Z :=
  if (Transaction.productId x =? productId) && String.eqb (Transaction.status x) "Completed"
  then <[Transaction.retailerId x :=
           int_add (at_key retailerDemand (Transaction.retailerId x)) (Transaction.quantity x)]>
         retailerDemand
  else retailerDemand.

Definition retailerDemand (productId : Z) (history : list Transaction.t) : gmap Z Z :=
  fold_left (demand_step productId) history ∅.

(** [int totalDemand = 0; for (pair : retailerDemand) totalDemand += pair.second] *)
Definition sum_ints (m : gmap Z Z) : Z := map_fold (fun _ v acc => int_add acc v) 0 m.

(** [double totalAllocation = 0;
     for (pair : optimalAllocation) totalAllocation += pair.second] *)
Definition sum_doubles (m : gmap Z Z) : float :=
  map_fold (fun _ v acc => (acc + double_of_int v)%float) 0%float m.

(** [totalStock / retailers.size()]: the stock is converted to [size_t],
    the quotient back to [int]. *)
Definition equal_share (totalStock : Z) (n : nat) : Z :=
  wrap_int ((totalStock mod 2 ^ 64) / Z.of_nat n).

(** The first loop over the retailers: the share by demand (or the equal
    share), raised to the minimum of 10 units. *)
Definition allocation_of (totalStock totalDemand demand : Z) (n : nat) : Z :=
  let allocation :=
    if 0 <? totalDemand then
      let demandPercentage := (double_of_int demand / double_of_int totalDemand)%float in
      int_of_double (double_of_int totalStock * demandPercentage)
    else equal_share totalStock n in
  Z.max allocation 10.

Definition allocate_step (totalStock totalDemand : Z) (demands : gmap Z Z) (n : nat)
    (optimalAllocation : gmap Z Z) (retailer : Retailer.t) : gmap Z Z :=
  let retailerId := Retailer.id retailer in
  <[retailerId := allocation_of totalStock totalDemand (at_key demands retailerId) n]>
    optimalAllocation.

(** The table after the first loop. *)
Definition first_allocation (product : Product.t) (retailers : list Retailer.t)
    (history : list Transaction.t) : gmap Z Z :=
  let demands := retailerDemand (Product.id product) history in
  let totalStock := Product.stock product in
  let totalDemand := sum_ints demands in
  fold_left (allocate_step totalStock totalDemand demands (length retailers)) retailers ∅.

(** The adjustment: when the allocations add up to more than the stock,
    each one is multiplied by [totalStock / totalAllocation]. *)
Definition adjust (totalStock : Z) (optimalAllocation : gmap Z Z) : gmap Z Z :=
  let totalAllocation := sum_doubles optimalAllocation in
  if PrimFloat.ltb (double_of_int totalStock) totalAllocation then
    let adjustmentFactor := (double_of_int totalStock / totalAllocation)%float in
    (fun v => int_of_double (double_of_int v * adjustmentFactor)) <$> optimalAllocation
  else optimalAllocation.

(** The final allocation table. *)
Definition allocate (product : Product.t) (retailers : list Retailer.t)
    (history : list Transaction.t) : gmap Z Z :=
  adjust (Product.stock product) (first_allocation product retailers history).

#[local] Set Warnings "-inexact-float".

(** The loop of the cost analysis: the holding cost of an equal
    distribution and of the allocation table. *)
Definition holding_costs (product : Product.t) (retailers : list Retailer.t)
    (optimalAllocation : gmap Z Z) : float * float :=
  let holdingCost := (Product.price product * 0.2)%float in
  let equalAllocation := equal_share (Product.stock product) (length retailers) in
  fold_left
    (fun costs retailer =>
       ((costs.1 + double_of_int equalAllocation * holdingCost)%float,
        (costs.2 + double_of_int (at_key optimalAllocation (Retailer.id retailer))
                   * holdingCost)%float))
    retailers (0%float, 0%float).

(** What the allocator displays: the final table and the cost analysis. *)
Record Advice : Type := mkAdvice {
  advice_allocation : gmap Z Z;
  advice_currentHoldingCost : float;
  advice_optimizedHoldingCost : float;
  advice_savings : float
}.

(** [optimizeInventory]; [productId] and [implement] are what the operator
    enters, [show] writes a [double] as [operator<<] does. *)
Definition optimizeInventory (show : float -> string) (productId : Z) (implement : ascii)
    (sys : t) : M (Shown Advice * t) :=
  if ((length (products sys) =? 0)%nat || (length (retailers sys) =? 0)%nat)%bool then
    ret (mkShown None
                 (Some (runtime_error "Need products and retailers to optimize inventory")),
         sys)
  else
    match findProduct productId sys with
    | None => ret (mkShown None (Some (runtime_error "Product not found")), sys)
    | Some (_, product) =>
        let totalStock := Product.stock product in
        let optimalAllocation := allocate product (retailers sys) (transactions sys) in
        let costs := holding_costs product (retailers sys) optimalAllocation in
        let savings := (costs.1 - costs.2)%float in
        let advice := mkAdvice optimalAllocation costs.1 costs.2 savings in
        if (Ascii.eqb implement "y" || Ascii.eqb implement "Y")%bool then
          let blockData :=
            ("Inventory Optimization | Product: " ++ string_of_int (Product.id product)
             ++ " | Total Stock: " ++ string_of_int totalStock
             ++ " | Optimization Savings: " ++ show savings)%string in
          r <- Blockchain.addBlock blockData (blockchain sys) ;;
          match r with
          | Throw e => ret (mkShown (Some advice) (Some e), sys)
          | Ok chain => ret (mkShown (Some advice) None, set_blockchain chain sys)
          end
        else ret (mkShown (Some advice) None, sys)
    end.

(** *** What the claim says of the result *)

(** The sum of the values of a table, as an integer. *)
Definition sum_values (m : gmap Z Z) : Z := map_fold (fun _ v acc => acc + v) 0 m.

End Allocator.

(* ===================================================================== *)
(** ** Sample data *)
(* ===================================================================== *)

(** A world whose [rand()] yields 3, 10, 17, ... and whose clock stands
    still. *)
Definition sample_world : World :=
  mkWorld (fun n => Z.of_nat (7 * n + 3)) 0 (fun _ => "20250101:10:00") 0.

(** The fresh ledger of [sample_world]. *)
Definition sample_ledger : list Block.t :=
  Eval vm_compute in fst (Blockchain.new sample_world).

#[local] Set Warnings "-inexact-float".

(** One product, one supplier carrying it, one retailer and one transporter,
    with the figures of the program's own sample data, the default price
    ceiling of 4000 and the fresh ledger. *)
Definition sample_system : ProductionPlanningSystem.t :=
  ProductionPlanningSystem.mk
    [Product.mk 1 "Rice" 5.5 1000]
    [Supplier.mk 1 "Malayan Agro" "Kuala Lumpur" "Federal Territory" 3.168 101.708 [1; 2]]
    [Retailer.mk 1 "SuperMart" "Bukit Bintang" 3.148 101.698 10000 100000 []]
    [Transporter.mk 1 "FastTruck" "Ordinary Ground Transfer" 2.5 2000]
    [] [PriceThresholdContract 4000] sample_ledger 2 2 2 2 1.

(** The same system with another stock of rice and another value of the
    transaction counter. *)
Definition sample_system_with (stock nextTransactionId : Z) : ProductionPlanningSystem.t :=
  ProductionPlanningSystem.mk
    [Product.mk 1 "Rice" 5.5 stock]
    (ProductionPlanningSystem.suppliers sample_system)
    (ProductionPlanningSystem.retailers sample_system)
    (ProductionPlanningSystem.transporters sample_system)
    [] [PriceThresholdContract 4000] sample_ledger 2 2 2 2 nextTransactionId.

(** A retailer with the given id. *)
Definition sample_shop (id : Z) : Retailer.t :=
  Retailer.mk id "Shop" "Shah Alam" 3 101 5000 50000 [].

(** [std::stod] on the texts of integers, enough to read sample files. *)
Definition stod_integer (s : string) : result float :=
  (try! z := stoi s in Ok (double_of_int z))%result.

(** A fresh ledger after 2147483647 appends. *)
Definition long_ledger : result (list Block.t) * World :=
  (chain <- Blockchain.new ;; Blockchain.addBlocks (Z.to_nat 2147483647) "x" chain)
    sample_world.

(** The fresh ledger of [sample_world] after one append. *)
Definition sample_chain : list Block.t :=
  Eval vm_compute in
    match fst (Blockchain.addBlock "Added Product | Product ID: 1 | Name: Rice"
                                   sample_ledger sample_world) with
    | Ok chain => chain
    | Throw _ => []
    end.

(** [sample_system] with the ledger a failed restore leaves behind, and
    with a price that is not a number. *)
Definition stranded_system : ProductionPlanningSystem.t :=
  ProductionPlanningSystem.set_blockchain [] sample_system.

Definition unpriced_system : ProductionPlanningSystem.t :=
  ProductionPlanningSystem.set_products [Product.mk 1 "Rice" PrimFloat.nan 1000] sample_system.

(** Three retailers in the Klang Valley, listed from west to east, and
    their supplier. *)
Definition route_supplier : Supplier.t :=
  Supplier.mk 1 "Malayan Agro" "Kuala Lumpur" "Federal Territory" 3.168 101.708 [1; 2].

Definition route_system : ProductionPlanningSystem.t :=
  ProductionPlanningSystem.mk
    (ProductionPlanningSystem.products sample_system)
    [route_supplier]
    [Retailer.mk 3 "QuickMart" "Shah Alam" 3.073 101.518 5000 50000 [];
     Retailer.mk 1 "SuperMart" "Bukit Bintang" 3.148 101.698 10000 100000 [];
     Retailer.mk 2 "FreshMart" "Petaling Jaya" 3.107 101.607 8000 80000 []]
    (ProductionPlanningSystem.transporters sample_system)
    [] [PriceThresholdContract 4000] sample_ledger 2 2 4 2 1.

(** A completed order of the rice by a retailer. *)
Definition completed_order (id retailerId quantity : Z) : Transaction.t :=
  Transaction.mk id 1 retailerId 1 1 quantity 0 0 0 "20250101:10:00" "Completed" "Regular".

(** The system a failed restore leaves behind: the stores cleared, the
    ledger without a block, the counters as the sample data left them. *)
Definition cleared_system : ProductionPlanningSystem.t :=
  ProductionPlanningSystem.mk [] [] [] [] [] [PriceThresholdContract 4000] [] 4 3 4 3 1.

(** A supplier and two retailers added to it. *)
Definition twin_supplier : Supplier.t :=
  Supplier.mk 3 "Farm" "Kuala Lumpur" "Federal Territory" 0 0 [].

Definition north_shop : Retailer.t := Retailer.mk 4 "North" "Rawang" 1 0 5000 50000 [].
Definition east_shop : Retailer.t := Retailer.mk 4 "East" "Bentong" 0 2 5000 50000 [].

Definition twin_system : ProductionPlanningSystem.t :=
  let sys := cleared_system in
  let sys := snd (fst (ProductionPlanningSystem.addSupplier
                         "Farm" "Kuala Lumpur" "Federal Territory" 0 0 sys sample_world)) in
  let sys := snd (fst (ProductionPlanningSystem.addRetailer
                         "North" "Rawang" 1 0 5000 50000 sys sample_world)) in
  snd (fst (ProductionPlanningSystem.addRetailer
              "East" "Bentong" 0 2 5000 50000 sys sample_world)).

(** A product and three retailers added to the system a failed restore
    leaves behind. *)
Definition crowded_system : ProductionPlanningSystem.t :=
  let sys := cleared_system in
  let sys := snd (fst (ProductionPlanningSystem.addProduct "Rice" 5.5 25 sys sample_world)) in
  let sys := snd (fst (ProductionPlanningSystem.addRetailer
                         "North" "Rawang" 1 0 5000 50000 sys sample_world)) in
  let sys := snd (fst (ProductionPlanningSystem.addRetailer
                         "East" "Bentong" 0 2 5000 50000 sys sample_world)) in
  snd (fst (ProductionPlanningSystem.addRetailer
              "South" "Seremban" (-1) 0 5000 50000 sys sample_world)).

(* ===================================================================== *)
(** ** The ledger *)
(* ===================================================================== *)

Import Blockchain ProductionPlanningSystem.

Lemma wrap_int_id z : in_int z -> wrap_int z = z.
Proof. unfold in_int, wrap_int, INT_MIN, INT_MAX. intros H. rewrite Z.mod_small; lia. Qed.

Lemma wrap_int_range z : in_int (wrap_int z).
Proof.
  unfold in_int, wrap_int, INT_MIN, INT_MAX.
  pose proof (Z.mod_pos_bound (z + 2147483648) 4294967296 ltac:(lia)). lia.
Qed.

Lemma Block_new_spec n p d w :
  exists h ts w', Block.new n p d w = (Block.mk n h p ts d, w').
Proof.
  unfold Block.new, bind, ret.
  destruct (getCurrentTimestamp w) as [ts w1].
  destruct (generateHash w1) as [h w']. exists h, ts, w'. reflexivity.
Qed.

Lemma linked_cons_iff prev rest :
  linked (prev :: rest) <->
  match rest with
  | [] => True
  | b :: _ => Block.previousHash b = Block.currentHash prev /\ linked rest
  end.
Proof.
  destruct rest as [|b rest]; split.
  - done.
  - intros _ i x y Hi Hx. destruct i as [|[|i]]; [lia| |]; simpl in Hx; discriminate.
  - intros H. split.
    + apply (H 1%nat); [lia|done|done].
    + intros i x y Hi Hx Hy. apply (H (S i)); [lia|done|].
      destruct i; [lia|]. simpl in *. by rewrite Nat.sub_0_r in Hy.
  - intros [H1 H2] i x y Hi Hx Hy.
    destruct i as [|[|i]]; [lia| |].
    + simpl in *. congruence.
    + apply (H2 (S i)); [lia|done|]. simpl in *. by rewrite Nat.sub_0_r.
Qed.

Lemma isChainValid_from_linked prev rest :
  Blockchain.isChainValid_from prev rest = true <-> linked (prev :: rest).
Proof.
  revert prev. induction rest as [|b rest IH]; intros prev.
  - rewrite linked_cons_iff. done.
  - rewrite linked_cons_iff. simpl.
    destruct (String.eqb_spec (Block.previousHash b) (Block.currentHash prev)) as [E|E]; simpl.
    + rewrite IH. tauto.
    + split; [done|]. tauto.
Qed.

Lemma isChainValid_linked chain :
  Blockchain.isChainValid chain = true <-> linked chain.
Proof.
  destruct chain as [|b rest].
  - split; [|done]. intros _ i x y _ Hx. by rewrite lookup_nil in Hx.
  - apply isChainValid_from_linked.
Qed.

Lemma linked_snoc chain latest b :
  linked chain -> last chain = Some latest ->
  Block.previousHash b = Block.currentHash latest ->
  linked (chain ++ [b]).
Proof.
  intros HL Hlast Hb i x y Hi Hx Hy.
  assert (Hlen : (0 < length chain)%nat).
  { destruct chain; [discriminate|simpl; lia]. }
  rewrite last_lookup in Hlast.
  destruct (decide (i < length chain)%nat) as [Hlt|Hge].
  - rewrite lookup_app_l in Hx by done. rewrite lookup_app_l in Hy by lia. eauto.
  - assert (i = length chain) as ->.
    { apply lookup_lt_Some in Hx. rewrite length_app in Hx. simpl in Hx. lia. }
    rewrite lookup_app_r in Hx by lia. rewrite Nat.sub_diag in Hx. simpl in Hx.
    rewrite lookup_app_l in Hy by lia.
    replace (length chain - 1)%nat with (pred (length chain)) in Hy by lia.
    congruence.
Qed.

Lemma new_spec w :
  exists gh h ts w', Blockchain.new w = ([Block.mk 0 h gh ts "Genesis Block"], w').
Proof.
  unfold Blockchain.new, Blockchain.createGenesisBlock, bind, ret.
  destruct (generateHash w) as [gh w1].
  destruct (Block_new_spec 0 gh "Genesis Block" w1) as (h & ts & w' & ->).
  exists gh, h, ts, w'. reflexivity.
Qed.

Lemma addBlock_spec chain latest blockData w :
  last chain = Some latest ->
  exists h ts w',
    Blockchain.addBlock blockData chain w =
      (Ok (chain ++ [Block.mk (int_add (Block.blockNumber latest) 1) h
                              (Block.currentHash latest) ts blockData]), w').
Proof.
  intros Hlast. unfold Blockchain.addBlock, Blockchain.getLatestBlock, bind, ret.
  rewrite Hlast.
  destruct (Block_new_spec (int_add (Block.blockNumber latest) 1)
              (Block.currentHash latest) blockData w) as (h & ts & w' & ->).
  exists h, ts, w'. reflexivity.
Qed.

Lemma addBlock_empty blockData w :
  Blockchain.addBlock blockData [] w = (Throw (runtime_error "Blockchain is empty"), w).
Proof. reflexivity. Qed.

Lemma last_is_Some {A} (l : list A) : l <> [] -> exists x, last l = Some x.
Proof.
  intros H. destruct (last l) eqn:E; [eauto|]. apply last_None in E. done.
Qed.

Lemma produced_inv chain :
  produced chain -> chain <> [] /\ linked chain /\ numbered chain.
Proof.
  induction 1 as [w chain w' Hnew | chain d w chain' w' Hp (Hne & Hl & Hn) Hadd].
  - destruct (new_spec w) as (gh & h & ts & w1 & E). rewrite E in Hnew.
    injection Hnew as <- <-. split; [done|]. split.
    + apply isChainValid_linked. reflexivity.
    + constructor; [|constructor]. simpl. unfold in_int, INT_MIN, INT_MAX. lia.
  - destruct (last_is_Some chain Hne) as [latest Hlast].
    destruct (addBlock_spec chain latest d w Hlast) as (h & ts & w1 & E).
    rewrite E in Hadd. injection Hadd as <- <-.
    split; [by destruct chain|]. split.
    + by eapply linked_snoc.
    + apply Forall_app. split; [done|]. constructor; [|constructor].
      simpl. apply wrap_int_range.
Qed.

Lemma wrap_int_add_l a b : wrap_int (wrap_int a + b) = wrap_int (a + b).
Proof.
  unfold wrap_int. f_equal.
  replace ((a + 2147483648) mod 4294967296 - 2147483648 + b + 2147483648)
    with ((a + 2147483648) mod 4294967296 + b) by lia.
  rewrite Zplus_mod_idemp_l. f_equal. lia.
Qed.

Lemma last_snoc_eq {A} (l : list A) x : last (l ++ [x]) = Some x.
Proof. apply last_snoc. Qed.

Lemma addBlocks_spec n blockData :
  forall (chain : list Block.t) latest w,
    produced chain -> last chain = Some latest ->
    exists chain' latest' w',
      Blockchain.addBlocks n blockData chain w = (Ok chain', w') /\
      produced chain' /\ last chain' = Some latest' /\
      Block.blockNumber latest' = wrap_int (Block.blockNumber latest + Z.of_nat n).
Proof.
  induction n as [|n IH]; intros chain latest w Hp Hlast.
  - exists chain, latest, w. repeat split; try done.
    rewrite Z.add_0_r. symmetry. apply wrap_int_id.
    destruct (produced_inv chain Hp) as (_ & _ & Hn).
    unfold numbered in Hn. rewrite Forall_forall in Hn. apply Hn.
    rewrite last_lookup in Hlast. by eapply list_elem_of_lookup_2.
  - destruct (addBlock_spec chain latest blockData w Hlast) as (h & ts & w1 & E).
    pose proof (produced_addBlock _ _ _ _ _ Hp E) as Hp'.
    destruct (IH _ _ w1 Hp' (last_snoc_eq _ _)) as (chain' & latest' & w' & E' & Hp'' & Hl' & Hnum).
    exists chain', latest', w'. repeat split; try done.
    + cbn [Blockchain.addBlocks]. unfold bind at 1. rewrite E. exact E'.
    + rewrite Hnum. cbn [Block.blockNumber]. unfold int_add. rewrite wrap_int_add_l.
      f_equal. lia.
Qed.

(** C5 (amended). [isChainValid] returns [true] exactly when every block
    after the first names the hash of the block before it, which is so for
    every chain of at most one block; every ledger produced from a freshly
    constructed one by [addBlock] is linked in this way, and each appended
    block names the hash of the last block and carries its sequence number
    plus one as long as that number is below [INT_MAX]. *)
Theorem ledger_chain_linkage :
  (forall chain : list Block.t, Blockchain.isChainValid chain = true <-> linked chain) /\
  (forall chain : list Block.t, (length chain <= 1)%nat -> Blockchain.isChainValid chain = true) /\
  (forall chain : list Block.t, produced chain ->
     Blockchain.isChainValid chain = true /\
     forall blockData w, exists latest newBlock w',
       last chain = Some latest /\
       Blockchain.addBlock blockData chain w = (Ok (chain ++ [newBlock]), w') /\
       Block.previousHash newBlock = Block.currentHash latest /\
       (Block.blockNumber latest < INT_MAX ->
        Block.blockNumber newBlock = Block.blockNumber latest + 1)).
Proof.
  split; [exact isChainValid_linked|]. split.
  - intros [|b [|c rest]] Hlen; [done|done|simpl in Hlen; lia].
  - intros chain Hp. destruct (produced_inv chain Hp) as (Hne & Hl & Hn).
    split; [by apply isChainValid_linked|].
    intros blockData w. destruct (last_is_Some chain Hne) as [latest Hlast].
    destruct (addBlock_spec chain latest blockData w Hlast) as (h & ts & w' & E).
    eexists latest, _, w'. split; [done|]. split; [exact E|]. split; [done|].
    intros Hlt. cbn [Block.blockNumber]. unfold int_add. apply wrap_int_id.
    assert (in_int (Block.blockNumber latest)) as Hin.
    { unfold numbered in Hn. rewrite Forall_forall in Hn. apply Hn.
      rewrite last_lookup in Hlast. by eapply list_elem_of_lookup_2. }
    unfold in_int, INT_MIN, INT_MAX in *. lia.
Qed.

(** C5, counterexample. After 2147483647 appends to a fresh ledger the last
    block has sequence number [INT_MAX]; the block the next append adds has
    sequence number [INT_MIN], not [INT_MAX + 1]. *)
Lemma ledger_sequence_number_wraps :
  exists (chain : list Block.t) w latest newBlock w',
    long_ledger = (Ok chain, w) /\ produced chain /\ last chain = Some latest /\
    Blockchain.addBlock "x" chain w = (Ok (chain ++ [newBlock]), w') /\
    Block.blockNumber latest = 2147483647 /\
    Block.blockNumber newBlock = -2147483648.
Proof.
  unfold long_ledger.
  destruct (new_spec sample_world) as (gh & h & ts & w1 & Enew).
  assert (Hp : produced [Block.mk 0 h gh ts "Genesis Block"]) by (eapply produced_new; exact Enew).
  destruct (addBlocks_spec (Z.to_nat 2147483647) "x" _ _ w1 Hp eq_refl)
    as (chain & latest & w & E & Hp' & Hlast & Hnum).
  destruct (addBlock_spec chain latest "x" w Hlast) as (h' & ts' & w' & E').
  exists chain, w, latest. eexists. exists w'.
  split. { unfold bind at 1. rewrite Enew. exact E. }
  split; [exact Hp'|]. split; [exact Hlast|]. split; [exact E'|].
  assert (Block.blockNumber latest = 2147483647) as Hl.
  { rewrite Hnum. cbn [Block.blockNumber]. rewrite Z2Nat.id by lia. reflexivity. }
  split; [exact Hl|]. cbn [Block.blockNumber]. rewrite Hl. reflexivity.
Qed.

(** C5, witness: the first append to the fresh ledger of [sample_world]. *)
Lemma ledger_chain_linkage_witness :
  produced sample_ledger /\ Blockchain.isChainValid sample_ledger = true /\
  exists newBlock w',
    Blockchain.addBlock "x" sample_ledger sample_world = (Ok (sample_ledger ++ [newBlock]), w') /\
    Block.blockNumber newBlock = 1.
Proof.
  assert (Hp : produced sample_ledger).
  { apply (produced_new sample_world sample_ledger (snd (Blockchain.new sample_world))).
    vm_compute. reflexivity. }
  destruct (proj2 (proj2 ledger_chain_linkage) sample_ledger Hp) as [Hv Hadd].
  split; [exact Hp|]. split; [exact Hv|].
  destruct (Hadd "x" sample_world) as (latest & newBlock & w' & Hlast & E & _ & Hnum).
  exists newBlock, w'. split; [exact E|].
  vm_compute in Hlast. injection Hlast as <-. apply Hnum. reflexivity.
Defined.

Lemma load_lines_app {A} (d : string -> M (result A)) label xs ys :
  forall store cerr w,
    load_lines d label (xs ++ ys) store cerr w =
      (let '((store1, cerr1), w1) := load_lines d label xs store cerr w in
       load_lines d label ys store1 cerr1 w1).
Proof.
  induction xs as [|x xs IH]; intros store cerr w.
  - reflexivity.
  - cbn [app load_lines]. unfold bind.
    destruct (d x w) as [[a|e] w1]; apply IH.
Qed.

Lemma skips_malformed_intro {A} (d : string -> M (result A)) label msg required :
  (forall bad w, (length (split "|" bad) < required)%nat ->
                 d bad w = (Throw (runtime_error msg), w)) ->
  skips_malformed d label msg required.
Proof.
  intros Hd pre bad post store cerr w Hbad.
  rewrite load_lines_app.
  destruct (load_lines d label pre store cerr w) as [[store1 cerr1] w1].
  cbn [load_lines]. unfold bind. rewrite (Hd bad w1 Hbad). reflexivity.
Qed.

Ltac short_line :=
  let H := fresh in
  intros ? ? H; apply Nat.ltb_lt in H; unfold ret;
  unfold Product.deserialize, Supplier.deserialize, Retailer.deserialize,
    Transporter.deserialize, Transaction.deserialize;
  cbv zeta; unfold ret; rewrite H; reflexivity.

(** C8 (amended). For product, supplier, retailer, transporter and
    transaction records a line with fewer fields than required is skipped
    with one warning on the error stream, and the lines before and after it
    are loaded as if it were not there. For blocks the first such line ends
    the restore: [loadFromFile] returns [false] and reads no later line. *)
Theorem malformed_lines (stod : string -> result float) :
  skips_malformed (fun line => ret (Product.deserialize stod line))
    "Error deserializing product: " "Invalid product data format" 4 /\
  skips_malformed (fun line => ret (Supplier.deserialize stod line))
    "Error deserializing supplier: " "Invalid supplier data format" 6 /\
  skips_malformed (fun line => ret (Retailer.deserialize stod line))
    "Error deserializing retailer: " "Invalid retailer data format" 7 /\
  skips_malformed (fun line => ret (Transporter.deserialize stod line))
    "Error deserializing transporter: " "Invalid transporter data format" 5 /\
  skips_malformed (Transaction.deserialize stod)
    "Error deserializing transaction: " "Invalid transaction data format" 12 /\
  (forall (pre : list string) (bad : string) (post : list string) chain w,
     (length (split "|" bad) < 5)%nat ->
     Blockchain.loadFromFile (Some (pre ++ bad :: post)) chain w =
       Blockchain.loadFromFile (Some (pre ++ [bad])) chain w /\
     fst (fst (Blockchain.loadFromFile (Some (pre ++ bad :: post)) chain w)) = false).
Proof.
  do 5 (split; [apply skips_malformed_intro; short_line|]).
  intros pre bad post chain w H. apply Nat.ltb_lt in H. split.
  all: unfold Blockchain.loadFromFile; generalize (@nil Block.t) as acc; revert w.
  all: induction pre as [|line pre IH]; intros w acc;
       cbn [app Blockchain.loadFromFile_lines]; unfold bind.
  - unfold Block.deserialize. rewrite H. reflexivity.
  - destruct (Block.deserialize line w) as [[b|e] w1]; [apply IH|reflexivity].
  - unfold Block.deserialize. rewrite H. reflexivity.
  - destruct (Block.deserialize line w) as [[b|e] w1]; [apply IH|reflexivity].
Qed.

(** C8, counterexample. A ledger file whose second line has two fields:
    the first and third lines are well formed, yet the restore reports
    failure and the third block is not loaded. *)
Lemma malformed_block_line_aborts_restore :
  is_ok (fst (Block.deserialize "1|h1|h0|t1|first" sample_world)) = true /\
  is_ok (fst (Block.deserialize "3|h3|h2|t3|third" sample_world)) = true /\
  (length (split "|" "2|h2") < 5)%nat /\
  fst (Blockchain.loadFromFile
         (Some ["1|h1|h0|t1|first"; "2|h2"; "3|h3|h2|t3|third"]%string) [] sample_world)
  = (false, [Block.mk 1 "h1" "h0" "t1" "first"]).
Proof. vm_compute. repeat split; lia. Qed.

(** C8, witness: a product file whose second line has two fields. *)
Lemma malformed_lines_witness :
  fst (loadData_products stod_integer
         ["1|Rice|5|1000"; "2|Vegetables"; "3|Fruits|4|600"]%string [] [] sample_world)
  = ([Product.mk 1 "Rice" 5%float 1000; Product.mk 3 "Fruits" 4%float 600],
     ["Error deserializing product: Invalid product data format"%string]).
Proof.
  unfold loadData_products.
  refine (eq_trans (f_equal fst
            (proj1 (malformed_lines stod_integer) ["1|Rice|5|1000"%string]
               "2|Vegetables"%string ["3|Fruits|4|600"%string] [] [] sample_world _)) _).
  - vm_compute. lia.
  - vm_compute. reflexivity.
Defined.

(** C7 (code at the failing input). A freshly constructed ledger is one
    genesis block with sequence number 0, and so is a ledger restored from
    an empty source; but a restore from a source whose first line is
    malformed returns with a ledger of no block at all: the handler returns
    before the empty chain is given its genesis block. *)
Theorem restore_leaves_ledger_empty :
  (forall w, exists genesis w',
      Blockchain.new w = ([genesis], w') /\ Block.blockNumber genesis = 0) /\
  (forall (chain : list Block.t) w, exists genesis w',
      Blockchain.loadFromFile (Some []) chain w = ((true, [genesis]), w') /\
      Block.blockNumber genesis = 0) /\
  (forall (chain : list Block.t) rest w,
      Blockchain.loadFromFile (Some ("garbage" :: rest)) chain w = ((false, []), w)).
Proof.
  split; [|split].
  - intros w. destruct (new_spec w) as (gh & h & ts & w' & E).
    exists (Block.mk 0 h gh ts "Genesis Block"), w'. split; [exact E|reflexivity].
  - intros chain w. unfold Blockchain.loadFromFile. cbn [Blockchain.loadFromFile_lines].
    unfold bind. cbn [length Nat.eqb].
    destruct (new_spec w) as (gh & h & ts & w' & E).
    unfold Blockchain.new in E. rewrite E.
    exists (Block.mk 0 h gh ts "Genesis Block"), w'. split; reflexivity.
  - intros chain rest w. reflexivity.
Qed.

(* ===================================================================== *)
(** ** The transaction pipeline *)
(* ===================================================================== *)

Section Pipeline.

Variables (supplierId retailerId productId transporterId quantity : Z) (orderType : string).
Variable sys : ProductionPlanningSystem.t.

Lemma approved_validate (transaction : Transaction.t) :
  forallb (fun contract => validate contract transaction) (contracts sys)
  = approved (contracts sys) (Transaction.totalCost transaction).
Proof.
  unfold approved. induction (contracts sys) as [|[m] cs IH]; [reflexivity|].
  simpl. by rewrite IH.
Qed.

Lemma createTransaction_try_unresolved w :
  resolve supplierId retailerId productId transporterId quantity sys = None ->
  exists e, createTransaction_try supplierId retailerId productId transporterId quantity
                                  orderType sys w = ((Throw e, sys), w).
Proof.
  unfold resolve, createTransaction_try.
  destruct (findSupplier supplierId sys) as [[si supplier]|]; [|eauto].
  destruct (findRetailer retailerId sys) as [[ri retailer]|]; [|eauto].
  destruct (findProduct productId sys) as [[pi product]|]; [|eauto].
  destruct (findTransporter transporterId sys) as [[ti transporter]|]; [|eauto].
  destruct (existsb _ _); simpl; [|eauto].
  destruct (Product.hasEnoughStock quantity product); simpl; [discriminate|eauto].
Qed.

Lemma createTransaction_try_resolved supplier ri retailer pi product transporter w :
  resolve supplierId retailerId productId transporterId quantity sys
    = Some (supplier, (ri, retailer), (pi, product), transporter) ->
  exists ts w1,
    getCurrentTimestamp w = (ts, w1) /\
    createTransaction_try supplierId retailerId productId transporterId quantity orderType sys w
    = (let '(prefix, transaction, sys1) :=
         settle sys ri retailer pi product
           (costed sys supplierId retailerId productId transporterId quantity orderType ts
                   supplier retailer product transporter) in
       record_transaction prefix transaction sys1 w1).
Proof.
  unfold resolve, createTransaction_try.
  destruct (findSupplier supplierId sys) as [[si supplier']|]; [|discriminate].
  destruct (findRetailer retailerId sys) as [[ri' retailer']|]; [|discriminate].
  destruct (findProduct productId sys) as [[pi' product']|]; [|discriminate].
  destruct (findTransporter transporterId sys) as [[ti transporter']|]; [|discriminate].
  destruct (existsb _ _); simpl; [|discriminate].
  destruct (Product.hasEnoughStock quantity product'); simpl; [|discriminate].
  intros [= -> -> -> -> -> ->].
  destruct (getCurrentTimestamp w) as [ts w1] eqn:Ets. exists ts, w1. split; [reflexivity|].
  unfold bind at 1, Transaction.new, bind, ret. rewrite Ets.
  rewrite approved_validate. unfold settle.
  cbn [Transaction.totalCost Transaction.setProductCost Transaction.setTransportCost
       Transaction.calculateTotalCost Transaction.setOrderType costed
       Transaction.productCost Transaction.transportCost Transaction.quantity].
  destruct (approved _ _); cbn [negb]; [|reflexivity].
  unfold Retailer.deductCredit.
  destruct (PrimFloat.leb _ _); cbn [negb snd]; reflexivity.
Qed.

Lemma record_transaction_empty prefix transaction (s : ProductionPlanningSystem.t) w :
  blockchain s = [] ->
  record_transaction prefix transaction s w
  = ((Throw (runtime_error "Blockchain is empty"),
      set_transactions (transactions s ++ [transaction]) s), w).
Proof.
  intros E. unfold record_transaction, bind. cbn [blockchain set_transactions].
  rewrite E. reflexivity.
Qed.

Lemma record_transaction_append prefix transaction (s : ProductionPlanningSystem.t) latest w :
  last (blockchain s) = Some latest ->
  exists h ts w',
    record_transaction prefix transaction s w
    = ((Ok (nextTransactionId s),
        set_nextTransactionId (int_add (nextTransactionId s) 1)
          (set_blockchain
             (blockchain s ++ [Block.mk (int_add (Block.blockNumber latest) 1) h
                                        (Block.currentHash latest) ts
                                        (prefix ++ Transaction.getBlockData transaction)%string])
             (set_transactions (transactions s ++ [transaction]) s))), w').
Proof.
  intros Hlast. unfold record_transaction, bind. cbn [blockchain set_transactions].
  destruct (addBlock_spec (blockchain s) latest
              (prefix ++ Transaction.getBlockData transaction)%string w Hlast)
    as (h & ts & w' & ->).
  exists h, ts, w'. reflexivity.
Qed.

Lemma settle_frame ri retailer pi product transaction prefix stored sys1 :
  settle sys ri retailer pi product transaction = (prefix, stored, sys1) ->
  transactions sys1 = transactions sys /\ blockchain sys1 = blockchain sys /\
  nextTransactionId sys1 = nextTransactionId sys /\ suppliers sys1 = suppliers sys /\
  transporters sys1 = transporters sys /\ contracts sys1 = contracts sys.
Proof.
  unfold settle.
  destruct (negb (approved _ _)); [intros [= <- <- <-]; done|].
  destruct (negb (PrimFloat.leb _ _)); intros [= <- <- <-]; done.
Qed.

(** What a call returns and leaves behind, by cases. *)
Lemma createTransaction_cases w :
  match resolve supplierId retailerId productId transporterId quantity sys with
  | None =>
      createTransaction supplierId retailerId productId transporterId quantity orderType sys w
      = ((-1, sys), w)
  | Some (supplier, (ri, retailer), (pi, product), transporter) =>
      exists ts prefix stored sys1 id sys' w',
        settle sys ri retailer pi product
          (costed sys supplierId retailerId productId transporterId quantity orderType ts
                  supplier retailer product transporter) = (prefix, stored, sys1) /\
        createTransaction supplierId retailerId productId transporterId quantity orderType sys w
        = ((id, sys'), w') /\
        transactions sys' = transactions sys ++ [stored] /\
        products sys' = products sys1 /\ retailers sys' = retailers sys1 /\
        suppliers sys' = suppliers sys /\ transporters sys' = transporters sys /\
        contracts sys' = contracts sys /\
        match last (blockchain sys) with
        | None =>
            id = -1 /\ blockchain sys' = [] /\ nextTransactionId sys' = nextTransactionId sys
        | Some latest =>
            id = nextTransactionId sys /\
            nextTransactionId sys' = int_add (nextTransactionId sys) 1 /\
            exists block,
              blockchain sys' = blockchain sys ++ [block] /\
              Block.previousHash block = Block.currentHash latest /\
              Block.blockNumber block = int_add (Block.blockNumber latest) 1 /\
              Block.data block = (prefix ++ Transaction.getBlockData stored)%string
        end
  end.
Proof.
  destruct (resolve _ _ _ _ _ _) as [[[[supplier [ri retailer]] [pi product]] transporter]|] eqn:R.
  - destruct (createTransaction_try_resolved _ _ _ _ _ _ w R) as (ts & w1 & _ & E).
    destruct (settle _ _ _ _ _ _) as [[prefix stored] sys1] eqn:S.
    destruct (settle_frame _ _ _ _ _ _ _ _ S) as (Ht & Hb & Hn & Hs & Htr & Hc).
    exists ts, prefix, stored, sys1. unfold createTransaction, bind. rewrite E.
    destruct (last (blockchain sys)) as [latest|] eqn:L.
    + rewrite <- Hb in L.
      destruct (record_transaction_append prefix stored sys1 latest w1 L) as (h & bts & w' & ->).
      eexists _, _, w'. split; [exact S|]. split; [reflexivity|].
      cbn. rewrite Ht, Hb, Hn. repeat split; try done. eexists. repeat split; done.
    + apply last_None in L. rewrite <- Hb in L.
      rewrite (record_transaction_empty prefix stored sys1 w1 L).
      eexists _, _, w1. split; [exact S|]. split; [reflexivity|].
      cbn. rewrite Ht. repeat split; done.
  - destruct (createTransaction_try_unresolved w R) as [e E].
    unfold createTransaction, bind. rewrite E. reflexivity.
Qed.

End Pipeline.

Lemma find_from_spec {A} (getId : A -> Z) id (l : list A) k i x :
  find_from getId id l k = Some (i, x) ->
  (k <= i)%nat /\ l !! (i - k)%nat = Some x /\ getId x = id.
Proof.
  revert k. induction l as [|y l IH]; intros k; [discriminate|].
  cbn [find_from]. destruct (Z.eqb_spec (getId y) id) as [E|E].
  - intros [= <- <-]. rewrite Nat.sub_diag. done.
  - intros H. destruct (IH _ H) as (Hk & Hl & Hid). split; [lia|]. split; [|done].
    replace (i - k)%nat with (S (i - S k)) by lia. done.
Qed.

Lemma find_by_id_lookup {A} (getId : A -> Z) id (l : list A) i x :
  find_by_id getId id l = Some (i, x) -> l !! i = Some x /\ getId x = id.
Proof.
  intros H. destruct (find_from_spec _ _ _ _ _ _ H) as (_ & Hl & Hid).
  by rewrite Nat.sub_0_r in Hl.
Qed.

Lemma resolve_Some_iff supplierId retailerId productId transporterId quantity sys
      supplier r p transporter :
  resolve supplierId retailerId productId transporterId quantity sys
    = Some (supplier, r, p, transporter) <->
  (exists si, findSupplier supplierId sys = Some (si, supplier)) /\
  findRetailer retailerId sys = Some r /\
  findProduct productId sys = Some p /\
  (exists ti, findTransporter transporterId sys = Some (ti, transporter)) /\
  In productId (Supplier.productIds supplier) /\
  quantity <= Product.stock (snd p).
Proof.
  unfold resolve.
  destruct (findSupplier supplierId sys) as [[si supplier']|];
    [|split; [discriminate|intros ([? ?] & _); discriminate]].
  destruct (findRetailer retailerId sys) as [r'|];
    [|split; [discriminate|intros (_ & ? & _); discriminate]].
  destruct (findProduct productId sys) as [[pi' product']|];
    [|split; [discriminate|intros (_ & _ & ? & _); discriminate]].
  destruct (findTransporter transporterId sys) as [[ti transporter']|];
    [|split; [discriminate|intros (_ & _ & _ & [? ?] & _); discriminate]].
  destruct (existsb _ _) eqn:Ex; cbn [andb].
  - apply existsb_exists in Ex. destruct Ex as (x & Hin & Hx). apply Z.eqb_eq in Hx. subst x.
    unfold Product.hasEnoughStock. destruct (Z.leb_spec quantity (Product.stock product')).
    + split.
      * intros [= <- <- <- <-]. cbn. eauto 10.
      * intros ([si' [= <- <-]] & [= <-] & [= <-] & [ti' [= <- <-]] & _). done.
    + split; [discriminate|].
      intros (_ & _ & [= <-] & _ & _ & Hq). cbn in Hq. lia.
  - split; [discriminate|].
    intros ([si' [= <- <-]] & _ & _ & _ & Hin & _).
    assert (existsb (fun id => id =? productId) (Supplier.productIds supplier') = true) as Hc.
    { apply existsb_exists. exists productId. split; [done|]. apply Z.eqb_refl. }
    congruence.
Qed.

Lemma resolve_None_iff supplierId retailerId productId transporterId quantity sys :
  resolve supplierId retailerId productId transporterId quantity sys = None <->
  findSupplier supplierId sys = None \/ findRetailer retailerId sys = None \/
  findProduct productId sys = None \/ findTransporter transporterId sys = None \/
  (exists si supplier, findSupplier supplierId sys = Some (si, supplier) /\
                       ~ In productId (Supplier.productIds supplier)) \/
  (exists pi product, findProduct productId sys = Some (pi, product) /\
                      Product.stock product < quantity).
Proof.
  split.
  - unfold resolve.
    destruct (findSupplier supplierId sys) as [[si supplier]|]; [|auto].
    destruct (findRetailer retailerId sys) as [r|]; [|auto].
    destruct (findProduct productId sys) as [[pi product]|]; [|auto].
    destruct (findTransporter transporterId sys) as [[ti transporter]|]; [|auto 10].
    destruct (existsb _ _) eqn:Ex; cbn [andb].
    + unfold Product.hasEnoughStock. destruct (Z.leb_spec quantity (Product.stock product));
        [discriminate|]. intros _. do 5 right. eauto.
    + intros _. do 4 right. left. exists si, supplier. split; [done|]. intros Hin.
      assert (existsb (fun id => id =? productId) (Supplier.productIds supplier) = true) as Hc.
      { apply existsb_exists. exists productId. split; [done|]. apply Z.eqb_refl. }
      congruence.
  - intros H.
    destruct (resolve _ _ _ _ _ _) as [[[[supplier r] p] transporter]|] eqn:R; [|done].
    apply resolve_Some_iff in R.
    destruct R as ([si Hs] & Hr & Hp & [ti Ht] & Hin & Hq).
    destruct H as [H|[H|[H|[H|[(si' & s' & H & Hn)|(pi' & p' & H & Hlt)]]]]]; try congruence.
    rewrite Hp in H. injection H as ->. cbn in Hq. lia.
Qed.

Lemma costed_totalCost sys supplierId retailerId productId transporterId quantity orderType ts
      supplier retailer product transporter :
  Transaction.totalCost
    (costed sys supplierId retailerId productId transporterId quantity orderType ts
            supplier retailer product transporter)
  = quote supplier retailer product transporter quantity.
Proof. reflexivity. Qed.

(** C2. A call in which one of the four ids is not found, or the supplier's
    product list does not contain the product, or the stock is less than
    the quantity returns -1 and leaves the whole system as it was: no
    transaction stored, no block appended, no entity changed. A call that
    passes these checks on a system with a non-empty ledger (the ledger
    invariant of the data model) and is then rejected by a contract or by
    the credit check stores a Failed transaction and appends one block,
    whose payload names the kind of failure; stock and credit stay as they
    were. *)
Theorem rejected_calls_leave_no_trace
    (supplierId retailerId productId transporterId quantity : Z) (orderType : string)
    (sys : ProductionPlanningSystem.t) (w : World) :
  (findSupplier supplierId sys = None \/ findRetailer retailerId sys = None \/
   findProduct productId sys = None \/ findTransporter transporterId sys = None \/
   (exists si supplier, findSupplier supplierId sys = Some (si, supplier) /\
                        ~ In productId (Supplier.productIds supplier)) \/
   (exists pi product, findProduct productId sys = Some (pi, product) /\
                       Product.stock product < quantity) ->
   createTransaction supplierId retailerId productId transporterId quantity orderType sys w
   = ((-1, sys), w)) /\
  (forall si supplier ri retailer pi product ti transporter,
     findSupplier supplierId sys = Some (si, supplier) ->
     findRetailer retailerId sys = Some (ri, retailer) ->
     findProduct productId sys = Some (pi, product) ->
     findTransporter transporterId sys = Some (ti, transporter) ->
     In productId (Supplier.productIds supplier) ->
     quantity <= Product.stock product ->
     blockchain sys <> [] ->
     let totalCost := quote supplier retailer product transporter quantity in
     approved (contracts sys) totalCost = false \/
     PrimFloat.leb totalCost (Retailer.creditBalance retailer) = false ->
     exists stored block sys' w',
       createTransaction supplierId retailerId productId transporterId quantity orderType sys w
       = ((nextTransactionId sys, sys'), w') /\
       transactions sys' = transactions sys ++ [stored] /\
       Transaction.status stored = "Failed"%string /\
       Transaction.id stored = nextTransactionId sys /\
       blockchain sys' = blockchain sys ++ [block] /\
       Block.data block
       = ((if approved (contracts sys) totalCost then "Failed Transaction (Credit) | "
           else "Failed Transaction | ") ++ Transaction.getBlockData stored)%string /\
       products sys' = products sys /\ retailers sys' = retailers sys).
Proof.
  split.
  - intros H. apply resolve_None_iff in H.
    pose proof (createTransaction_cases supplierId retailerId productId transporterId
                  quantity orderType sys w) as C.
    rewrite H in C. exact C.
  - intros si supplier ri retailer pi product ti transporter Hs Hr Hp Ht Hin Hq Hne totalCost Hrej.
    assert (R : resolve supplierId retailerId productId transporterId quantity sys
                = Some (supplier, (ri, retailer), (pi, product), transporter)).
    { apply resolve_Some_iff. cbn. eauto 10. }
    pose proof (createTransaction_cases supplierId retailerId productId transporterId
                  quantity orderType sys w) as C.
    rewrite R in C.
    destruct C as (ts & prefix & stored & sys1 & id & sys' & w' & S & E & Htx & Hpr & Hre & _ & _ & _ & L).
    destruct (last_is_Some _ Hne) as [latest Hlast]. rewrite Hlast in L.
    destruct L as (-> & _ & block & Hb & _ & _ & Hd).
    exists stored, block, sys', w'.
    unfold settle in S. rewrite costed_totalCost in S. fold totalCost in S.
    destruct (approved (contracts sys) totalCost) eqn:A; cbn [negb] in S.
    + destruct Hrej as [Hrej|Hrej]; [discriminate|]. rewrite Hrej in S. cbn [negb] in S.
      injection S as <- <- <-. repeat split; try done.
    + injection S as <- <- <-. repeat split; done.
Qed.

(** C3. [deductCredit] succeeds exactly when [amount <= creditBalance]; on
    success both balances are the old ones minus [amount] (the subtraction
    of doubles the code performs), on failure the retailer is unchanged.
    Every call of the pipeline either leaves all retailers unchanged (no
    transaction, or a Failed one) or stores a Completed transaction and
    lowers both balances of the retailer it found by that transaction's
    total cost. *)
Theorem credit_atomicity :
  (forall (amount : float) (r : Retailer.t),
     fst (Retailer.deductCredit amount r) = PrimFloat.leb amount (Retailer.creditBalance r) /\
     (fst (Retailer.deductCredit amount r) = true ->
      Retailer.creditBalance (snd (Retailer.deductCredit amount r))
      = (Retailer.creditBalance r - amount)%float /\
      Retailer.annualCreditBalance (snd (Retailer.deductCredit amount r))
      = (Retailer.annualCreditBalance r - amount)%float) /\
     (fst (Retailer.deductCredit amount r) = false -> snd (Retailer.deductCredit amount r) = r)) /\
  (forall supplierId retailerId productId transporterId quantity orderType
          (sys : ProductionPlanningSystem.t) w,
     let sys' := snd (fst (createTransaction supplierId retailerId productId transporterId
                                             quantity orderType sys w)) in
     (transactions sys' = transactions sys /\ retailers sys' = retailers sys) \/
     (exists stored,
         transactions sys' = transactions sys ++ [stored] /\
         Transaction.status stored = "Failed"%string /\ retailers sys' = retailers sys) \/
     (exists stored ri retailer,
         transactions sys' = transactions sys ++ [stored] /\
         Transaction.status stored = "Completed"%string /\
         findRetailer retailerId sys = Some (ri, retailer) /\
         retailers sys'
         = <[ri := Retailer.mk (Retailer.id retailer) (Retailer.name retailer)
                    (Retailer.location retailer) (Retailer.latitude retailer)
                    (Retailer.longitude retailer)
                    (Retailer.creditBalance retailer - Transaction.totalCost stored)%float
                    (Retailer.annualCreditBalance retailer - Transaction.totalCost stored)%float
                    (Retailer.productIds retailer)]> (retailers sys))).
Proof.
  split.
  - intros amount r. unfold Retailer.deductCredit.
    destruct (PrimFloat.leb amount (Retailer.creditBalance r)); cbn; repeat split; done.
  - intros supplierId retailerId productId transporterId quantity orderType sys w sys'.
    pose proof (createTransaction_cases supplierId retailerId productId transporterId
                  quantity orderType sys w) as C. subst sys'.
    destruct (resolve _ _ _ _ _ _) as [[[[supplier [ri retailer]] [pi product]] transporter]|] eqn:R.
    + destruct C as (ts & prefix & stored & sys1 & id & sys' & w' & S & E & Htx & Hpr & Hre & _).
      rewrite E. cbn [fst snd]. apply resolve_Some_iff in R. destruct R as (_ & Hr & _).
      unfold settle in S.
      destruct (approved _ _); cbn [negb] in S;
        [|injection S as <- <- <-; right; left; exists (Transaction.setStatus "Failed" (costed sys supplierId retailerId productId transporterId quantity orderType ts supplier retailer product transporter)); done].
      destruct (PrimFloat.leb _ _) eqn:Hleb; cbn [negb] in S;
        [|injection S as <- <- <-; right; left; eexists; done].
      injection S as <- <- <-. right. right. eexists _, ri, retailer.
      split; [exact Htx|]. split; [reflexivity|]. split; [exact Hr|].
      rewrite Hre. cbn [retailers set_products set_retailers].
      unfold Retailer.deductCredit. cbn [Transaction.totalCost costed] in Hleb.
      rewrite Hleb. reflexivity.
    + rewrite C. left. done.
Qed.

Lemma wrap_int_add_r a b : wrap_int (a + wrap_int b) = wrap_int (a + b).
Proof. rewrite Z.add_comm, wrap_int_add_l. f_equal. lia. Qed.

Lemma int_sub_exact stock quantity :
  quantity <= stock -> stock - quantity <= INT_MAX ->
  int_add stock (int_neg quantity) = stock - quantity.
Proof.
  intros Hq Hfit. unfold int_add, int_neg. rewrite wrap_int_add_r.
  replace (stock + - quantity) with (stock - quantity) by lia.
  apply wrap_int_id. unfold in_int, INT_MIN, INT_MAX in *. lia.
Qed.

Lemma app_singleton_ne {A} (l : list A) x : l <> l ++ [x].
Proof.
  intros H. apply (f_equal length) in H. rewrite length_app in H. simpl in H. lia.
Qed.

(** C4 (amended). When a call stores a transaction: if its status is
    Completed, the stock of the product found is updated by the int
    subtraction of the quantity, which is the stock before minus the
    quantity whenever that difference does not exceed [INT_MAX], and no
    other product changes; if its status is Failed no product changes. *)
Theorem stock_conservation
    (supplierId retailerId productId transporterId quantity : Z) (orderType : string)
    (sys : ProductionPlanningSystem.t) (w : World) :
  let sys' := snd (fst (createTransaction supplierId retailerId productId transporterId
                                          quantity orderType sys w)) in
  forall stored : Transaction.t,
    transactions sys' = transactions sys ++ [stored] ->
    (Transaction.status stored = "Completed"%string ->
     exists pi product,
       findProduct productId sys = Some (pi, product) /\
       products sys' = <[pi := Product.updateStock (int_neg quantity) product]> (products sys) /\
       (Product.stock product - quantity <= INT_MAX ->
        Product.stock <$> products sys' !! pi = Some (Product.stock product - quantity)) /\
       (forall j, j <> pi -> products sys' !! j = products sys !! j)) /\
    (Transaction.status stored = "Failed"%string -> products sys' = products sys).
Proof.
  intros sys' stored Hstored. subst sys'.
  pose proof (createTransaction_cases supplierId retailerId productId transporterId
                quantity orderType sys w) as C.
  destruct (resolve _ _ _ _ _ _) as [[[[supplier [ri retailer]] [pi product]] transporter]|] eqn:R.
  - destruct C as (ts & prefix & stored' & sys1 & id & sys' & w' & S & E & Htx & Hpr & _).
    rewrite E in Hstored |- *. cbn [fst snd] in Hstored |- *.
    rewrite Htx in Hstored. apply app_inj_tail in Hstored. destruct Hstored as [_ ->].
    apply resolve_Some_iff in R. destruct R as (_ & _ & Hp & _ & _ & Hq). cbn [snd] in Hq.
    unfold settle in S.
    destruct (negb (approved _ _));
      [injection S as <- <- <-; split; [discriminate|by rewrite Hpr]|].
    destruct (negb (PrimFloat.leb _ _));
      [injection S as <- <- <-; split; [discriminate|by rewrite Hpr]|].
    injection S as <- <- <-. split; [|discriminate]. intros _.
    exists pi, product. split; [exact Hp|]. rewrite Hpr. cbn [products set_products costed
      Transaction.quantity]. split; [reflexivity|]. split.
    + intros Hfit. destruct (find_by_id_lookup _ _ _ _ _ Hp) as [Hl _].
      rewrite list_lookup_insert_eq by (by eapply lookup_lt_Some).
      cbn. f_equal. by apply int_sub_exact.
    + intros j Hj. by rewrite list_lookup_insert_ne.
  - rewrite C in Hstored. cbn [fst snd] in Hstored. by apply app_singleton_ne in Hstored.
Qed.

Lemma call_preserves_nonneg c (sys : ProductionPlanningSystem.t) w :
  Forall (fun p => 0 <= Product.stock p) (products sys) ->
  (forall pi product,
      findProduct (call_product c) sys = Some (pi, product) ->
      Product.stock product - call_quantity c <= INT_MAX) ->
  Forall (fun p => 0 <= Product.stock p) (products (snd (fst (call c sys w)))).
Proof.
  intros Hnn Hfit. unfold call.
  pose proof (createTransaction_cases (call_supplier c) (call_retailer c) (call_product c)
                (call_transporter c) (call_quantity c) (call_orderType c) sys w) as C.
  destruct (resolve _ _ _ _ _ _) as [[[[supplier [ri retailer]] [pi product]] transporter]|] eqn:R.
  - destruct C as (ts & prefix & stored' & sys1 & id & sys' & w' & S & E & Htx & Hpr & _).
    rewrite E. cbn [fst snd]. rewrite Hpr.
    apply resolve_Some_iff in R. destruct R as (_ & _ & Hp & _ & _ & Hq). cbn [snd] in Hq.
    unfold settle in S.
    destruct (negb (approved _ _)); [by injection S as <- <- <-|].
    destruct (negb (PrimFloat.leb _ _)); [by injection S as <- <- <-|].
    injection S as <- <- <-. cbn [products set_products costed Transaction.quantity].
    apply Forall_insert; [exact Hnn|]. cbn.
    rewrite int_sub_exact; [lia|exact Hq|]. by eapply Hfit.
  - rewrite C. exact Hnn.
Qed.

Lemma run_cons c calls (sys : ProductionPlanningSystem.t) w :
  run (c :: calls) sys w
  = (let r := call c sys w in
     let rest := run calls (snd (fst r)) (snd r) in
     ((mkStep (constructs c sys) (fst (fst r)) (nextTransactionId sys)
              (nextTransactionId (snd (fst r))) :: fst (fst rest),
       snd (fst rest)), snd rest)).
Proof.
  cbn [run]. unfold bind, ret.
  destruct (call c sys w) as [[id sys1] w1]. cbn [fst snd].
  destruct (run calls sys1 w1) as [[steps sys2] w2]. reflexivity.
Qed.

(** C6 (amended). If every product has a non-negative stock, it still has
    one after every sequence of calls in which no call asks for a quantity
    that takes the stock of its product beyond [INT_MAX]. *)
Theorem stock_stays_nonnegative (calls : list Call) :
  forall (sys : ProductionPlanningSystem.t) (w : World),
    Forall (fun p => 0 <= Product.stock p) (products sys) ->
    stock_fits calls sys w ->
    Forall (fun p => 0 <= Product.stock p) (products (snd (fst (run calls sys w)))).
Proof.
  induction calls as [|c calls IH]; intros sys w Hnn Hfit.
  - exact Hnn.
  - rewrite run_cons. cbn [fst snd]. destruct Hfit as [Hc Hrest].
    apply IH; [|exact Hrest]. by apply call_preserves_nonneg.
Qed.

Lemma call_step c (sys : ProductionPlanningSystem.t) w :
  blockchain sys <> [] ->
  let r := fst (call c sys w) in
  blockchain (snd r) <> [] /\
  (if constructs c sys
   then fst r = nextTransactionId sys /\
        nextTransactionId (snd r) = int_add (nextTransactionId sys) 1
   else fst r = -1 /\ snd r = sys).
Proof.
  intros Hne r. subst r. unfold call, constructs.
  pose proof (createTransaction_cases (call_supplier c) (call_retailer c) (call_product c)
                (call_transporter c) (call_quantity c) (call_orderType c) sys w) as C.
  destruct (resolve _ _ _ _ _ _) as [[[[supplier [ri retailer]] [pi product]] transporter]|] eqn:R.
  - destruct C as (ts & prefix & stored' & sys1 & id & sys' & w' & S & E & _ & _ & _ & _ & _ & _ & L).
    rewrite E. cbn [fst snd]. destruct (last_is_Some _ Hne) as [latest Hlast].
    rewrite Hlast in L. destruct L as (-> & Hn & block & Hb & _). split; [|done].
    rewrite Hb. by destruct (blockchain sys).
  - rewrite C. done.
Qed.

Lemma run_spec (calls : list Call) :
  forall (sys : ProductionPlanningSystem.t) (w : World),
    blockchain sys <> [] -> in_int (nextTransactionId sys) ->
    let steps := fst (fst (run calls sys w)) in
    Forall step_ok steps /\
    (forall a, head (List.filter step_constructs steps) = Some a ->
               step_returned a = nextTransactionId sys) /\
    (forall i a b,
        List.filter step_constructs steps !! i = Some a ->
        List.filter step_constructs steps !! S i = Some b ->
        step_returned a < INT_MAX -> step_returned b = step_returned a + 1).
Proof.
  induction calls as [|c calls IH]; intros sys w Hne Hin steps; subst steps.
  - cbn. split; [constructor|]. split; [discriminate|]. intros i a b H. by rewrite lookup_nil in H.
  - rewrite run_cons. cbn [fst snd].
    destruct (call_step c sys w Hne) as [Hne' Hc].
    set (r := fst (call c sys w)) in *.
    assert (in_int (nextTransactionId (snd r))) as Hin'.
    { destruct (constructs c sys); destruct Hc as [_ Hc]; rewrite Hc; [apply wrap_int_range|done]. }
    destruct (IH (snd r) (snd (call c sys w)) Hne' Hin') as (Hok & Hhead & Hcons).
    set (steps := fst (fst (run calls (snd r) (snd (call c sys w))))) in *.
    split; [|split].
    + constructor; [|exact Hok]. unfold step_ok. cbn.
      destruct (constructs c sys).
      * destruct Hc as [Hid Hn]. split; [exact Hid|]. intros Hlt. rewrite Hn.
        unfold int_add. apply wrap_int_id. unfold in_int, INT_MIN, INT_MAX in *. lia.
      * destruct Hc as [Hid Hs]. by rewrite Hs.
    + cbn [List.filter step_constructs]. destruct (constructs c sys).
      * cbn. intros a [= <-]. cbn. by destruct Hc.
      * intros a Ha. rewrite (Hhead a Ha). destruct Hc as [_ Hs]. by rewrite Hs.
    + cbn [List.filter step_constructs]. destruct (constructs c sys); [|exact Hcons].
      intros [|i] a b Ha Hb Hlt.
      * cbn in Ha. injection Ha as <-. cbn in Hlt |- *. destruct Hc as [Hid Hn].
        assert (head (List.filter step_constructs steps) = Some b) as Hb'.
        { by destruct (List.filter step_constructs steps). }
        rewrite (Hhead b Hb'), Hn, Hid. unfold int_add. apply wrap_int_id.
        rewrite Hid in Hlt. unfold in_int, INT_MIN, INT_MAX in *. lia.
      * exact (Hcons i a b Ha Hb Hlt).
Qed.

(** C1 (amended). In every sequence of calls on a system with a non-empty
    ledger, a call that constructs a transaction returns the current value
    of the transaction counter and, when that value is below [INT_MAX],
    advances the counter by exactly 1; a call that fails the existence,
    product or stock checks returns -1 and leaves the counter unchanged. So
    the ids of the constructed transactions go up by 1 from one to the next,
    as long as they are below [INT_MAX]. *)
Theorem transaction_ids (calls : list Call) (sys : ProductionPlanningSystem.t) (w : World) :
  blockchain sys <> [] -> in_int (nextTransactionId sys) ->
  let steps := fst (fst (run calls sys w)) in
  Forall step_ok steps /\
  (forall i a b,
      List.filter step_constructs steps !! i = Some a ->
      List.filter step_constructs steps !! S i = Some b ->
      step_returned a < INT_MAX -> step_returned b = step_returned a + 1).
Proof.
  intros Hne Hin steps. destruct (run_spec calls sys w Hne Hin) as (H1 & _ & H3). by split.
Qed.

(** C1, counterexample. With the counter at [INT_MAX] a completed order
    returns [INT_MAX] and leaves the counter at [INT_MIN]; the next
    transaction constructed gets the id [INT_MIN]. *)
Lemma transaction_counter_wraps :
  let sys := sample_system_with 1000 2147483647 in
  let order := mkCall 1 1 1 1 100 "Regular" in
  blockchain sys <> [] /\ in_int (nextTransactionId sys) /\
  fst (fst (run [order; order] sys sample_world))
  = [mkStep true 2147483647 2147483647 (-2147483648);
     mkStep true (-2147483648) (-2147483648) (-2147483647)].
Proof.
  split; [discriminate|]. split; [unfold in_int, INT_MIN, INT_MAX; cbn; lia|].
  vm_compute. reflexivity.
Qed.

(** C1, witness: a completed order, an order beyond the stock and an order
    beyond the price ceiling. *)
Lemma transaction_ids_witness :
  let calls := [mkCall 1 1 1 1 100 "Regular"; mkCall 1 1 1 1 5000 "Regular";
                mkCall 1 1 1 1 800 "Seasonal"] in
  let steps := fst (fst (run calls sample_system sample_world)) in
  steps = [mkStep true 1 1 2; mkStep false (-1) 2 2; mkStep true 2 2 3] /\
  Forall step_ok steps /\
  (forall i a b,
      List.filter step_constructs steps !! i = Some a ->
      List.filter step_constructs steps !! S i = Some b ->
      step_returned a < INT_MAX -> step_returned b = step_returned a + 1).
Proof.
  intros calls steps. split; [vm_compute; reflexivity|].
  apply (transaction_ids calls sample_system sample_world).
  - discriminate.
  - unfold in_int, INT_MIN, INT_MAX. cbn. lia.
Defined.

(** C2, witness: an unknown supplier, an order beyond the stock, and an order
    beyond the price ceiling. *)
Lemma rejected_calls_leave_no_trace_witness :
  createTransaction 9 1 1 1 100 "Regular" sample_system sample_world
  = ((-1, sample_system), sample_world) /\
  createTransaction 1 1 1 1 5000 "Regular" sample_system sample_world
  = ((-1, sample_system), sample_world) /\
  exists stored block sys' w',
    createTransaction 1 1 1 1 800 "Regular" sample_system sample_world = ((1, sys'), w') /\
    transactions sys' = [stored] /\ Transaction.status stored = "Failed"%string /\
    blockchain sys' = sample_ledger ++ [block] /\
    products sys' = products sample_system /\ retailers sys' = retailers sample_system.
Proof.
  split; [|split].
  - apply (proj1 (rejected_calls_leave_no_trace 9 1 1 1 100 "Regular" sample_system sample_world)).
    left. reflexivity.
  - apply (proj1 (rejected_calls_leave_no_trace 1 1 1 1 5000 "Regular" sample_system sample_world)).
    do 5 right. exists 0%nat, (Product.mk 1 "Rice" 5.5 1000). split; [reflexivity|]. cbn. lia.
  - destruct (proj2 (rejected_calls_leave_no_trace 1 1 1 1 800 "Regular" sample_system sample_world)
                0%nat (Supplier.mk 1 "Malayan Agro" "Kuala Lumpur" "Federal Territory"
                                   3.168 101.708 [1; 2])
                0%nat (Retailer.mk 1 "SuperMart" "Bukit Bintang" 3.148 101.698 10000 100000 [])
                0%nat (Product.mk 1 "Rice" 5.5 1000)
                0%nat (Transporter.mk 1 "FastTruck" "Ordinary Ground Transfer" 2.5 2000))
      as (stored & block & sys' & w' & E & Htx & Hst & _ & Hb & _ & Hp & Hr).
    + reflexivity.
    + reflexivity.
    + reflexivity.
    + reflexivity.
    + cbn. auto.
    + cbn. lia.
    + discriminate.
    + left. vm_compute. reflexivity.
    + exists stored, block, sys', w'. repeat split; assumption.
Defined.

(** C3, witness: a deduction within the balance and one beyond it. *)
Lemma credit_atomicity_witness :
  let r := Retailer.mk 1 "SuperMart" "Bukit Bintang" 3.148 101.698 10000 100000 [] in
  (Retailer.creditBalance (snd (Retailer.deductCredit 556.25 r)) = 9443.75%float /\
   Retailer.annualCreditBalance (snd (Retailer.deductCredit 556.25 r)) = 99443.75%float) /\
  snd (Retailer.deductCredit 20000 r) = r.
Proof.
  intros r. split.
  - destruct (proj1 credit_atomicity 556.25%float r) as (_ & Hok & _).
    destruct (Hok ltac:(vm_compute; reflexivity)) as [H1 H2]. split.
    + rewrite H1. vm_compute. reflexivity.
    + rewrite H2. vm_compute. reflexivity.
  - destruct (proj1 credit_atomicity 20000%float r) as (_ & _ & Hko).
    apply Hko. vm_compute. reflexivity.
Defined.

(** C4, counterexample. A stock of [INT_MAX] and a quantity of -1: the
    transaction is Completed and the stock afterwards is [INT_MIN], not
    2147483647 - (-1). *)
Lemma stock_update_wraps :
  let sys := sample_system_with 2147483647 1 in
  let sys' := snd (fst (createTransaction 1 1 1 1 (-1) "Regular" sys sample_world)) in
  map Product.stock (products sys) = [2147483647] /\
  map Transaction.status (transactions sys') = ["Completed"%string] /\
  map Product.stock (products sys') = [-2147483648].
Proof. vm_compute. repeat split. Qed.

(** C4, witness: 100 units out of 1000. *)
Lemma stock_conservation_witness :
  let sys' := snd (fst (createTransaction 1 1 1 1 100 "Regular" sample_system sample_world)) in
  exists stored,
    transactions sys' = transactions sample_system ++ [stored] /\
    Transaction.status stored = "Completed"%string /\
    Product.stock <$> products sys' !! 0%nat = Some 900.
Proof.
  intros sys'.
  assert (exists stored, transactions sys' = transactions sample_system ++ [stored] /\
                         Transaction.status stored = "Completed"%string) as (stored & Htx & Hst).
  { eexists. split; vm_compute; reflexivity. }
  exists stored. split; [exact Htx|]. split; [exact Hst|].
  destruct (stock_conservation 1 1 1 1 100 "Regular" sample_system sample_world stored Htx)
    as [Hc _].
  destruct (Hc Hst) as (pi & product & Hfind & _ & Hstock & _).
  vm_compute in Hfind. injection Hfind as <- <-.
  apply Hstock. unfold INT_MAX. cbn. lia.
Defined.

(** C6, counterexample. A stock of 1000 and a quantity of [INT_MIN]: the
    check [stock >= quantity] passes, the transaction is Completed and the
    stock afterwards is negative. *)
Lemma stock_goes_negative :
  let sys' := snd (fst (createTransaction 1 1 1 1 (-2147483648) "Regular"
                                          sample_system sample_world)) in
  Forall (fun p => 0 <= Product.stock p) (products sample_system) /\
  map Transaction.status (transactions sys') = ["Completed"%string] /\
  map Product.stock (products sys') = [-2147482648].
Proof.
  split; [repeat constructor; cbn; lia|]. vm_compute. repeat split.
Qed.

(** C6, witness: an order, a negative order and an order beyond the
    stock. *)
Lemma stock_stays_nonnegative_witness :
  let calls := [mkCall 1 1 1 1 100 "Regular"; mkCall 1 1 1 1 (-50) "Regular";
                mkCall 1 1 1 1 5000 "Regular"] in
  map Product.stock (products (snd (fst (run calls sample_system sample_world)))) = [950] /\
  Forall (fun p => 0 <= Product.stock p)
         (products (snd (fst (run calls sample_system sample_world)))).
Proof.
  intros calls. split; [vm_compute; reflexivity|].
  apply (stock_stays_nonnegative calls sample_system sample_world).
  - repeat constructor. cbn. lia.
  - cbn [stock_fits].
    repeat split; intros pi product H; vm_compute in H; injection H as <- <-;
      vm_compute; discriminate.
Defined.

(* ===================================================================== *)
(** ** Doubles: rounding, integers, magnitudes *)
(* ===================================================================== *)

(** *** Digits *)

Lemma digits2_pos_size (p : positive) : digits2_pos p = Pos.size p.
Proof. induction p as [p IH|p IH|]; cbn; by rewrite ?IH. Qed.

Lemma digits2_pos_bounds (p : positive) :
  2 ^ (Zpos (digits2_pos p) - 1) <= Zpos p < 2 ^ Zpos (digits2_pos p).
Proof.
  rewrite digits2_pos_size. split.
  - pose proof (Pos.size_le p) as H.
    assert (2 ^ Z.pos (Pos.size p) <= 2 * Z.pos p).
    { change 2 with (Z.pos 2). rewrite <- Pos2Z.inj_pow. change (Z.pos 2 * Z.pos p) with (Z.pos p~0). lia. }
    replace (Z.pos (Pos.size p)) with (Z.pos (Pos.size p) - 1 + 1) in H0 by lia.
    rewrite Z.pow_add_r in H0 by lia. lia.
  - pose proof (Pos.size_gt p) as H.
    change 2 with (Z.pos 2). rewrite <- Pos2Z.inj_pow. lia.
Qed.

Lemma Zdigits2_bounds (m : Z) :
  0 < m -> 2 ^ (Zdigits2 m - 1) <= m < 2 ^ Zdigits2 m.
Proof. destruct m as [|p|p]; try lia. intros _. apply digits2_pos_bounds. Qed.

Lemma Zdigits2_pos (m : Z) : 0 < m -> 0 < Zdigits2 m.
Proof. destruct m; cbn; lia. Qed.

Lemma Zdigits2_nonneg (m : Z) : 0 <= Zdigits2 m.
Proof. destruct m; cbn; lia. Qed.

Lemma Zdigits2_le (m d : Z) : 0 <= d -> m < 2 ^ d -> 0 <= m -> Zdigits2 m <= d.
Proof.
  intros Hd Hm H0. destruct (Z.eq_dec m 0) as [->|Hne]; [cbn; lia|].
  pose proof (Zdigits2_bounds m ltac:(lia)) as [Hlo _].
  destruct (Z_lt_le_dec d (Zdigits2 m)) as [Hlt|]; [|lia].
  assert (2 ^ d <= 2 ^ (Zdigits2 m - 1)) by (apply Z.pow_le_mono_r; lia). lia.
Qed.

Lemma Zdigits2_ge (m d : Z) : 2 ^ (d - 1) <= m -> 0 < m -> d <= Zdigits2 m.
Proof.
  intros Hm H0. pose proof (Zdigits2_bounds m H0) as [_ Hhi].
  destruct (Z_lt_le_dec (Zdigits2 m) d) as [Hlt|]; [|lia].
  assert (2 ^ Zdigits2 m <= 2 ^ (d - 1)).
  { apply Z.pow_le_mono_r; [lia|]. lia. }
  lia.
Qed.

Lemma Zdigits2_unique (m d : Z) : 2 ^ (d - 1) <= m < 2 ^ d -> 0 < m -> Zdigits2 m = d.
Proof.
  intros [Hlo Hhi] H0.
  assert (0 <= d).
  { destruct (Z_lt_le_dec d 0); [|lia]. rewrite (Z.pow_neg_r 2 d) in Hhi by lia. lia. }
  pose proof (Zdigits2_le m d ltac:(lia) Hhi ltac:(lia)).
  pose proof (Zdigits2_ge m d Hlo H0). lia.
Qed.

Lemma Zdigits2_shift (m k : Z) : 0 < m -> 0 <= k -> Zdigits2 (m * 2 ^ k) = Zdigits2 m + k.
Proof.
  intros Hm Hk. pose proof (Zdigits2_bounds m Hm) as [Hlo Hhi].
  pose proof (Zdigits2_pos m Hm).
  assert (0 < 2 ^ k) by (apply Z.pow_pos_nonneg; lia).
  apply Zdigits2_unique; [|nia].
  replace (Zdigits2 m + k - 1) with (Zdigits2 m - 1 + k) by lia.
  rewrite !Z.pow_add_r by lia. nia.
Qed.

Lemma Zdigits2_succ (m : Z) : 0 <= m -> Zdigits2 (m + 1) <= Zdigits2 m + 1.
Proof.
  intros Hm. destruct (Z.eq_dec m 0) as [->|]; [by vm_compute|].
  pose proof (Zdigits2_bounds m ltac:(lia)) as [_ Hhi].
  pose proof (Zdigits2_nonneg m).
  apply Zdigits2_le; [lia| |lia]. rewrite Z.pow_add_r by lia. lia.
Qed.

(** *** Shifting a mantissa right *)

Lemma iter_pos_nat {A} (f : A -> A) (p : positive) (x : A) :
  @SpecFloat.iter_pos A f p x = Nat.iter (Pos.to_nat p) f x.
Proof.
  revert x. induction p as [p IH|p IH|]; intros x; cbn [SpecFloat.iter_pos].
  - rewrite !IH. rewrite Pos2Nat.inj_xI. cbn [Nat.iter].
    rewrite <- Nat.iter_succ_r. rewrite <- Nat.iter_add. f_equal. lia.
  - rewrite !IH. rewrite Pos2Nat.inj_xO. rewrite <- Nat.iter_add. f_equal. lia.
  - reflexivity.
Qed.

Lemma shr_1_m (mrs : shr_record) : 0 <= shr_m mrs -> shr_m (shr_1 mrs) = shr_m mrs / 2.
Proof.
  destruct mrs as [m r s]. cbn [shr_m]. intros Hm.
  destruct m as [|[p|p|]|p]; cbn [shr_1 shr_m]; try lia; try reflexivity.
  - apply Z.div_unique with (r := 1); lia.
  - apply Z.div_unique with (r := 0); lia.
Qed.

Lemma shr_iter_m (k : nat) (mrs : shr_record) :
  0 <= shr_m mrs -> shr_m (Nat.iter k shr_1 mrs) = shr_m mrs / 2 ^ Z.of_nat k.
Proof.
  intros Hm. induction k as [|k IH]; [by rewrite Z.div_1_r|].
  rewrite Nat.iter_succ. rewrite shr_1_m.
  - rewrite IH. rewrite Nat2Z.inj_succ, Z.pow_succ_r by lia.
    rewrite Z.div_div by (try apply Z.pow_pos_nonneg; lia). f_equal. lia.
  - rewrite IH. apply Z.div_pos; [lia|apply Z.pow_pos_nonneg; lia].
Qed.

Lemma shr_iter_exact (k : nat) (m : Z) :
  0 <= m ->
  Nat.iter k shr_1 (Build_shr_record (m * 2 ^ Z.of_nat k) false false)
  = Build_shr_record m false false.
Proof.
  intros Hm. revert m Hm. induction k as [|k IH]; intros m Hm.
  - cbn. f_equal. lia.
  - rewrite Nat.iter_succ_r.
    assert (shr_1 (Build_shr_record (m * 2 ^ Z.of_nat (S k)) false false)
            = Build_shr_record (m * 2 ^ Z.of_nat k) false false) as ->.
    { rewrite Nat2Z.inj_succ, Z.pow_succ_r by lia.
      assert (0 <= m * 2 ^ Z.of_nat k) as H by (apply Z.mul_nonneg_nonneg; [lia|apply Z.pow_nonneg; lia]).
      replace (m * (2 * 2 ^ Z.of_nat k)) with (2 * (m * 2 ^ Z.of_nat k)) by lia.
      destruct (m * 2 ^ Z.of_nat k) as [|p|p]; [reflexivity|reflexivity|lia]. }
    by apply IH.
Qed.

Lemma shr_m_spec (m e n : Z) (l : location) :
  0 <= m ->
  let r := shr (shr_record_of_loc m l) e n in
  shr_m (fst r) = m / 2 ^ Z.max 0 n /\ snd r = e + Z.max 0 n.
Proof.
  intros Hm. unfold shr.
  assert (Hrec : shr_m (shr_record_of_loc m l) = m) by (by destruct l as [|[]]).
  destruct n as [|p|p]; cbn [fst snd].
  - rewrite Hrec. change (Z.max 0 0) with 0. rewrite Z.div_1_r. lia.
  - rewrite iter_pos_nat, shr_iter_m by lia. rewrite Hrec, positive_nat_Z.
    rewrite Z.max_r by lia. done.
  - rewrite Hrec. rewrite Z.max_l by lia. rewrite Z.div_1_r. lia.
Qed.

Lemma shr_exact (m e n : Z) :
  0 <= m -> m mod 2 ^ Z.max 0 n = 0 ->
  fst (shr (shr_record_of_loc m loc_Exact) e n)
  = Build_shr_record (m / 2 ^ Z.max 0 n) false false.
Proof.
  intros Hm Hmod. unfold shr. cbn [shr_record_of_loc].
  destruct n as [|p|p]; cbn [fst].
  - change (Z.max 0 0) with 0. by rewrite Z.div_1_r.
  - rewrite Z.max_r in * by lia. rewrite iter_pos_nat.
    assert (0 < 2 ^ Z.pos p) by (apply Z.pow_pos_nonneg; lia).
    pose proof (Z.div_mod m (2 ^ Z.pos p) ltac:(lia)) as Hdm. rewrite Hmod in Hdm.
    rewrite Hdm at 1. rewrite Z.add_0_r, Z.mul_comm, <- (positive_nat_Z p).
    apply shr_iter_exact. apply Z.div_pos; lia.
  - rewrite Z.max_l by lia. by rewrite Z.div_1_r.
Qed.

Lemma round_nearest_even_bounds (m : Z) (l : location) :
  m <= round_nearest_even m l <= m + 1.
Proof. destruct l as [|[]]; cbn; try lia. destruct (Z.even m); lia. Qed.

(** *** Rounding to a double *)

Lemma fexp64_eq (e : Z) : fexp64 e = Z.max (e - 53) (-1074).
Proof. reflexivity. Qed.

(** What [binary_round_aux] computes: the mantissa is shifted right by [n]
    to fit 53 digits, rounded, and shifted once more if the rounding
    carried. *)
Lemma binary_round_aux_spec (s : bool) (mz e : Z) (l : location) :
  0 <= mz ->
  let n := Z.max 0 (fexp64 (Zdigits2 mz + e) - e) in
  exists m2,
    mz / 2 ^ n <= m2 <= mz / 2 ^ n + 1 /\
    (l = loc_Exact -> mz mod 2 ^ n = 0 -> m2 = mz / 2 ^ n) /\
    let n2 := Z.max 0 (fexp64 (Zdigits2 m2 + (e + n)) - (e + n)) in
    binary_round_aux prec emax s mz e l
    = match m2 / 2 ^ n2 with
      | Z0 => S754_zero s
      | Zpos p => if e + n + n2 <=? 971 then S754_finite s p (e + n + n2) else S754_infinity s
      | Zneg _ => S754_nan
      end.
Proof.
  intros Hm n. unfold binary_round_aux, shr_fexp.
  change (SpecFloat.fexp prec emax) with fexp64. change (emax - prec) with 971.
  pose proof (shr_m_spec mz e (fexp64 (Zdigits2 mz + e) - e) l Hm) as [Hm1 He1].
  cbn zeta in Hm1, He1. fold n in Hm1, He1.
  destruct (shr (shr_record_of_loc mz l) e (fexp64 (Zdigits2 mz + e) - e)) as [mrs1 e1] eqn:Hshr.
  cbn [fst snd] in Hm1, He1. subst e1. cbv beta iota.
  set (m2 := round_nearest_even (shr_m mrs1) (loc_of_shr_record mrs1)).
  assert (H2 : mz / 2 ^ n <= m2 <= mz / 2 ^ n + 1).
  { unfold m2. rewrite <- Hm1. apply round_nearest_even_bounds. }
  assert (0 < 2 ^ n) by (apply Z.pow_pos_nonneg; lia).
  assert (0 <= mz / 2 ^ n) by (apply Z.div_pos; lia).
  exists m2. split; [exact H2|]. split.
  - intros -> Hmod. unfold m2.
    pose proof (shr_exact mz e (fexp64 (Zdigits2 mz + e) - e) Hm Hmod) as Hex.
    rewrite Hshr in Hex. cbn [fst] in Hex. by rewrite Hex.
  - cbn zeta.
    pose proof (shr_m_spec m2 (e + n) (fexp64 (Zdigits2 m2 + (e + n)) - (e + n)) loc_Exact ltac:(lia))
      as [Hm3 He3].
    cbn zeta in Hm3, He3.
    destruct (shr (shr_record_of_loc m2 loc_Exact) (e + n)
                  (fexp64 (Zdigits2 m2 + (e + n)) - (e + n))) as [mrs3 e3].
    cbn [fst snd] in Hm3, He3. subst e3. cbv beta iota. rewrite Hm3. reflexivity.
Qed.

Lemma Zdigits2_mono (a b : Z) : 0 <= a <= b -> Zdigits2 a <= Zdigits2 b.
Proof.
  intros [Ha Hab]. destruct (Z.eq_dec b 0) as [->|]; [by replace a with 0 by lia|].
  pose proof (Zdigits2_bounds b ltac:(lia)) as [_ Hhi].
  apply Zdigits2_le; [apply Zdigits2_nonneg|lia|lia].
Qed.

Lemma Zdigits2_div_pos (m k : Z) :
  0 <= k -> 0 < m / 2 ^ k -> Zdigits2 (m / 2 ^ k) + k <= Zdigits2 m.
Proof.
  intros Hk Hq. assert (0 < 2 ^ k) by (apply Z.pow_pos_nonneg; lia).
  assert (0 < m).
  { destruct (Z_lt_le_dec 0 m); [done|].
    assert (m / 2 ^ k <= 0) by (apply Z.div_le_upper_bound; lia). lia. }
  pose proof (Zdigits2_bounds (m / 2 ^ k) Hq) as [Hlo _].
  pose proof (Zdigits2_pos (m / 2 ^ k) Hq).
  apply Zdigits2_ge; [|done].
  replace (Zdigits2 (m / 2 ^ k) + k - 1) with (Zdigits2 (m / 2 ^ k) - 1 + k) by lia.
  rewrite Z.pow_add_r by lia.
  pose proof (Z.mul_div_le m (2 ^ k) ltac:(lia)). nia.
Qed.

Lemma round_mag (s : bool) (mz e : Z) (l : location) (k : Z) :
  0 <= mz -> Zdigits2 mz + e <= k -> -1074 <= k <= 970 ->
  mag s (k + 1) (binary_round_aux prec emax s mz e l).
Proof.
  intros Hm Hk Hrange.
  destruct (binary_round_aux_spec s mz e l Hm) as (m2 & Hm2 & _ & Heq).
  cbn zeta in Heq. rewrite Heq. clear Heq.
  set (n := Z.max 0 (fexp64 (Zdigits2 mz + e) - e)) in *.
  set (n2 := Z.max 0 (fexp64 (Zdigits2 m2 + (e + n)) - (e + n))).
  assert (0 < 2 ^ n) by (apply Z.pow_pos_nonneg; lia).
  assert (0 <= mz / 2 ^ n) by (apply Z.div_pos; lia).
  pose proof (Zdigits2_nonneg mz) as Hd0.
  assert (Hen : e + n <= k).
  { unfold n. rewrite fexp64_eq. lia. }
  assert (Hd2 : Zdigits2 m2 + (e + n) <= k + 1).
  { pose proof (Zdigits2_mono m2 (mz / 2 ^ n + 1) ltac:(lia)).
    pose proof (Zdigits2_succ (mz / 2 ^ n) ltac:(lia)).
    destruct (Z.eq_dec (mz / 2 ^ n) 0) as [E|Hne].
    - rewrite E in *. change (Zdigits2 0) with 0 in *. lia.
    - pose proof (Zdigits2_div_pos mz n ltac:(lia) ltac:(lia)). lia. }
  assert (Hen2 : e + n + n2 <= 971).
  { unfold n2. rewrite fexp64_eq. lia. }
  destruct (m2 / 2 ^ n2) as [|p|p] eqn:E; cbn [mag].
  - reflexivity.
  - destruct (Z.leb_spec (e + n + n2) 971) as [_|]; [|lia]. cbn [mag].
    split; [reflexivity|].
    pose proof (Zdigits2_div_pos m2 n2 ltac:(lia)) as Hdiv. rewrite E in Hdiv.
    specialize (Hdiv ltac:(lia)). change (Zdigits2 (Z.pos p)) with (Z.pos (digits2_pos p)) in Hdiv.
    lia.
  - assert (0 <= m2 / 2 ^ n2) by (apply Z.div_pos; [lia|apply Z.pow_pos_nonneg; lia]). lia.
Qed.

(** A mantissa in the normal range is rounded up by at most one part in
    [2 ^ 52], and not at all when it fits the 53 digits. *)
Lemma round_normal (s : bool) (mz e : Z) (l : location) :
  0 < mz -> -1074 <= e -> Zdigits2 mz + e <= 970 ->
  53 <= Zdigits2 mz \/ l = loc_Exact ->
  exists p e3,
    binary_round_aux prec emax s mz e l = S754_finite s p e3 /\
    e <= e3 <= e + Z.max 0 (Zdigits2 mz - 53) + 1 /\
    Zpos (digits2_pos p) <= 53 /\
    Zpos p * 2 ^ (e3 - e) * 2 ^ 52 <= mz * (2 ^ 52 + 1) /\
    (Zdigits2 mz <= 53 -> l = loc_Exact -> Zpos p = mz /\ e3 = e).
Proof.
  intros Hm He Hde Hcase.
  destruct (binary_round_aux_spec s mz e l ltac:(lia)) as (m2 & Hm2 & Hexact & Heq).
  cbn zeta in Heq. rewrite Heq. clear Heq.
  set (d := Zdigits2 mz) in *.
  pose proof (Zdigits2_bounds mz Hm) as [Hlo Hhi]. fold d in Hlo, Hhi.
  pose proof (Zdigits2_pos mz Hm) as Hd. fold d in Hd.
  set (n := Z.max 0 (fexp64 (d + e) - e)) in *.
  destruct (Z_lt_le_dec d 53) as [Hsmall|Hbig].
  - (* the mantissa fits *)
    destruct Hcase as [? | ->]; [lia|].
    assert (n = 0) as Hn by (unfold n; rewrite fexp64_eq; lia).
    rewrite Hn in *. rewrite Z.pow_0_r, Z.div_1_r in *.
    assert (m2 = mz) as -> by (apply Hexact; [done|apply Z.mod_1_r]).
    fold d. rewrite Z.add_0_r.
    assert (Z.max 0 (fexp64 (d + e) - e) = 0) as -> by (rewrite fexp64_eq; lia).
    rewrite Z.pow_0_r, Z.div_1_r, Z.add_0_r.
    destruct mz as [|p|p]; try lia.
    destruct (Z.leb_spec e 971); [|lia].
    exists p, e. split; [done|]. split; [lia|]. split; [cbn in d; lia|].
    rewrite Z.sub_diag, Z.pow_0_r. split; [lia|done].
  - (* the mantissa is shifted by [d - 53] *)
    assert (n = d - 53) as Hn by (unfold n; rewrite fexp64_eq; lia).
    rewrite Hn in *.
    assert (H2n : 0 < 2 ^ (d - 53)) by (apply Z.pow_pos_nonneg; lia).
    assert (Hsplit : 2 ^ (d - 1) = 2 ^ 52 * 2 ^ (d - 53) /\ 2 ^ d = 2 ^ 53 * 2 ^ (d - 53)).
    { rewrite <- !Z.pow_add_r by lia. split; f_equal; lia. }
    destruct Hsplit as [E1 E2].
    assert (Hq : 2 ^ 52 <= mz / 2 ^ (d - 53) < 2 ^ 53).
    { split.
      - apply Z.div_le_lower_bound; lia.
      - apply Z.div_lt_upper_bound; lia. }
    pose proof (Z.mul_div_le mz (2 ^ (d - 53)) ltac:(lia)) as Hfloor.
    assert (Hm2' : 2 ^ 52 <= m2 <= 2 ^ 53) by lia.
    destruct (Z_lt_le_dec m2 (2 ^ 53)) as [Hlt|Hge].
    + assert (Zdigits2 m2 = 53) as Hd2 by (apply Zdigits2_unique; lia).
      rewrite Hd2.
      assert (Z.max 0 (fexp64 (53 + (e + (d - 53))) - (e + (d - 53))) = 0) as ->
        by (rewrite fexp64_eq; lia).
      rewrite Z.pow_0_r, Z.div_1_r, Z.add_0_r.
      destruct m2 as [|p|p]; try lia.
      destruct (Z.leb_spec (e + (d - 53)) 971); [|lia].
      exists p, (e + (d - 53)). split; [done|]. split; [lia|].
      split; [change (Z.pos (digits2_pos p)) with (Zdigits2 (Z.pos p)); lia|].
      split; [|intros ? ?; replace d with 53 in * by lia; rewrite Z.sub_diag, Z.pow_0_r, Z.div_1_r in *;
                split; [|lia]; apply Hexact; [done|apply Z.mod_1_r]].
      replace (e + (d - 53) - e) with (d - 53) by lia. nia.
    + assert (m2 = 2 ^ 53) as -> by lia.
      assert (Zdigits2 (2 ^ 53) = 54) as -> by reflexivity.
      assert (Z.max 0 (fexp64 (54 + (e + (d - 53))) - (e + (d - 53))) = 1) as ->
        by (rewrite fexp64_eq; lia).
      change (2 ^ 53 / 2 ^ 1) with (Z.pos (Z.to_pos (2 ^ 52))).
      destruct (Z.leb_spec (e + (d - 53) + 1) 971); [|lia].
      exists (Z.to_pos (2 ^ 52)), (e + (d - 53) + 1). split; [done|]. split; [lia|].
      split; [by vm_compute|].
      split.
      * replace (e + (d - 53) + 1 - e) with (1 + (d - 53)) by lia.
        rewrite Z.pow_add_r by lia. change (Z.pos (Z.to_pos (2 ^ 52))) with (2 ^ 52).
        change (2 ^ 1) with 2. nia.
      * intros ? ->. replace d with 53 in * by lia.
        rewrite Z.sub_diag, Z.pow_0_r, Z.div_1_r in *.
        specialize (Hexact eq_refl (Z.mod_1_r _)). lia.
Qed.

(** *** Integers as doubles *)

Lemma iter_xO (m d : positive) : Zpos (Pos.iter xO m d) = Zpos m * 2 ^ Zpos d.
Proof.
  induction d as [|d IH] using Pos.peano_ind.
  - cbn. lia.
  - rewrite Pos.iter_succ, Pos2Z.inj_xO, IH, Pos2Z.inj_succ, Z.pow_succ_r by lia. lia.
Qed.

Lemma shl_align_spec (mx : positive) (ex ez : Z) :
  ez <= ex ->
  Zpos (fst (shl_align mx ex ez)) = Zpos mx * 2 ^ (ex - ez) /\
  snd (shl_align mx ex ez) = ez.
Proof.
  intros Hle. unfold shl_align. destruct (ez - ex) as [|d|d] eqn:E; cbn [fst snd]; try lia.
  - replace (ex - ez) with 0 by lia. rewrite Z.pow_0_r. lia.
  - rewrite iter_xO. replace (ex - ez) with (Z.pos d) by lia. lia.
Qed.

Lemma shl_align_same (mx : positive) (ex ez : Z) :
  ex <= ez -> shl_align mx ex ez = (mx, ex).
Proof. intros Hle. unfold shl_align. destruct (ez - ex) as [|d|d] eqn:E; try lia; done. Qed.

Lemma canon_mantissa (z : Z) :
  0 < z < 2 ^ 53 ->
  let m := z * 2 ^ (53 - Zdigits2 z) in
  2 ^ 52 <= m < 2 ^ 53 /\ Zdigits2 m = 53 /\ 1 <= Zdigits2 z <= 53.
Proof.
  intros [Hz Hlt]. pose proof (Zdigits2_bounds z Hz) as [Hlo Hhi].
  pose proof (Zdigits2_pos z Hz). pose proof (Zdigits2_le z 53 ltac:(lia) Hlt ltac:(lia)).
  cbn zeta.
  assert (Zdigits2 (z * 2 ^ (53 - Zdigits2 z)) = 53) as E.
  { rewrite Zdigits2_shift by lia. lia. }
  assert (0 < z * 2 ^ (53 - Zdigits2 z)).
  { apply Z.mul_pos_pos; [lia|apply Z.pow_pos_nonneg; lia]. }
  split; [|split; [exact E|lia]].
  pose proof (Zdigits2_bounds _ H1) as HH. rewrite E in HH. exact HH.
Qed.

Lemma normalize_int (z k : Z) :
  0 < z < 2 ^ 53 -> 0 <= k ->
  binary_normalize prec emax (z * 2 ^ k) (- k) false = canon z.
Proof.
  intros Hz Hk. pose proof (canon_mantissa z Hz) as (Hm & Hdm & Hd). cbn zeta in Hm, Hdm.
  set (d := Zdigits2 z) in *.
  assert (H2k : 0 < 2 ^ k) by (apply Z.pow_pos_nonneg; lia).
  assert (HP : 0 < z * 2 ^ k) by (apply Z.mul_pos_pos; lia).
  assert (HdP : Zdigits2 (z * 2 ^ k) = d + k) by (apply Zdigits2_shift; lia).
  destruct (z * 2 ^ k) as [|P|P] eqn:EP; try lia.
  unfold binary_normalize, binary_round.
  change (SpecFloat.fexp prec emax) with fexp64.
  change (Z.pos (digits2_pos P)) with (Zdigits2 (Z.pos P)). rewrite HdP.
  replace (d + k + - k) with d by lia.
  assert (fexp64 d = d - 53) as -> by (rewrite fexp64_eq; lia).
  destruct (Z_lt_le_dec (d - 53) (- k)) as [Hshift|Hkeep].
  - (* shifted left to 53 digits *)
    destruct (shl_align_spec P (- k) (d - 53) ltac:(lia)) as (Hfst & Hsnd).
    destruct (shl_align P (- k) (d - 53)) as [mz ez]. cbn [fst snd] in Hfst, Hsnd. subst ez.
    assert (Hmz : Z.pos mz = z * 2 ^ (53 - d)).
    { rewrite Hfst, <- EP. rewrite <- Z.mul_assoc, <- Z.pow_add_r by lia. do 2 f_equal. lia. }
    destruct (round_normal false (Z.pos mz) (d - 53) loc_Exact) as (p & e3 & Heq & _ & _ & _ & Hex);
      [lia|lia|rewrite Hmz, Hdm; lia|by right|].
    rewrite Heq. destruct Hex as [Hp ->]; [rewrite Hmz, Hdm; lia|done|].
    unfold canon. fold d. f_equal. rewrite <- Hmz, <- Hp. by rewrite Pos2Z.id.
  - (* shifted right, nothing lost *)
    rewrite shl_align_same by lia.
    destruct (binary_round_aux_spec false (Z.pos P) (- k) loc_Exact ltac:(lia))
      as (m2 & _ & Hexact & Heq).
    cbn zeta in Heq. rewrite Heq. clear Heq. rewrite HdP in *.
    replace (d + k + - k) with d in * by lia.
    assert (fexp64 d = d - 53) as E by (rewrite fexp64_eq; lia). rewrite E in *.
    replace (Z.max 0 (d - 53 - - k)) with (k - (53 - d)) in * by lia.
    assert (Hdiv : Z.pos P = z * 2 ^ (53 - d) * 2 ^ (k - (53 - d))).
    { rewrite <- EP, <- Z.mul_assoc, <- Z.pow_add_r by lia. do 2 f_equal. lia. }
    assert (H2 : 0 < 2 ^ (k - (53 - d))) by (apply Z.pow_pos_nonneg; lia).
    assert (m2 = z * 2 ^ (53 - d)) as ->.
    { rewrite Hexact; [|done|].
      - rewrite Hdiv. by rewrite Z.div_mul by lia.
      - rewrite Hdiv. by rewrite Z.mod_mul by lia. }
    rewrite Hdm. replace (- k + (k - (53 - d))) with (d - 53) by lia.
    replace (53 + (d - 53)) with d by lia. rewrite E, Z.sub_diag.
    change (Z.max 0 0) with 0. rewrite Z.pow_0_r, Z.div_1_r, Z.add_0_r.
    destruct (z * 2 ^ (53 - d)) as [|p|p] eqn:Ep; try lia.
    destruct (Z.leb_spec (d - 53) 971); [|lia].
    unfold canon. fold d. rewrite Ep. done.
Qed.

Lemma Prim2SF_double_of_int (z : Z) :
  0 < z < 2 ^ 53 -> Prim2SF (double_of_int z) = canon z.
Proof.
  intros Hz. destruct z as [|p|p]; try lia. unfold double_of_int.
  rewrite of_uint63_spec, Uint63.of_Z_spec.
  rewrite Z.mod_small by (split; [lia|]; change wB with (2 ^ 63); 
                          assert (2 ^ 53 < 2 ^ 63) by (by vm_compute); lia).
  pose proof (normalize_int (Z.pos p) 0 Hz ltac:(lia)) as H.
  rewrite Z.pow_0_r, Z.mul_1_r in H. exact H.
Qed.

Lemma Prim2SF_double_of_zero : Prim2SF (double_of_int 0) = S754_zero false.
Proof. reflexivity. Qed.

Lemma SFadd_canon (x y : Z) :
  0 < x -> 0 < y -> x + y < 2 ^ 53 ->
  SFadd prec emax (canon x) (canon y) = canon (x + y).
Proof.
  intros Hx Hy Hxy.
  pose proof (canon_mantissa x ltac:(lia)) as (Hmx & _ & Hdx).
  pose proof (canon_mantissa y ltac:(lia)) as (Hmy & _ & Hdy). cbn zeta in Hmx, Hmy.
  unfold canon at 1 2. cbn [SFadd cond_Zopp].
  set (dx := Zdigits2 x) in *. set (dy := Zdigits2 y) in *.
  set (ez := Z.min (dx - 53) (dy - 53)).
  destruct (shl_align_spec (Z.to_pos (x * 2 ^ (53 - dx))) (dx - 53) ez ltac:(lia)) as (Ex & _).
  destruct (shl_align_spec (Z.to_pos (y * 2 ^ (53 - dy))) (dy - 53) ez ltac:(lia)) as (Ey & _).
  rewrite Ex, Ey, !Z2Pos.id by lia.
  assert ((x * 2 ^ (53 - dx) * 2 ^ (dx - 53 - ez) + y * 2 ^ (53 - dy) * 2 ^ (dy - 53 - ez))
          = (x + y) * 2 ^ (- ez)) as ->.
  { rewrite <- !Z.mul_assoc, <- !Z.pow_add_r by lia.
    replace (53 - dx + (dx - 53 - ez)) with (- ez) by lia.
    replace (53 - dy + (dy - 53 - ez)) with (- ez) by lia. lia. }
  rewrite <- (Z.opp_involutive ez) at 2.
  apply normalize_int; lia.
Qed.

(** The order of two such doubles is the order of the integers. *)
Lemma SFcompare_canon (x y : Z) :
  0 < x < 2 ^ 53 -> 0 < y < 2 ^ 53 ->
  SFcompare (canon x) (canon y) = Some (x ?= y).
Proof.
  intros Hx Hy.
  pose proof (canon_mantissa x Hx) as (Hmx & _ & Hdx).
  pose proof (canon_mantissa y Hy) as (Hmy & _ & Hdy). cbn zeta in Hmx, Hmy.
  pose proof (Zdigits2_bounds x ltac:(lia)) as [Hxl Hxh].
  pose proof (Zdigits2_bounds y ltac:(lia)) as [Hyl Hyh].
  unfold canon. cbn [SFcompare]. f_equal.
  set (dx := Zdigits2 x) in *. set (dy := Zdigits2 y) in *.
  destruct (Z.compare_spec (dx - 53) (dy - 53)) as [E|Hlt|Hgt].
  - replace dy with dx in * by lia.
    assert (0 < 2 ^ (53 - dx)) by (apply Z.pow_pos_nonneg; lia).
    rewrite Pos.compare_cont_spec. cbn [Pos.switch_Eq].
    rewrite Pos2Z.inj_compare, !Z2Pos.id by lia.
    rewrite <- Zmult_compare_compat_r by lia. by destruct (x ?= y).
  - symmetry. apply Z.compare_lt_iff.
    assert (2 ^ dx <= 2 ^ (dy - 1)) by (apply Z.pow_le_mono_r; lia). lia.
  - symmetry. apply Z.compare_gt_iff.
    assert (2 ^ dy <= 2 ^ (dx - 1)) by (apply Z.pow_le_mono_r; lia). lia.
Qed.

(** *** The values of doubles *)

Lemma pow2_pos (e : Z) : (0 < 2 ^ e)%Q.
Proof. by apply Qpower_0_lt. Qed.

Lemma pow2_add (a b : Z) : (2 ^ (a + b) == 2 ^ a * 2 ^ b)%Q.
Proof. by apply Qpower_plus. Qed.

Lemma pow2_Z (k : Z) : 0 <= k -> (inject_Z (2 ^ k) == 2 ^ k)%Q.
Proof. intros Hk. by rewrite Zpower_Qpower. Qed.

Ltac qreplace x y :=
  let E := fresh "E" in assert (E : (x == y)%Q) by ring; rewrite E; clear E.
Ltac qreplace_in x y H :=
  let E := fresh "E" in assert (E : (x == y)%Q) by ring; rewrite E in H; clear E.

(** An inequality between integers scaled by powers of 2. *)
Lemma scaled_le (p m e e3 A B : Z) :
  e <= e3 -> p * 2 ^ (e3 - e) * A <= m * B ->
  (inject_Z p * 2 ^ e3 * inject_Z A <= inject_Z m * 2 ^ e * inject_Z B)%Q.
Proof.
  intros He H. rewrite Zle_Qle in H. rewrite !inject_Z_mult, pow2_Z in H by lia.
  replace e3 with ((e3 - e) + e) at 1 by lia. rewrite pow2_add.
  pose proof (pow2_pos e) as Hpos.
  set (a := (2 ^ (e3 - e))%Q) in *. set (b := (2 ^ e)%Q) in *.
  qreplace (inject_Z p * (a * b) * inject_Z A)%Q (inject_Z p * a * inject_Z A * b)%Q.
  qreplace (inject_Z m * b * inject_Z B)%Q (inject_Z m * inject_Z B * b)%Q.
  apply Qmult_le_compat_r; [exact H|]. by apply Qlt_le_weak.
Qed.

Lemma SF2Q_finite (m : positive) (e : Z) :
  (SF2Q (S754_finite false m e) == inject_Z (Zpos m) * 2 ^ e)%Q.
Proof. cbn [SF2Q]. ring. Qed.

Lemma SF2Q_canon (z : Z) : 0 < z < 2 ^ 53 -> (SF2Q (canon z) == inject_Z z)%Q.
Proof.
  intros Hz. pose proof (canon_mantissa z Hz) as (Hm & _ & Hd). cbn zeta in Hm.
  unfold canon. rewrite SF2Q_finite, Z2Pos.id by lia.
  rewrite inject_Z_mult, pow2_Z by lia.
  rewrite <- Qmult_assoc, <- pow2_add.
  replace (53 - Zdigits2 z + (Zdigits2 z - 53)) with 0 by lia. cbn. ring.
Qed.

Lemma Zdigits2_mul (a b : Z) : 0 < a -> 0 < b -> Zdigits2 (a * b) <= Zdigits2 a + Zdigits2 b.
Proof.
  intros Ha Hb. pose proof (Zdigits2_bounds a Ha) as [_ Hah].
  pose proof (Zdigits2_bounds b Hb) as [_ Hbh].
  pose proof (Zdigits2_pos a Ha). pose proof (Zdigits2_pos b Hb).
  apply Zdigits2_le; [lia| |nia].
  rewrite Z.pow_add_r by lia. nia.
Qed.

(** The product of two positive doubles, when it neither overflows nor
    falls below the normal range, exceeds the exact product by at most one
    part in [2 ^ 52]. *)
Lemma SFmul_value (mx my : positive) (ex ey : Z) :
  -1074 <= ex + ey ->
  Zpos (digits2_pos mx) + Zpos (digits2_pos my) + ex + ey <= 970 ->
  exists p ep,
    SFmul prec emax (S754_finite false mx ex) (S754_finite false my ey)
    = S754_finite false p ep /\
    ex + ey <= ep /\
    (SF2Q (S754_finite false p ep) * inject_Z (2 ^ 52)
     <= SF2Q (S754_finite false mx ex) * SF2Q (S754_finite false my ey)
        * inject_Z (2 ^ 52 + 1))%Q.
Proof.
  intros He Hd. cbn [SFmul xorb].
  pose proof (Zdigits2_mul (Z.pos mx) (Z.pos my) ltac:(lia) ltac:(lia)) as Hdm.
  change (Zdigits2 (Z.pos mx)) with (Z.pos (digits2_pos mx)) in Hdm.
  change (Zdigits2 (Z.pos my)) with (Z.pos (digits2_pos my)) in Hdm.
  destruct (round_normal false (Z.pos (mx * my)) (ex + ey) loc_Exact)
    as (p & ep & Heq & Hep & _ & Hle & _); [lia|lia| |by right|].
  { rewrite Pos2Z.inj_mul. lia. }
  exists p, ep. split; [exact Heq|]. split; [lia|].
  rewrite !SF2Q_finite.
  pose proof (scaled_le (Z.pos p) (Z.pos (mx * my)) (ex + ey) ep (2 ^ 52) (2 ^ 52 + 1)
                        ltac:(lia) Hle) as H.
  rewrite Pos2Z.inj_mul, inject_Z_mult, pow2_add in H.
  eapply Qle_trans; [exact H|]. apply Qle_lteq. right. ring.
Qed.

(** The quotient of two positive normal doubles exceeds the exact quotient
    by at most one part in [2 ^ 52]. *)
Lemma SFdiv_value (mx my : positive) (ex ey : Z) :
  Zpos (digits2_pos mx) = 53 -> Zpos (digits2_pos my) = 53 ->
  -1021 <= ex - ey <= 900 ->
  exists p ep,
    SFdiv prec emax (S754_finite false mx ex) (S754_finite false my ey)
    = S754_finite false p ep /\
    ex - ey - 53 <= ep <= ex - ey - 51 /\ Zpos (digits2_pos p) <= 53 /\
    (SF2Q (S754_finite false p ep) * SF2Q (S754_finite false my ey) * inject_Z (2 ^ 52)
     <= SF2Q (S754_finite false mx ex) * inject_Z (2 ^ 52 + 1))%Q.
Proof.
  intros Hdx Hdy He. cbn [SFdiv xorb]. unfold SFdiv_core_binary.
  change (Zdigits2 (Z.pos mx)) with (Z.pos (digits2_pos mx)).
  change (Zdigits2 (Z.pos my)) with (Z.pos (digits2_pos my)).
  rewrite Hdx, Hdy. change (SpecFloat.fexp prec emax) with fexp64.
  replace (53 + ex - (53 + ey)) with (ex - ey) by lia.
  assert (Z.min (fexp64 (ex - ey)) (ex - ey) = ex - ey - 53) as ->
    by (rewrite fexp64_eq; lia).
  replace (ex - ey - (ex - ey - 53)) with 53 by lia.
  rewrite Z.shiftl_mul_pow2 by lia.
  pose proof (digits2_pos_bounds mx) as Hbx. rewrite Hdx in Hbx.
  pose proof (digits2_pos_bounds my) as Hby. rewrite Hdy in Hby.
  change (2 ^ (53 - 1)) with (2 ^ 52) in Hbx, Hby.
  pose proof (Z_div_mod (Z.pos mx * 2 ^ 53) (Z.pos my) ltac:(lia)) as Hdm.
  destruct (Z.div_eucl (Z.pos mx * 2 ^ 53) (Z.pos my)) as [q r].
  destruct Hdm as [Hdm Hr].
  assert (Hq : 2 ^ 52 <= q < 2 ^ 54).
  { change (2 ^ 54) with (2 * 2 ^ 53). change (2 ^ 53) with (2 * 2 ^ 52) in *. nia. }
  assert (Hdq : 53 <= Zdigits2 q <= 54).
  { split; [apply Zdigits2_ge; [exact (proj1 Hq)|lia]|apply Zdigits2_le; lia]. }
  destruct (round_normal false q (ex - ey - 53) (new_location (Z.pos my) r))
    as (p & ep & Heq & Hep & Hdp & Hle & _); [lia|lia|lia|left; lia|].
  exists p, ep. split; [exact Heq|]. split; [lia|]. split; [exact Hdp|].
  rewrite !SF2Q_finite.
  assert (Hz : Z.pos p * 2 ^ (ep - (ex - ey - 53)) * (2 ^ 52 * Z.pos my)
               <= Z.pos mx * (2 ^ 53 * (2 ^ 52 + 1))).
  { assert (0 <= r) by lia.
    assert (Z.pos p * 2 ^ (ep - (ex - ey - 53)) * 2 ^ 52 * Z.pos my
            <= q * (2 ^ 52 + 1) * Z.pos my) by (apply Z.mul_le_mono_nonneg_r; lia).
    nia. }
  pose proof (scaled_le (Z.pos p) (Z.pos mx) (ex - ey - 53) ep (2 ^ 52 * Z.pos my)
                        (2 ^ 53 * (2 ^ 52 + 1)) ltac:(lia) Hz) as H.
  rewrite !inject_Z_mult in H.
  assert (E : (2 ^ (ex - ey - 53) * inject_Z (2 ^ 53) * 2 ^ ey == 2 ^ ex)%Q).
  { rewrite pow2_Z by lia. rewrite <- !pow2_add. by replace (ex - ey - 53 + 53 + ey) with ex by lia. }
  pose proof (pow2_pos ey) as Hey.
  apply (Qmult_le_r _ _ (2 ^ ey)%Q Hey) in H.
  qreplace_in (inject_Z (Z.pos mx) * 2 ^ (ex - ey - 53)
               * (inject_Z (2 ^ 53) * inject_Z (2 ^ 52 + 1)) * 2 ^ ey)%Q
              (inject_Z (Z.pos mx) * (2 ^ (ex - ey - 53) * inject_Z (2 ^ 53) * 2 ^ ey)
               * inject_Z (2 ^ 52 + 1))%Q H.
  rewrite E in H.
  eapply Qle_trans; [|exact H]. apply Qle_lteq. right. ring.
Qed.

(** Dropping the fractional part of a positive double gives an integer
    that is not negative and not above it. *)
Lemma SFtruncate_value (m : positive) (e : Z) :
  exists t, SFtruncate (S754_finite false m e) = Some t /\ 0 <= t /\
            (inject_Z t <= SF2Q (S754_finite false m e))%Q.
Proof.
  cbn [SFtruncate].
  destruct (Z.leb_spec 0 e) as [He|He].
  - exists (Z.pos m * 2 ^ e). split; [done|].
    assert (0 < 2 ^ e) by (apply Z.pow_pos_nonneg; lia). split; [lia|].
    rewrite SF2Q_finite, inject_Z_mult, pow2_Z by lia. apply Qle_refl.
  - exists (Z.pos m / 2 ^ (- e)). split; [done|].
    assert (0 < 2 ^ (- e)) by (apply Z.pow_pos_nonneg; lia).
    split; [apply Z.div_pos; lia|].
    pose proof (Z.mul_div_le (Z.pos m) (2 ^ (- e)) ltac:(lia)) as Hle.
    assert (Hz : Z.pos m / 2 ^ (- e) * 2 ^ (0 - e) * 1 <= Z.pos m * 1)
      by (change (0 - e) with (- e); lia).
    pose proof (scaled_le (Z.pos m / 2 ^ (- e)) (Z.pos m) e 0 1 1 ltac:(lia) Hz) as HQ.
    change (2 ^ 0)%Q with 1%Q in HQ. change (inject_Z 1) with 1%Q in HQ.
    rewrite SF2Q_finite.
    eapply Qle_trans; [|eapply Qle_trans; [exact HQ|]]; apply Qle_lteq; right; ring.
Qed.

(* ===================================================================== *)
(** ** The inventory allocator *)
(* ===================================================================== *)

Import Allocator.

(** *** Integers in [double] arithmetic *)

Lemma double_of_int_add (x y : Z) :
  0 <= x -> 0 < y -> x + y < 2 ^ 53 ->
  (double_of_int x + double_of_int y)%float = double_of_int (x + y).
Proof.
  intros Hx Hy Hxy. apply Prim2SF_inj. rewrite FloatAxioms.add_spec. unfold SF64add.
  rewrite (Prim2SF_double_of_int y), (Prim2SF_double_of_int (x + y)) by lia.
  destruct (Z.eq_dec x 0) as [->|Hne].
  - rewrite Prim2SF_double_of_zero. reflexivity.
  - rewrite (Prim2SF_double_of_int x) by lia. apply SFadd_canon; lia.
Qed.

(** The sum of positive integers in [double], in any order, is their sum
    as long as that is below [2 ^ 53]. *)
Lemma sum_doubles_exact (vs : list Z) :
  Forall (fun v => 0 < v) vs -> foldr Z.add 0 vs < 2 ^ 53 ->
  foldr (fun v acc => (acc + double_of_int v)%float) 0%float vs
  = double_of_int (foldr Z.add 0 vs).
Proof.
  induction 1 as [|v vs Hv Hvs IH]; intros Hsum; [reflexivity|].
  cbn [foldr] in *.
  assert (0 <= foldr Z.add 0 vs).
  { clear -Hvs. induction Hvs; cbn; lia. }
  rewrite IH by lia. rewrite double_of_int_add by lia. f_equal. lia.
Qed.

Lemma ltb_double_of_int (x y : Z) :
  0 <= x < 2 ^ 53 -> 0 <= y < 2 ^ 53 ->
  PrimFloat.ltb (double_of_int x) (double_of_int y) = (x <? y).
Proof.
  intros Hx Hy. rewrite FloatAxioms.ltb_spec. unfold SFltb.
  destruct (Z.eq_dec x 0) as [->|Hnx]; destruct (Z.eq_dec y 0) as [->|Hny].
  - reflexivity.
  - rewrite Prim2SF_double_of_zero, (Prim2SF_double_of_int y) by lia.
    cbn. symmetry. apply Z.ltb_lt. lia.
  - rewrite Prim2SF_double_of_zero, (Prim2SF_double_of_int x) by lia.
    cbn. symmetry. apply Z.ltb_ge. lia.
  - rewrite (Prim2SF_double_of_int x), (Prim2SF_double_of_int y) by lia.
    rewrite SFcompare_canon by lia. unfold Z.ltb. by destruct (x ?= y).
Qed.

Lemma int_of_double_in_int (x : float) : in_int (int_of_double x).
Proof.
  unfold int_of_double. destruct (SFtruncate (Prim2SF x)) as [z|]; [|by vm_compute].
  destruct (Z.leb_spec INT_MIN z); destruct (Z.leb_spec z INT_MAX); cbn [andb];
    unfold in_int, INT_MIN, INT_MAX in *; lia.
Qed.

(** One allocation multiplied by the adjustment factor. *)
Lemma rescale_le (S T a : Z) :
  0 <= S <= INT_MAX -> S < T < 2 ^ 53 -> 0 < a <= INT_MAX -> a <= T ->
  let r := int_of_double (double_of_int a * (double_of_int S / double_of_int T)) in
  0 <= r /\ r * T * 2 ^ 104 <= a * S * (2 ^ 52 + 1) ^ 2.
Proof.
  intros HS HT Ha HaT. unfold INT_MAX in *.
  assert (Ha53 : 0 < a < 2 ^ 53) by (change (2 ^ 53) with 9007199254740992; lia).
  cbn zeta. unfold int_of_double.
  rewrite FloatAxioms.mul_spec, FloatAxioms.div_spec. unfold SF64mul, SF64div.
  rewrite (Prim2SF_double_of_int a), (Prim2SF_double_of_int T) by lia.
  destruct (Z.eq_dec S 0) as [->|HS0].
  { rewrite Prim2SF_double_of_zero. unfold canon. cbn. lia. }
  assert (HS53 : 0 < S < 2 ^ 53) by (change (2 ^ 53) with 9007199254740992; lia).
  rewrite (Prim2SF_double_of_int S) by lia.
  pose proof (SF2Q_canon S HS53) as VS. pose proof (SF2Q_canon T ltac:(lia)) as VT.
  pose proof (SF2Q_canon a Ha53) as Va.
  pose proof (canon_mantissa S HS53) as (HmS & HdS & HeS).
  pose proof (canon_mantissa T ltac:(lia)) as (HmT & HdT & HeT).
  pose proof (canon_mantissa a Ha53) as (Hma & Hda & Hea).
  cbn zeta in *.
  assert (HdS31 : Zdigits2 S <= 31) by (apply Zdigits2_le; [lia| |lia]; change (2 ^ 31) with 2147483648; lia).
  assert (Hda31 : Zdigits2 a <= 31) by (apply Zdigits2_le; [lia| |lia]; change (2 ^ 31) with 2147483648; lia).
  unfold canon in *.
  set (mS := Z.to_pos (S * 2 ^ (53 - Zdigits2 S))) in *.
  set (mT := Z.to_pos (T * 2 ^ (53 - Zdigits2 T))) in *.
  set (ma := Z.to_pos (a * 2 ^ (53 - Zdigits2 a))) in *.
  assert (DS : Z.pos (digits2_pos mS) = 53).
  { change (Z.pos (digits2_pos mS)) with (Zdigits2 (Z.pos mS)). unfold mS. by rewrite Z2Pos.id by lia. }
  assert (DT : Z.pos (digits2_pos mT) = 53).
  { change (Z.pos (digits2_pos mT)) with (Zdigits2 (Z.pos mT)). unfold mT. by rewrite Z2Pos.id by lia. }
  assert (Da : Z.pos (digits2_pos ma) = 53).
  { change (Z.pos (digits2_pos ma)) with (Zdigits2 (Z.pos ma)). unfold ma. by rewrite Z2Pos.id by lia. }
  destruct (SFdiv_value mS mT (Zdigits2 S - 53) (Zdigits2 T - 53) DS DT ltac:(lia))
    as (F & ef & EF & Hef & HdF & VF).
  rewrite EF.
  destruct (SFmul_value ma F (Zdigits2 a - 53) ef ltac:(lia) ltac:(lia))
    as (P & ep & EP & Hep & VP).
  rewrite EP.
  destruct (SFtruncate_value P ep) as (t & Et & Ht0 & Vt). rewrite Et.
  rewrite VS, VT in VF. rewrite Va in VP.
  (* the chain of the three bounds *)
  assert (HQ : (inject_Z t * inject_Z T * (inject_Z (2 ^ 52) * inject_Z (2 ^ 52))
                <= inject_Z a * inject_Z S * (inject_Z (2 ^ 52 + 1) * inject_Z (2 ^ 52 + 1)))%Q).
  { set (vp := SF2Q (S754_finite false P ep)) in *.
    set (vf := SF2Q (S754_finite false F ef)) in *.
    set (c := inject_Z (2 ^ 52 + 1)) in *. set (b := inject_Z (2 ^ 52)) in *.
    assert (0 < b)%Q by (by vm_compute). assert (0 < c)%Q by (by vm_compute).
    assert (0 < inject_Z T)%Q by (rewrite <- (Zlt_Qlt 0); lia).
    assert (0 < inject_Z a)%Q by (rewrite <- (Zlt_Qlt 0); lia).
    assert (0 <= inject_Z t)%Q by (rewrite <- (Zle_Qle 0); lia).
    assert (B1 : (inject_Z t * (inject_Z T * b * b) <= vp * (inject_Z T * b * b))%Q).
    { apply Qmult_le_compat_r; [exact Vt|]. 
      apply Qlt_le_weak. repeat apply Qmult_lt_0_compat; done. }
    assert (B2 : (vp * b * (inject_Z T * b) <= inject_Z a * vf * c * (inject_Z T * b))%Q).
    { apply Qmult_le_compat_r; [exact VP|].
      apply Qlt_le_weak. repeat apply Qmult_lt_0_compat; done. }
    assert (B3 : (vf * inject_Z T * b * (inject_Z a * c) <= inject_Z S * c * (inject_Z a * c))%Q).
    { apply Qmult_le_compat_r; [exact VF|].
      apply Qlt_le_weak. repeat apply Qmult_lt_0_compat; done. }
    eapply Qle_trans; [|eapply Qle_trans; [exact B1|]];
      [apply Qle_lteq; right; ring|].
    eapply Qle_trans; [|eapply Qle_trans; [exact B2|]];
      [apply Qle_lteq; right; ring|].
    eapply Qle_trans; [|eapply Qle_trans; [exact B3|]];
      apply Qle_lteq; right; ring. }
  rewrite <- !inject_Z_mult, <- Zle_Qle in HQ.
  change (2 ^ 52 * 2 ^ 52) with (2 ^ 104) in HQ.
  change ((2 ^ 52 + 1) * (2 ^ 52 + 1)) with ((2 ^ 52 + 1) ^ 2) in HQ.
  (* the integer fits an [int] *)
  assert (Hts : t <= S).
  { assert (a * S <= T * S) by (apply Z.mul_le_mono_nonneg_r; lia).
    assert (t * T * 2 ^ 104 <= T * S * (2 ^ 52 + 1) ^ 2).
    { etransitivity; [exact HQ|]. apply Z.mul_le_mono_nonneg_r; [by vm_compute|lia]. }
    assert (t * 2 ^ 104 <= S * (2 ^ 52 + 1) ^ 2).
    { apply (Z.mul_le_mono_pos_l _ _ T); [lia|]. lia. }
    change (2 ^ 104) with 20282409603651670423947251286016 in *.
    change ((2 ^ 52 + 1) ^ 2) with 20282409603651679431146506027009 in *. lia. }
  unfold INT_MIN, INT_MAX.
  destruct (Z.leb_spec (-2147483648) t); [|lia].
  destruct (Z.leb_spec t 2147483647); [|lia]. cbn [andb]. split; [lia|exact HQ].
Qed.

(** *** The tables *)

Lemma sum_values_foldr (m : gmap Z Z) :
  sum_values m = foldr Z.add 0 (map_to_list m).*2.
Proof.
  unfold sum_values. rewrite map_fold_foldr.
  induction (map_to_list m) as [|[k v] l IH]; [done|]. cbn. rewrite IH. lia.
Qed.

Lemma sum_values_fmap_foldr (g : Z -> Z) (m : gmap Z Z) :
  sum_values (g <$> m) = foldr Z.add 0 (g <$> (map_to_list m).*2).
Proof.
  unfold sum_values. rewrite map_fold_fmap, map_fold_foldr.
  induction (map_to_list m) as [|[k v] l IH]; [done|]. cbn. rewrite IH. lia.
Qed.

Lemma sum_doubles_foldr (m : gmap Z Z) :
  sum_doubles m = foldr (fun v acc => (acc + double_of_int v)%float) 0%float (map_to_list m).*2.
Proof.
  unfold sum_doubles. rewrite map_fold_foldr.
  induction (map_to_list m) as [|[k v] l IH]; [done|]. cbn. by rewrite IH.
Qed.

Lemma values_Forall (P : Z -> Prop) (m : gmap Z Z) :
  map_Forall (fun _ v => P v) m -> Forall P (map_to_list m).*2.
Proof.
  intros Hm. apply Forall_fmap, Forall_forall. intros [k v] Hin.
  apply elem_of_map_to_list in Hin. exact (Hm k v Hin).
Qed.

Lemma sum_doubles_table (m : gmap Z Z) :
  map_Forall (fun _ v => 0 < v) m -> sum_values m < 2 ^ 53 ->
  sum_doubles m = double_of_int (sum_values m).
Proof.
  intros Hm Hsum. rewrite sum_doubles_foldr, sum_values_foldr in *.
  apply sum_doubles_exact; [by apply values_Forall|done].
Qed.

Lemma sum_nonneg (vs : list Z) : Forall (fun v => 0 < v) vs -> 0 <= foldr Z.add 0 vs.
Proof. induction 1; cbn; lia. Qed.

Lemma summand_le (vs : list Z) :
  Forall (fun v => 0 < v) vs -> Forall (fun v => v <= foldr Z.add 0 vs) vs.
Proof.
  induction 1 as [|v vs Hv Hvs IH]; [constructor|].
  pose proof (sum_nonneg vs Hvs). cbn [foldr]. constructor; [lia|].
  eapply Forall_impl; [exact IH|]. cbn. intros. lia.
Qed.

(** The rescaled allocations add up to at most the stock. *)
Lemma rescaled_sum (S T : Z) (vs : list Z) :
  0 <= S <= INT_MAX -> S < T < 2 ^ 53 ->
  Forall (fun v => 0 < v <= INT_MAX /\ v <= T) vs ->
  let g := fun v => int_of_double (double_of_int v * (double_of_int S / double_of_int T)) in
  0 <= foldr Z.add 0 (g <$> vs) /\
  foldr Z.add 0 (g <$> vs) * T * 2 ^ 104 <= foldr Z.add 0 vs * S * (2 ^ 52 + 1) ^ 2.
Proof.
  intros HS HT Hvs g. induction Hvs as [|v vs [Hv HvT] Hvs IH]; [cbn; lia|].
  cbn [fmap list_fmap foldr]. fold (g <$> vs).
  destruct (rescale_le S T v HS HT Hv HvT) as [H0 Hle]. fold (g v) in H0, Hle.
  destruct IH as [IH0 IH]. split; [lia|]. lia.
Qed.

Lemma adjust_spec (S : Z) (m : gmap Z Z) :
  0 <= S <= INT_MAX ->
  map_Forall (fun _ v => 0 < v <= INT_MAX) m -> sum_values m < 2 ^ 53 ->
  sum_values (adjust S m) <= S /\ (sum_values m <= S -> adjust S m = m).
Proof.
  intros HS Hm Hsum.
  assert (Hpos : map_Forall (fun _ v => 0 < v) m).
  { eapply map_Forall_impl; [exact Hm|]. cbn. intros. lia. }
  pose proof (values_Forall _ m Hpos) as Hvs.
  pose proof (sum_nonneg _ Hvs) as H0. rewrite <- sum_values_foldr in H0.
  unfold adjust. rewrite (sum_doubles_table m Hpos Hsum).
  rewrite ltb_double_of_int
    by (unfold INT_MAX in HS; change (2 ^ 53) with 9007199254740992 in *; lia).
  destruct (Z.ltb_spec S (sum_values m)) as [Hlt|Hge]; [|split; [lia|done]].
  split; [|lia].
  rewrite sum_values_fmap_foldr.
  destruct (rescaled_sum S (sum_values m) (map_to_list m).*2 HS ltac:(lia)) as [_ Hle].
  { pose proof (summand_le _ Hvs) as Hle. rewrite <- sum_values_foldr in Hle.
    pose proof (values_Forall _ m Hm) as Hint.
    apply Forall_and. split; [exact Hint|exact Hle]. }
  cbn zeta in Hle. rewrite <- sum_values_foldr in Hle.
  set (total := foldr Z.add 0 _) in *. set (T := sum_values m) in *.
  assert (total * 2 ^ 104 <= S * (2 ^ 52 + 1) ^ 2).
  { apply (Z.mul_le_mono_pos_l _ _ T); [lia|]. lia. }
  unfold INT_MAX in HS.
  change (2 ^ 104) with 20282409603651670423947251286016 in *.
  change ((2 ^ 52 + 1) ^ 2) with 20282409603651679431146506027009 in *. lia.
Qed.

Lemma sum_values_empty : sum_values ∅ = 0.
Proof. unfold sum_values. apply map_fold_empty. Qed.

Lemma sum_values_delete (m : gmap Z Z) k v :
  m !! k = Some v -> sum_values m = sum_values (delete k m) + v.
Proof.
  intros Hk. unfold sum_values.
  rewrite (map_fold_delete_L (fun _ v acc => acc + v) 0 k v m); [done| |done].
  intros. lia.
Qed.

Lemma sum_values_insert (m : gmap Z Z) k v :
  m !! k = None -> sum_values (<[k := v]> m) = sum_values m + v.
Proof.
  intros Hk. unfold sum_values.
  rewrite (map_fold_insert_L (fun _ v acc => acc + v) 0 k v m); [done| |done].
  intros. lia.
Qed.

Lemma sum_values_insert_le (m : gmap Z Z) k v :
  map_Forall (fun _ v => 0 <= v) m -> sum_values (<[k := v]> m) <= sum_values m + v.
Proof.
  intros Hm. destruct (m !! k) as [old|] eqn:Hk.
  - rewrite <- insert_delete_eq. rewrite sum_values_insert by apply lookup_delete_eq.
    rewrite (sum_values_delete m k old Hk). pose proof (Hm k old Hk). cbn in *. lia.
  - rewrite sum_values_insert by done. lia.
Qed.

Lemma allocation_of_range totalStock totalDemand demand n :
  10 <= allocation_of totalStock totalDemand demand n <= INT_MAX.
Proof.
  unfold allocation_of. split; [apply Z.le_max_r|].
  apply Z.max_lub; [|by vm_compute].
  destruct (0 <? totalDemand).
  - apply int_of_double_in_int.
  - apply wrap_int_range.
Qed.

(** The table after the first loop: every entry is an [int] of at least
    10, and the entries add up to at most [INT_MAX] per retailer. *)
Lemma first_allocation_bounds totalStock totalDemand demands n (retailers : list Retailer.t) :
  forall (acc : gmap Z Z) (bound : Z),
    map_Forall (fun _ v => 10 <= v <= INT_MAX) acc -> sum_values acc <= bound ->
    let table := fold_left (allocate_step totalStock totalDemand demands n) retailers acc in
    map_Forall (fun _ v => 10 <= v <= INT_MAX) table /\
    sum_values table <= bound + INT_MAX * Z.of_nat (length retailers).
Proof.
  induction retailers as [|r retailers IH]; intros acc bound Hacc Hsum.
  - cbn. split; [exact Hacc|]. lia.
  - cbn [fold_left length].
    pose proof (allocation_of_range totalStock totalDemand
                  (at_key demands (Retailer.id r)) n) as Hv.
    destruct (IH (allocate_step totalStock totalDemand demands n acc r) (bound + INT_MAX))
      as [Hall Hle].
    + unfold allocate_step. by apply map_Forall_insert_2.
    + unfold allocate_step.
      etransitivity; [apply sum_values_insert_le|lia].
      eapply map_Forall_impl; [exact Hacc|]. cbn. intros. lia.
    + split; [exact Hall|]. cbn zeta in Hle. lia.
Qed.

Lemma at_key_delete_others (m : gmap Z Z) k (ids : list Z) :
  k ∉ ids ->
  foldr (fun k' acc => acc + at_key (delete k m) k') 0 ids
  = foldr (fun k' acc => acc + at_key m k') 0 ids.
Proof.
  induction ids as [|k' ids IH]; intros Hk; [done|].
  apply not_elem_of_cons in Hk. destruct Hk as [Hne Hk].
  cbn [foldr]. rewrite (IH Hk). unfold at_key. by rewrite lookup_delete_ne.
Qed.

(** A table read at pairwise distinct keys that make up its domain. *)
Lemma sum_values_keys (ids : list Z) :
  forall m : gmap Z Z,
    NoDup ids -> (forall k, is_Some (m !! k) <-> k ∈ ids) ->
    foldr (fun k acc => acc + at_key m k) 0 ids = sum_values m.
Proof.
  induction ids as [|k ids IH]; intros m Hnd Hdom.
  - assert (m = ∅) as ->.
    { apply map_empty. intros i. apply eq_None_not_Some. rewrite Hdom. apply not_elem_of_nil. }
    by rewrite sum_values_empty.
  - apply NoDup_cons in Hnd. destruct Hnd as [Hk Hnd].
    destruct (proj2 (Hdom k) ltac:(left)) as [v Hv].
    cbn [foldr]. rewrite (sum_values_delete m k v Hv).
    rewrite <- (IH (delete k m) Hnd).
    + rewrite (at_key_delete_others m k ids Hk). unfold at_key at 2. by rewrite Hv.
    + intros k'. rewrite lookup_delete_is_Some, Hdom. rewrite elem_of_cons.
      split; [intros [Hne [->|H]]; done|]. intros Hin. split; [by intros ->|by right].
Qed.

Lemma allocation_keys totalStock totalDemand demands n (retailers : list Retailer.t) :
  forall (acc : gmap Z Z) k,
    is_Some (fold_left (allocate_step totalStock totalDemand demands n) retailers acc !! k)
    <-> is_Some (acc !! k) \/ k ∈ (Retailer.id <$> retailers).
Proof.
  induction retailers as [|r retailers IH]; intros acc k.
  - cbn. rewrite elem_of_nil. tauto.
  - cbn [fold_left]. rewrite IH. unfold allocate_step. rewrite lookup_insert_is_Some'.
    rewrite fmap_cons, elem_of_cons. intuition congruence.
Qed.

Lemma adjust_keys totalStock (m : gmap Z Z) k :
  is_Some (adjust totalStock m !! k) <-> is_Some (m !! k).
Proof.
  unfold adjust. destruct (PrimFloat.ltb _ _); [|done].
  rewrite lookup_fmap. apply fmap_is_Some.
Qed.

(** C10. For a product whose stock is not negative and fewer than 4194304
    retailers, whatever the history: after the first loop every entry of
    the allocation table is an [int] of at least 10, and the [double] sum
    of the entries is their sum exactly. The final entries, computed in
    the program's own [int] and [double] arithmetic, add up to at most the
    stock; so do the final allocations of the retailers when the
    retailers' ids are pairwise distinct. When the entries after the
    first loop already fit the stock the adjustment leaves them as they
    are. [optimizeInventory] displays this table whenever the product is
    found and there is a retailer. *)
Theorem allocation_within_stock :
  (forall (product : Product.t) (retailers : list Retailer.t) (history : list Transaction.t),
      0 <= Product.stock product <= INT_MAX ->
      Z.of_nat (length retailers) < 4194304 ->
      let first := first_allocation product retailers history in
      let final := allocate product retailers history in
      map_Forall (fun _ v => 10 <= v <= INT_MAX) first /\
      sum_doubles first = double_of_int (sum_values first) /\
      sum_values final <= Product.stock product /\
      (sum_values first <= Product.stock product -> final = first) /\
      (NoDup (Retailer.id <$> retailers) ->
       foldr (fun r acc => acc + at_key final (Retailer.id r)) 0 retailers
       <= Product.stock product)) /\
  (forall show productId implement (sys : ProductionPlanningSystem.t) w pi product,
      findProduct productId sys = Some (pi, product) -> retailers sys <> [] ->
      exists advice,
        displayed (fst (fst (optimizeInventory show productId implement sys w)))
        = Some advice /\
        advice_allocation advice = allocate product (retailers sys) (transactions sys)).
Proof.
  split.
  - intros product retailers history Hstock Hn first final.
    destruct (first_allocation_bounds (Product.stock product)
                (sum_ints (retailerDemand (Product.id product) history))
                (retailerDemand (Product.id product) history) (length retailers) retailers
                ∅ 0 (map_Forall_empty _) ltac:(by rewrite sum_values_empty))
      as [Hall Hsum].
    cbn zeta in Hall, Hsum. fold (first_allocation product retailers history) in Hall, Hsum.
    fold first in Hall, Hsum.
    assert (H53 : sum_values first < 2 ^ 53).
    { unfold INT_MAX in Hsum. change (2 ^ 53) with 9007199254740992. lia. }
    destruct (adjust_spec (Product.stock product) first Hstock) as [Hle Hid]; [|exact H53|].
    { eapply map_Forall_impl; [exact Hall|]. cbn. intros. lia. }
    fold (allocate product retailers history) in Hle, Hid. fold final in Hle, Hid.
    split; [exact Hall|]. split.
    { apply sum_doubles_table; [|exact H53].
      eapply map_Forall_impl; [exact Hall|]. cbn. intros. lia. }
    split; [exact Hle|]. split; [exact Hid|].
    intros Hnd.
    rewrite <- (foldr_fmap (fun k acc => acc + at_key final k) 0 retailers Retailer.id).
    rewrite (sum_values_keys _ _ Hnd); [exact Hle|].
    intros k. unfold final, allocate, first_allocation. rewrite adjust_keys, allocation_keys.
    rewrite lookup_empty. split; [intros [[? [=]]|H]; exact H|by right].
  - intros show productId implement sys w pi product Hfind Hne.
    unfold optimizeInventory. rewrite Hfind.
    assert (products sys <> []) as Hp.
    { intros E. unfold findProduct in Hfind. rewrite E in Hfind. discriminate. }
    destruct (products sys) as [|p ps]; [done|]. destruct (retailers sys) as [|r rs] eqn:Er; [done|].
    cbn [length Nat.eqb orb]. cbn zeta.
    destruct (Ascii.eqb implement "y" || Ascii.eqb implement "Y")%bool.
    + unfold bind. destruct (Blockchain.addBlock _ (blockchain sys) w) as [[chain|e] w'];
        cbn; eexists; split; reflexivity.
    + cbn. eexists; split; reflexivity.
Qed.

(** C10, witness: 25 units among three retailers without history; the
    minimum gives 10 each, the adjustment 8 each. *)
Lemma allocation_within_stock_witness :
  let product := Product.mk 1 "Rice" 5.5 25 in
  let retailers := [sample_shop 1; sample_shop 2; sample_shop 3] in
  let first := first_allocation product retailers [] in
  let final := allocate product retailers [] in
  (map_to_list first = [(3, 10); (2, 10); (1, 10)] /\
   map_to_list final = [(3, 8); (2, 8); (1, 8)]) /\
  map_Forall (fun _ v => 10 <= v <= INT_MAX) first /\
  sum_doubles first = double_of_int (sum_values first) /\
  sum_values final <= 25 /\
  (sum_values first <= 25 -> final = first) /\
  (NoDup (Retailer.id <$> retailers) ->
   foldr (fun r acc => acc + at_key final (Retailer.id r)) 0 retailers <= 25).
Proof.
  intros product retailers first final.
  split; [split; vm_compute; reflexivity|].
  apply (proj1 allocation_within_stock product retailers []).
  - cbn. unfold INT_MAX. lia.
  - cbn. lia.
Defined.

(** C10, counterexample: after a failed restore a product with 25 units
    and three retailers are added; the ledger being empty, the retailers
    all get the id 4. The table has the one entry 10 for that id, which
    fits the stock, and each of the three retailers is allocated these 10
    units: 30 of 25. *)
Lemma allocation_counts_a_repeated_id :
  products crowded_system = [Product.mk 4 "Rice" 5.5 25] /\
  Retailer.id <$> retailers crowded_system = [4; 4; 4] /\
  exists advice,
    displayed (fst (fst (optimizeInventory fixed2 4 "n" crowded_system sample_world)))
    = Some advice /\
    map_to_list (advice_allocation advice) = [(4, 10)] /\
    foldr (fun r acc => acc + at_key (advice_allocation advice) (Retailer.id r)) 0
          (retailers crowded_system) = 30.
Proof.
  split; [reflexivity|]. split; [reflexivity|].
  eexists. split; [vm_compute; reflexivity|]. split; vm_compute; reflexivity.
Qed.

(** The shares come out as the program computes them: of 90 units, the
    retailer with 7 tenths of the demand is given 62, since the quotient
    7 / 10 in [double] is below 0.7. *)
Example allocation_in_double_arithmetic :
  map_to_list (allocate (Product.mk 1 "Rice" 5.5 90) [sample_shop 1; sample_shop 2]
                        [completed_order 1 1 7; completed_order 2 2 3])
  = [(2, 27); (1, 62)].
Proof. vm_compute. reflexivity. Qed.

(* ===================================================================== *)
(** ** The route optimizer *)
(* ===================================================================== *)

Import Router.

(** *** The order of doubles

    [<] on doubles is [SFcompare] giving [Lt]; it is a strict order, and
    a double that is not below [z] while something below [z] exists is
    comparable with everything. *)
Lemma compare_cont_Eq m1 m2 : PosDef.Pos.compare_cont Eq m1 m2 = Pos.compare m1 m2.
Proof. reflexivity. Qed.

Ltac sf_cases :=
  repeat match goal with
         | x : spec_float |- _ => destruct x as [[]|[]| |[] ? ?]
         end;
  unfold SFlt, SFcompare; try rewrite !compare_cont_Eq;
  try discriminate; try reflexivity; try (intros; discriminate).

Ltac sf_norm :=
  repeat match goal with
         | |- context [PosDef.Pos.compare_cont Eq ?a ?b] =>
             change (PosDef.Pos.compare_cont Eq a b) with (Pos.compare a b)
         | H : context [PosDef.Pos.compare_cont Eq ?a ?b] |- _ =>
             change (PosDef.Pos.compare_cont Eq a b) with (Pos.compare a b) in H
         end.

Ltac sf_arith :=
  sf_norm;
  repeat match goal with
         | |- context [Z.compare ?a ?b] => destruct (Z.compare_spec a b); subst
         | H : context [Z.compare ?a ?b] |- _ => destruct (Z.compare_spec a b); subst
         end;
  repeat match goal with
         | |- context [Pos.compare ?a ?b] => destruct (Pos.compare_spec a b); subst
         | H : context [Pos.compare ?a ?b] |- _ => destruct (Pos.compare_spec a b); subst
         end;
  cbn in *; try discriminate; try reflexivity; try lia; try congruence.

Lemma SFlt_irrefl x : ~ SFlt x x.
Proof. sf_cases; intros H; sf_arith. Qed.

Lemma SFlt_trans x y z : SFlt x y -> SFlt y z -> SFlt x z.
Proof. sf_cases; intros H1 H2; sf_arith. Qed.

Lemma SFlt_neg_trans x y z w : SFlt x z -> ~ SFlt y z -> SFlt y w -> SFlt x y.
Proof. sf_cases; intros H1 H2 H3; sf_arith; try (exfalso; apply H2; sf_arith). Qed.

Lemma ltb_SFlt x y : PrimFloat.ltb x y = true <-> SFlt (Prim2SF x) (Prim2SF y).
Proof.
  rewrite FloatAxioms.ltb_spec. unfold SFltb, SFlt.
  destruct (SFcompare _ _) as [[]|]; split; congruence.
Qed.

Lemma ltb_irrefl x : PrimFloat.ltb x x = false.
Proof.
  destruct (PrimFloat.ltb x x) eqn:E; [|done].
  apply ltb_SFlt in E. by apply SFlt_irrefl in E.
Qed.

Lemma ltb_trans x y z :
  PrimFloat.ltb x y = true -> PrimFloat.ltb y z = true -> PrimFloat.ltb x z = true.
Proof. rewrite !ltb_SFlt. apply SFlt_trans. Qed.

Lemma ltb_neg_trans x y z w :
  PrimFloat.ltb x z = true -> PrimFloat.ltb y z = false -> PrimFloat.ltb y w = true ->
  PrimFloat.ltb x y = true.
Proof.
  intros H1 H2 H3. apply ltb_SFlt. apply ltb_SFlt in H1, H3.
  eapply SFlt_neg_trans; [exact H1| |exact H3].
  intros H. apply ltb_SFlt in H. congruence.
Qed.

(** *** Magnitudes: doubles that stay small *)

Lemma mag_weaken (s : bool) (k k' : Z) (x : spec_float) : k <= k' -> mag s k x -> mag s k' x.
Proof. intros Hk. destruct x as [| | |s' m e]; cbn; try done. intros [-> H]. split; [done|lia]. Qed.

Lemma binary_round_mag (s : bool) (m : positive) (e k : Z) :
  Zpos (digits2_pos m) + e <= k -> -1074 <= k <= 970 ->
  mag s (k + 1) (binary_round prec emax s m e).
Proof.
  intros Hk Hrange. unfold binary_round.
  set (t := SpecFloat.fexp prec emax (Z.pos (digits2_pos m) + e)).
  destruct (Z_lt_le_dec t e) as [Hlt|Hge].
  - destruct (shl_align_spec m e t ltac:(lia)) as (Hfst & Hsnd).
    destruct (shl_align m e t) as [mz ez]. cbn [fst snd] in Hfst, Hsnd. subst ez.
    apply round_mag; [lia| |lia].
    rewrite Hfst, Zdigits2_shift by lia.
    change (Zdigits2 (Z.pos m)) with (Z.pos (digits2_pos m)). lia.
  - rewrite shl_align_same by lia. apply round_mag; [lia| |lia]. exact Hk.
Qed.

Lemma binary_normalize_small (m e k : Z) :
  Zdigits2 m + e <= k -> -1074 <= k <= 970 ->
  small (k + 1) (binary_normalize prec emax m e false).
Proof.
  intros Hk Hrange. destruct m as [|p|p]; cbn [binary_normalize].
  - by exists false.
  - exists false. by apply binary_round_mag.
  - exists true. by apply binary_round_mag.
Qed.

Lemma Zdigits2_abs_sum (a b k : Z) :
  0 <= k -> Z.abs a < 2 ^ k -> Z.abs b < 2 ^ k -> Zdigits2 (a + b) <= k + 1.
Proof.
  intros Hk Ha Hb.
  assert (Zdigits2 (a + b) = Zdigits2 (Z.abs (a + b))) as -> by (by destruct (a + b)).
  apply Zdigits2_le; [lia| |lia]. rewrite Z.pow_add_r by lia. lia.
Qed.

Lemma aligned_below (m : positive) (e ez k : Z) :
  ez <= e -> Zpos (digits2_pos m) + e <= k ->
  Zpos (fst (shl_align m e ez)) < 2 ^ (k - ez) /\ 0 <= k - ez.
Proof.
  intros Hez Hk. destruct (shl_align_spec m e ez Hez) as (-> & _).
  pose proof (digits2_pos_bounds m) as [_ Hhi].
  assert (0 < Z.pos (digits2_pos m)) by lia.
  split; [|lia].
  replace (k - ez) with ((k - e) + (e - ez)) by lia. rewrite Z.pow_add_r by lia.
  assert (2 ^ Z.pos (digits2_pos m) <= 2 ^ (k - e)) by (apply Z.pow_le_mono_r; lia).
  assert (0 < 2 ^ (e - ez)) by (apply Z.pow_pos_nonneg; lia). nia.
Qed.

(** Sums and differences. *)
Lemma SFadd_sub_small (k : Z) (x y : spec_float) :
  -1074 <= k <= 968 -> small k x -> small k y ->
  small (k + 2) (SFadd prec emax x y) /\ small (k + 2) (SFsub prec emax x y).
Proof.
  intros Hk [sx Hx] [sy Hy].
  destruct x as [sx'| | |sx' mx ex]; try done; destruct y as [sy'| | |sy' my ey]; try done;
    cbn [mag] in Hx, Hy.
  - split.
    + cbn. destruct sx', sy'; by eexists.
    + cbn. destruct sx', sy'; by eexists.
  - destruct Hy as [-> Hy]. split; eexists; cbn [SFadd SFsub mag]; (split; [reflexivity|lia]).
  - destruct Hx as [-> Hx]. split; eexists; cbn [SFadd SFsub mag]; (split; [reflexivity|lia]).
  - destruct Hx as [-> Hx]. destruct Hy as [-> Hy]. cbn [SFadd SFsub].
    set (ez := Z.min ex ey).
    destruct (aligned_below mx ex ez k ltac:(lia) Hx) as [Hax H0].
    destruct (aligned_below my ey ez k ltac:(lia) Hy) as [Hay _].
    set (ax := Z.pos (fst (shl_align mx ex ez))) in *.
    set (ay := Z.pos (fst (shl_align my ey ez))) in *.
    replace (k + 2) with (k + 1 + 1) by lia.
    split; apply binary_normalize_small; try lia.
    + pose proof (Zdigits2_abs_sum (cond_Zopp sx ax) (cond_Zopp sy ay) (k - ez) H0) as H.
      destruct sx, sy; cbn [cond_Zopp] in *; lia.
    + pose proof (Zdigits2_abs_sum (cond_Zopp sx ax) (- cond_Zopp sy ay) (k - ez) H0) as H.
      unfold Z.sub. destruct sx, sy; cbn [cond_Zopp] in *; lia.
Qed.

Lemma SFadd_nonneg (k : Z) (x y : spec_float) :
  -1074 <= k <= 968 -> mag false k x -> mag false k y ->
  mag false (k + 2) (SFadd prec emax x y).
Proof.
  intros Hk Hx Hy.
  destruct x as [sx| | |sx mx ex]; try done; destruct y as [sy| | |sy my ey]; try done;
    cbn [mag] in Hx, Hy.
  - by subst.
  - destruct Hy as [-> Hy]. cbn. split; [done|lia].
  - destruct Hx as [-> Hx]. cbn. split; [done|lia].
  - destruct Hx as [-> Hx]. destruct Hy as [-> Hy]. cbn [SFadd cond_Zopp].
    set (ez := Z.min ex ey).
    destruct (aligned_below mx ex ez k ltac:(lia) Hx) as [Hax H0].
    destruct (aligned_below my ey ez k ltac:(lia) Hy) as [Hay _].
    pose proof (Zdigits2_abs_sum (Z.pos (fst (shl_align mx ex ez)))
                                 (Z.pos (fst (shl_align my ey ez))) (k - ez) H0
                                 ltac:(lia) ltac:(lia)) as Hd.
    destruct (Z.pos (fst (shl_align mx ex ez)) + Z.pos (fst (shl_align my ey ez)))
      as [|p|p] eqn:E; try lia.
    cbn [binary_normalize]. replace (k + 2) with (k + 1 + 1) by lia.
    apply binary_round_mag; [|lia]. change (Zdigits2 (Z.pos p)) with (Z.pos (digits2_pos p)) in Hd.
    lia.
Qed.

(** Products. *)
Lemma SFmul_mag (sx sy : bool) (k l : Z) (x y : spec_float) :
  -1074 <= k + l <= 970 -> mag sx k x -> mag sy l y ->
  mag (xorb sx sy) (k + l + 1) (SFmul prec emax x y).
Proof.
  intros Hk Hx Hy.
  destruct x as [sx'| | |sx' mx ex]; try done; destruct y as [sy'| | |sy' my ey]; try done;
    cbn [mag] in Hx, Hy; cbn [SFmul mag].
  - by subst.
  - destruct Hy as [-> _]. by subst.
  - destruct Hx as [-> _]. by subst.
  - destruct Hx as [-> Hx]. destruct Hy as [-> Hy].
    apply round_mag; [lia| |lia].
    pose proof (digits2_pos_bounds mx) as [_ Hxh]. pose proof (digits2_pos_bounds my) as [_ Hyh].
    assert (Zdigits2 (Z.pos (mx * my)) <= Z.pos (digits2_pos mx) + Z.pos (digits2_pos my)).
    { apply Zdigits2_le; [lia| |lia]. rewrite Z.pow_add_r, Pos2Z.inj_mul by lia. nia. }
    lia.
Qed.

(** Square roots. *)
Lemma SFsqrt_mag (k : Z) (x : spec_float) :
  1 <= k <= 970 -> mag false k x -> mag false (k + 1) (SFsqrt prec emax x).
Proof.
  intros Hk Hx. destruct x as [s| | |s m e]; try done; cbn [mag] in Hx.
  destruct Hx as [-> Hx]. cbn [SFsqrt]. unfold SFsqrt_core_binary.
  change (Zdigits2 (Z.pos m)) with (Z.pos (digits2_pos m)).
  set (d := Z.pos (digits2_pos m)) in *.
  rewrite !Z.div2_div.
  set (e' := Z.min (SpecFloat.fexp prec emax ((d + e + 1) / 2)) (e / 2)).
  assert (He' : 2 * e' <= e).
  { pose proof (Z.mul_div_le e 2 ltac:(lia)). lia. }
  set (s := e - 2 * e').
  assert (Hm' : match s with Z.pos _ => Z.shiftl (Z.pos m) s | 0 => Z.pos m | Z.neg _ => 0 end
                = Z.pos m * 2 ^ s).
  { destruct s as [|p|p] eqn:Es; [lia| |lia]. by rewrite Z.shiftl_mul_pow2. }
  rewrite Hm'.
  pose proof (Z.sqrtrem_spec (Z.pos m * 2 ^ s)) as Hsq.
  assert (H2s : 0 < 2 ^ s) by (apply Z.pow_pos_nonneg; lia).
  destruct (Z.sqrtrem (Z.pos m * 2 ^ s)) as [q r].
  specialize (Hsq ltac:(lia)). destruct Hsq as [Hsq Hr].
  pose proof (digits2_pos_bounds m) as [_ Hhi]. fold d in Hhi.
  assert (0 < d) by (unfold d; lia).
  set (h := (d + s + 1) / 2).
  assert (Hh : d + s <= 2 * h).
  { unfold h. pose proof (Z.div_mod (d + s + 1) 2 ltac:(lia)).
    pose proof (Z.mod_pos_bound (d + s + 1) 2 ltac:(lia)). lia. }
  assert (Hq : 0 <= q < 2 ^ h).
  { split; [lia|].
    destruct (Z_lt_le_dec q (2 ^ h)) as [|Hge]; [done|].
    assert (2 ^ (d + s) <= 2 ^ (2 * h)) by (apply Z.pow_le_mono_r; lia).
    assert (2 ^ (2 * h) = 2 ^ h * 2 ^ h).
    { rewrite <- Z.pow_add_r by lia. f_equal. lia. }
    assert (Z.pos m * 2 ^ s < 2 ^ (d + s)) by (rewrite Z.pow_add_r by lia; nia).
    assert (0 < 2 ^ h) by (apply Z.pow_pos_nonneg; lia). nia. }
  assert (Hdq : Zdigits2 q + e' <= k).
  { pose proof (Zdigits2_le q h ltac:(lia) ltac:(lia) ltac:(lia)).
    assert (h + e' = (d + e + 1) / 2).
    { unfold h, s. replace (d + (e - 2 * e') + 1) with (d + e + 1 + (- e') * 2) by lia.
      rewrite Z.div_add by lia. lia. }
    assert ((d + e + 1) / 2 <= k) by (apply Z.div_le_upper_bound; lia). lia. }
  apply round_mag; [lia|exact Hdq|lia].
Qed.

(** A coordinate within its range is small. *)
Lemma valid_digits (x : float) (s : bool) (m : positive) (e : Z) :
  Prim2SF x = S754_finite s m e -> Zpos (digits2_pos m) <= 53 /\ e = fexp64 (Zpos (digits2_pos m) + e).
Proof.
  intros E. pose proof (Prim2SF_valid x) as Hv. rewrite E in Hv.
  cbn [valid_binary] in Hv. unfold bounded, canonical_mantissa in Hv.
  apply andb_prop in Hv. destruct Hv as [Hc _]. apply Z.eqb_eq in Hc.
  change (SpecFloat.fexp prec emax) with fexp64 in Hc.
  split; [|lia]. rewrite fexp64_eq in Hc. lia.
Qed.

Lemma between_small (bound x : float) (m : positive) (e : Z) :
  Prim2SF bound = S754_finite false m e ->
  between (- bound) bound x -> small (53 + e) (Prim2SF x).
Proof.
  intros Eb [Hlo Hhi]. rewrite FloatAxioms.leb_spec in Hlo, Hhi.
  rewrite FloatAxioms.opp_spec, Eb in Hlo. rewrite Eb in Hhi. cbn [SFopp negb] in Hlo.
  unfold SFleb in Hlo, Hhi.
  destruct (Prim2SF x) as [s| | |s mx ex] eqn:Ex.
  - by exists s.
  - destruct s; cbn in Hlo, Hhi; discriminate.
  - cbn in Hhi. discriminate.
  - destruct (valid_digits x s mx ex Ex) as [Hd _].
    exists s. cbn [mag]. split; [done|].
    destruct s; cbn [SFcompare] in Hlo, Hhi.
    + destruct (Z.compare_spec e ex); [lia|discriminate|lia].
    + destruct (Z.compare_spec ex e); [lia|lia|discriminate].
Qed.

Lemma placed_small (latitude longitude : float) :
  placed latitude longitude -> small 7 (Prim2SF latitude) /\ small 8 (Prim2SF longitude).
Proof.
  intros [Hlat Hlon]. split.
  - exact (between_small 90 latitude _ _ eq_refl Hlat).
  - exact (between_small 180 longitude _ _ eq_refl Hlon).
Qed.

(** Between two places of the data model [calculateDistance] is a number
    below [DBL_MAX]. *)
Lemma distance_bounded (lat1 lon1 lat2 lon2 : float) :
  placed lat1 lon1 -> placed lat2 lon2 ->
  PrimFloat.ltb (calculateDistance lat1 lon1 lat2 lon2) DBL_MAX = true.
Proof.
  intros H1 H2. destruct (placed_small _ _ H1) as [Hlat1 Hlon1].
  destruct (placed_small _ _ H2) as [Hlat2 Hlon2].
  assert (Hd : mag false 34 (Prim2SF (calculateDistance lat1 lon1 lat2 lon2))).
  { unfold calculateDistance.
    rewrite FloatAxioms.mul_spec, FloatAxioms.sqrt_spec, FloatAxioms.add_spec,
      !FloatAxioms.mul_spec, !FloatAxioms.sub_spec.
    unfold SF64mul, SF64sqrt, SF64add, SF64sub.
    destruct (proj2 (SFadd_sub_small 7 _ _ ltac:(lia) Hlat2 Hlat1)) as [s1 Hdlat].
    destruct (proj2 (SFadd_sub_small 8 _ _ ltac:(lia) Hlon2 Hlon1)) as [s2 Hdlon].
    pose proof (SFmul_mag s1 s1 9 9 _ _ ltac:(lia) Hdlat Hdlat) as Hsq1.
    pose proof (SFmul_mag s2 s2 10 10 _ _ ltac:(lia) Hdlon Hdlon) as Hsq2.
    rewrite xorb_nilpotent in Hsq1, Hsq2.
    apply (mag_weaken _ (9 + 9 + 1) 21 _ ltac:(lia)) in Hsq1.
    apply (mag_weaken _ (10 + 10 + 1) 21 _ ltac:(lia)) in Hsq2.
    pose proof (SFadd_nonneg 21 _ _ ltac:(lia) Hsq1 Hsq2) as Hsum.
    change (21 + 2) with 23 in Hsum.
    pose proof (SFsqrt_mag 23 _ ltac:(lia) Hsum) as Hroot.
    pose proof (SFmul_mag false false 24 7 _ (Prim2SF 111) ltac:(lia) Hroot) as Hmul.
    change (23 + 1) with 24 in Hroot. specialize (Hmul ltac:(by vm_compute)).
    eapply mag_weaken; [|exact Hmul]. cbn. lia. }
  rewrite FloatAxioms.ltb_spec. unfold SFltb.
  destruct (Prim2SF (calculateDistance lat1 lon1 lat2 lon2)) as [s| | |s m e] eqn:E; try done.
  destruct Hd as [-> Hd]. destruct (valid_digits _ _ _ _ E) as [_ He].
  rewrite fexp64_eq in He.
  change (Prim2SF DBL_MAX) with (S754_finite false 9007199254740991 971).
  cbn [SFcompare]. destruct (Z.compare_spec e 971); [lia|done|lia].
Qed.

Lemma placed_legs_bounded (supplier : Supplier.t) (retailers : list Retailer.t) :
  all_placed supplier retailers -> legs_bounded supplier retailers.
Proof.
  intros [Hs Hr]. rewrite Forall_forall in Hr. split.
  - intros r Hin. apply distance_bounded; [exact Hs|by apply Hr].
  - intros i j a b _ Hi Hj. apply distance_bounded; apply Hr; by eapply list_elem_of_lookup_2.
Qed.

(** *** One selection loop *)
Section Scan.

Variable eligible : nat -> bool.
Variable full : list float.
Hypothesis eligible_bounded :
  forall i d, full !! i = Some d -> eligible i = true -> PrimFloat.ltb d DBL_MAX = true.

Abbreviation scanned := (Router.scanned eligible full).

(** One iteration keeps [scanned]. *)
Lemma scanned_step j d minDist index :
  full !! j = Some d -> scanned j minDist index ->
  if eligible j && PrimFloat.ltb d minDist then scanned (S j) d j
  else scanned (S j) minDist index.
Proof.
  intros Hj Hs. destruct (eligible j) eqn:Ej; cbn [andb].
  - destruct (PrimFloat.ltb d minDist) eqn:Hlt.
    + right. split; [lia|]. split; [exact Ej|]. split; [exact Hj|]. split.
      * intros i di Hi Hdi Ei. destruct (decide (i = j)) as [->|Hne].
        { rewrite Hj in Hdi. injection Hdi as <-. apply ltb_irrefl. }
        destruct Hs as [[_ Hnone]|(_ & _ & _ & Hmin & _)].
        { rewrite Hnone in Ei by lia. discriminate. }
        destruct (PrimFloat.ltb di d) eqn:Hc; [|done].
        specialize (Hmin i di ltac:(lia) Hdi Ei). 
        rewrite (ltb_trans _ _ _ Hc Hlt) in Hmin. discriminate.
      * intros i di Hi Hdi Ei.
        destruct Hs as [[_ Hnone]|(_ & _ & _ & Hmin & _)].
        { rewrite Hnone in Ei by lia. discriminate. }
        eapply ltb_neg_trans; [exact Hlt| |].
        -- apply (Hmin i di); [lia|exact Hdi|exact Ei].
        -- exact (eligible_bounded i di Hdi Ei).
    + destruct Hs as [[-> Hnone]|(Hidx & Eidx & Hfull & Hmin & Hfirst)].
      * rewrite (eligible_bounded j d Hj Ej) in Hlt. discriminate.
      * right. split; [lia|]. split; [exact Eidx|]. split; [exact Hfull|]. split; [|exact Hfirst].
        intros i di Hi Hdi Ei. destruct (decide (i = j)) as [->|Hne].
        { rewrite Hj in Hdi. by injection Hdi as <-. }
        apply (Hmin i di); [lia|exact Hdi|exact Ei].
  - destruct Hs as [[-> Hnone]|(Hidx & Eidx & Hfull & Hmin & Hfirst)].
    + left. split; [done|]. intros i Hi. destruct (decide (i = j)) as [->|Hne]; [exact Ej|].
      apply Hnone. lia.
    + right. split; [lia|]. split; [exact Eidx|]. split; [exact Hfull|]. split; [|exact Hfirst].
      intros i di Hi Hdi Ei. destruct (decide (i = j)) as [->|Hne]; [congruence|].
      apply (Hmin i di); [lia|exact Hdi|exact Ei].
Qed.

Lemma scan_scanned rest :
  forall done minDist index,
    full = done ++ rest -> scanned (length done) minDist index ->
    exists minDist', scanned (length full) minDist' (scan eligible rest (length done) minDist index).
Proof.
  induction rest as [|d rest IH]; intros done minDist index Hfull Hs.
  - rewrite app_nil_r in Hfull. subst done. exists minDist. exact Hs.
  - cbn [scan].
    assert (Hj : full !! length done = Some d).
    { rewrite Hfull. rewrite lookup_app_r by lia. by rewrite Nat.sub_diag. }
    pose proof (scanned_step _ _ _ _ Hj Hs) as Hstep.
    assert (Hfull' : full = (done ++ [d]) ++ rest) by (by rewrite <- app_assoc).
    assert (Hlen : length (done ++ [d]) = S (length done)).
    { rewrite length_app. cbn. lia. }
    destruct (eligible (length done) && PrimFloat.ltb d minDist).
    + rewrite <- Hlen. apply (IH (done ++ [d])); [exact Hfull'|]. by rewrite Hlen.
    + rewrite <- Hlen. apply (IH (done ++ [d])); [exact Hfull'|]. by rewrite Hlen.
Qed.

(** With an eligible position the loop ends on the first nearest one. *)
Lemma scan_first_nearest :
  (exists i, (i < length full)%nat /\ eligible i = true) ->
  first_nearest (at1 full) (fun j => eligible j = true) (length full)
                (scan eligible full O DBL_MAX O).
Proof.
  intros (i0 & Hi0 & Ei0).
  destruct (scan_scanned full [] DBL_MAX O eq_refl) as [minDist Hs].
  { left. split; [done|]. intros i Hi. cbn in Hi. lia. }
  cbn [length] in Hs.
  destruct Hs as [[_ Hnone]|(Hidx & Eidx & Hfull & Hmin & Hfirst)].
  { rewrite Hnone in Ei0 by done. discriminate. }
  set (s := scan eligible full O DBL_MAX O) in *.
  split; [exact Hidx|]. split; [exact Eidx|]. unfold at1. rewrite Hfull. cbn [default]. split.
  - intros j Hj Ej. destruct (lookup_lt_is_Some_2 full j Hj) as [d Hd]. rewrite Hd.
    exact (Hmin j d Hj Hd Ej).
  - intros j Hj Ej. assert (j < length full)%nat as Hj' by lia.
    destruct (lookup_lt_is_Some_2 full j Hj') as [d Hd]. rewrite Hd.
    exact (Hfirst j d Hj Hd Ej).
Qed.

End Scan.

(** *** Indices and identifiers *)
Lemma fresh_index (l : list nat) (n : nat) :
  NoDup l -> Forall (fun j => (j < n)%nat) l -> (length l < n)%nat ->
  exists j, (j < n)%nat /\ j ∉ l.
Proof.
  intros Hnd Hall Hlen.
  destruct (decide (Exists (fun j => j ∉ l) (seq 0 n))) as [He|Hn].
  - apply Exists_exists in He. destruct He as (j & Hj & Hnot).
    exists j. split; [|exact Hnot]. apply elem_of_seq in Hj. lia.
  - exfalso. apply not_Exists_Forall in Hn; [|intros j; apply _].
    assert (seq 0 n ⊆+ l) as Hsub.
    { apply NoDup_submseteq; [apply NoDup_seq|]. intros j Hj.
      rewrite Forall_forall in Hn. specialize (Hn j Hj). cbn in Hn.
      by destruct (decide (j ∈ l)). }
    apply submseteq_length in Hsub. rewrite length_seq in Hsub. lia.
Qed.

Lemma omap_cons_Some {A B} (f : A -> option B) a l r :
  f a = Some r -> omap f (a :: l) = r :: omap f l.
Proof. intros H. cbn. by rewrite H. Qed.

Lemma visits_of_seq (rs pre : list Retailer.t) :
  omap (fun s => (pre ++ rs) !! s) (seq (length pre) (length rs)) = rs.
Proof.
  revert pre. induction rs as [|r rs IH]; intros pre; [done|].
  cbn [length seq]. rewrite (omap_cons_Some _ _ _ r) by (by apply list_lookup_middle).
  f_equal. specialize (IH (pre ++ [r])). rewrite <- app_assoc in IH. cbn [app] in IH.
  rewrite length_app in IH. cbn [length] in IH. by rewrite Nat.add_1_r in IH.
Qed.

Lemma index_ids_other (rs : list Retailer.t) :
  forall k (m : gmap Z nat) id,
    id ∉ (Retailer.id <$> rs) -> index_ids rs k m !! id = m !! id.
Proof.
  induction rs as [|r rs IH]; intros k m id Hid; [done|].
  rewrite fmap_cons in Hid. apply not_elem_of_cons in Hid. destruct Hid as [Hne Hid].
  cbn [index_ids]. rewrite (IH _ _ _ Hid). by rewrite lookup_insert_ne.
Qed.

Lemma index_ids_lookup (rs : list Retailer.t) :
  forall k (m : gmap Z nat) i r,
    NoDup (Retailer.id <$> rs) -> rs !! i = Some r ->
    index_ids rs k m !! Retailer.id r = Some (k + i)%nat.
Proof.
  induction rs as [|r0 rs IH]; intros k m i r Hnd Hi; [done|].
  rewrite fmap_cons in Hnd. apply NoDup_cons in Hnd. destruct Hnd as [Hr0 Hnd].
  cbn [index_ids]. destruct i as [|i].
  - injection Hi as <-. rewrite (index_ids_other _ _ _ _ Hr0).
    rewrite lookup_insert_eq. f_equal. lia.
  - cbn in Hi. rewrite (IH (S k) _ i r Hnd Hi). f_equal. lia.
Qed.

(** *** The greedy loop and the total *)
Section Route.

Variable supplier : Supplier.t.
Variable retailers : list Retailer.t.
Hypothesis ids_distinct : NoDup (Retailer.id <$> retailers).
Hypothesis bounded : legs_bounded supplier retailers.

Let n := length retailers.
Let D := distance_matrix retailers.
Let ids := Retailer.id <$> retailers.
Let idx := index_ids retailers O ∅.
Let id_at := fun s : nat => default 0 (ids !! s).

Lemma row_lookup cur r_cur j r_j :
  retailers !! cur = Some r_cur -> retailers !! j = Some r_j ->
  default [] (D !! cur) !! j
  = Some (if (cur =? j)%nat then PrimFloat.zero else distance_between r_cur r_j).
Proof.
  intros Hc Hj. unfold D, distance_matrix.
  rewrite list_lookup_imap, Hc. cbn. by rewrite list_lookup_imap, Hj.
Qed.

Lemma row_length cur : (cur < n)%nat -> length (default [] (D !! cur)) = n.
Proof.
  intros Hc. destruct (lookup_lt_is_Some_2 retailers cur Hc) as [r Hr].
  unfold D, distance_matrix. rewrite list_lookup_imap, Hr. cbn. apply length_imap.
Qed.

Lemma at2_leg i j : (i < n)%nat -> (j < n)%nat -> i <> j -> at2 D i j = leg retailers i j.
Proof.
  intros Hi Hj Hne.
  destruct (lookup_lt_is_Some_2 retailers i Hi) as [ri Hri].
  destruct (lookup_lt_is_Some_2 retailers j Hj) as [rj Hrj].
  unfold at2, at1, leg. rewrite (row_lookup i ri j rj Hri Hrj), Hri, Hrj. cbn.
  destruct (Nat.eqb_spec i j); [done|reflexivity].
Qed.

Lemma id_at_lookup s r : retailers !! s = Some r -> id_at s = Retailer.id r.
Proof. intros Hs. unfold id_at, ids. by rewrite list_lookup_fmap, Hs. Qed.

Lemma index_of_id s r : retailers !! s = Some r -> index_of idx (Retailer.id r) = s.
Proof.
  intros Hs. unfold index_of, idx.
  by rewrite (index_ids_lookup retailers O ∅ s r ids_distinct Hs).
Qed.

(** [k] rounds from the stops [done], the last of them [cur]: [k] new
    stops, all different, each the first nearest unvisited one. *)
Lemma greedy_spec k :
  forall route visited cur done,
    last done = Some cur -> NoDup done -> Forall (fun j => (j < n)%nat) done ->
    length visited = n ->
    (forall j, default false (visited !! j) = true <-> j ∈ done) ->
    route = id_at <$> done ->
    (length done + k = n)%nat ->
    exists more,
      greedy k D ids route visited cur = id_at <$> (done ++ more) /\
      NoDup (done ++ more) /\ Forall (fun j => (j < n)%nat) (done ++ more) /\
      length more = k /\ greedy_from retailers done cur more.
Proof.
  induction k as [|k IH]; intros route visited cur done Hlast Hnd Hall Hlen Hvis Hroute Hk.
  - exists []. rewrite app_nil_r. cbn. done.
  - cbn [greedy]. set (s := nearest_unvisited D visited cur).
    assert (Hcur_in : cur ∈ done).
    { rewrite last_lookup in Hlast. by eapply list_elem_of_lookup_2. }
    assert (Hcur : (cur < n)%nat).
    { rewrite Forall_forall in Hall. by apply Hall. }
    destruct (lookup_lt_is_Some_2 retailers cur Hcur) as [r_cur Hr_cur].
    set (eligible := fun j => negb (default false (visited !! j))).
    assert (Hel : forall j, eligible j = true <-> j ∉ done).
    { intros j. unfold eligible. rewrite <- Hvis.
      destruct (default false (visited !! j)); cbn; split; congruence. }
    pose proof (row_length cur Hcur) as Hrow.
    assert (Hfn : first_nearest (at1 (default [] (D !! cur))) (fun j => eligible j = true)
                                (length (default [] (D !! cur))) s).
    { apply scan_first_nearest.
      - intros i d Hi Ei. assert (i < n)%nat as Hin.
        { rewrite <- Hrow. by eapply lookup_lt_Some. }
        destruct (lookup_lt_is_Some_2 retailers i Hin) as [r_i Hr_i].
        rewrite (row_lookup cur r_cur i r_i Hr_cur Hr_i) in Hi. injection Hi as <-.
        assert (cur <> i) as Hne.
        { intros ->. apply Hel in Ei. done. }
        destruct (Nat.eqb_spec cur i); [done|].
        exact (proj2 bounded cur i r_cur r_i Hne Hr_cur Hr_i).
      - destruct (fresh_index done n Hnd Hall ltac:(lia)) as (j & Hj & Hnot).
        exists j. rewrite Hrow. split; [exact Hj|]. by apply Hel. }
    rewrite Hrow in Hfn. destruct Hfn as (Hs & Es & Hmin & Hfirst).
    apply Hel in Es.
    assert (Hs_ne : cur <> s) by (intros E; apply Es; rewrite <- E; exact Hcur_in).
    assert (Hfn' : first_nearest (leg retailers cur) (fun j => j ∉ done) n s).
    { split; [exact Hs|]. split; [exact Es|]. split.
      - intros j Hj Ej. assert (cur <> j) by (intros ->; done).
        rewrite <- !at2_leg by done. apply Hmin; [exact Hj|by apply Hel].
      - intros j Hj Ej. assert (cur <> j) by (intros ->; done).
        rewrite <- !at2_leg by (done || lia). apply Hfirst; [exact Hj|by apply Hel]. }
    destruct (IH (route ++ [default 0 (ids !! s)]) (<[s := true]> visited) s (done ++ [s]))
      as (more & Hg & Hnd' & Hall' & Hlen' & Hgf).
    + apply last_snoc.
    + apply NoDup_app. split; [exact Hnd|]. split; [|apply NoDup_singleton].
      intros x Hx Hx'. apply list_elem_of_singleton in Hx'. by subst x.
    + apply Forall_app. split; [exact Hall|]. by constructor.
    + by rewrite length_insert.
    + intros j. rewrite elem_of_app, list_elem_of_singleton, <- Hvis.
      destruct (decide (j = s)) as [->|Hne].
      * rewrite list_lookup_insert_eq by lia. cbn. tauto.
      * rewrite list_lookup_insert_ne by done. split; [tauto|]. intros [H|H]; done.
    + rewrite fmap_app, Hroute. reflexivity.
    + rewrite length_app. cbn. lia.
    + exists (s :: more). rewrite (cons_middle s done more), app_assoc.
      split; [exact Hg|]. split; [exact Hnd'|]. split; [exact Hall'|].
      split; [cbn; lia|]. cbn [greedy_from]. split; [exact Hfn'|exact Hgf].
Qed.

Lemma visits_of_cons s r stops :
  retailers !! s = Some r -> visits_of retailers (s :: stops) = r :: visits_of retailers stops.
Proof. intros H. unfold visits_of. by apply omap_cons_Some. Qed.

(** The loop over the route adds the legs between consecutive stops. *)
Lemma add_legs_spec stops :
  forall total,
    NoDup stops -> Forall (fun j => (j < n)%nat) stops ->
    add_legs D idx (id_at <$> stops) total
    = fold_left PrimFloat.add (legs_between (visits_of retailers stops)) total.
Proof.
  induction stops as [|a [|b rest] IH]; intros total Hnd Hall; [done| |].
  - apply Forall_cons in Hall. destruct Hall as [Ha _].
    destruct (lookup_lt_is_Some_2 retailers a Ha) as [ra Hra].
    by rewrite (visits_of_cons a ra [] Hra).
  - pose proof Hall as Hall0. pose proof Hnd as Hnd0.
    apply Forall_cons in Hall. destruct Hall as [Ha Hall].
    pose proof Hall as Hall1. apply Forall_cons in Hall1. destruct Hall1 as [Hb _].
    apply NoDup_cons in Hnd. destruct Hnd as [Hab Hnd].
    destruct (lookup_lt_is_Some_2 retailers a Ha) as [ra Hra].
    destruct (lookup_lt_is_Some_2 retailers b Hb) as [rb Hrb].
    assert (a <> b) as Hne by (intros ->; apply Hab; left).
    rewrite (visits_of_cons a ra _ Hra).
    specialize (IH (total + distance_between ra rb)%float Hnd Hall).
    rewrite (visits_of_cons b rb _ Hrb) in IH |- *.
    change (legs_between (ra :: rb :: visits_of retailers rest))
      with (distance_between ra rb :: legs_between (rb :: visits_of retailers rest)).
    cbn [fold_left]. rewrite <- IH. rewrite !fmap_cons.
    change (add_legs D idx (id_at a :: id_at b :: (id_at <$> rest)) total)
      with (add_legs D idx (id_at b :: (id_at <$> rest))
              (total + at2 D (index_of idx (id_at a)) (index_of idx (id_at b)))%float).
    rewrite (id_at_lookup a ra Hra), (id_at_lookup b rb Hrb).
    rewrite (index_of_id a ra Hra), (index_of_id b rb Hrb).
    rewrite (at2_leg a b Ha Hb Hne). unfold leg. rewrite Hra, Hrb. reflexivity.
Qed.

Lemma visits_ids stops :
  Forall (fun j => (j < n)%nat) stops ->
  id_at <$> stops = Retailer.id <$> visits_of retailers stops.
Proof.
  induction stops as [|a stops IH]; intros Hall; [done|].
  apply Forall_cons in Hall. destruct Hall as [Ha Hall].
  destruct (lookup_lt_is_Some_2 retailers a Ha) as [ra Hra].
  rewrite (visits_of_cons a ra _ Hra), !fmap_cons, (IH Hall).
  by rewrite (id_at_lookup a ra Hra).
Qed.

(** Stops that are all different and as many as the retailers are all the
    retailers. *)
Lemma visits_all stops :
  NoDup stops -> Forall (fun j => (j < n)%nat) stops -> length stops = n ->
  visits_of retailers stops ≡ₚ retailers.
Proof.
  intros Hnd Hall Hlen.
  assert (stops ≡ₚ seq 0 n) as Hperm.
  { apply submseteq_length_Permutation.
    - apply NoDup_submseteq; [exact Hnd|]. intros j Hj. apply elem_of_seq.
      rewrite Forall_forall in Hall. specialize (Hall j Hj). cbn in Hall. lia.
    - rewrite length_seq. lia. }
  unfold visits_of. rewrite Hperm.
  pose proof (visits_of_seq retailers []) as H. cbn in H. fold n in H. by rewrite H.
Qed.

(** The body of [optimizeDistributionRoute] after its two checks. *)
Lemma route_spec :
  (2 <= n)%nat ->
  let supplierDistances : list float := distance_from supplier <$> retailers in
  let s0 := nearest_to_supplier supplierDistances in
  exists more,
    let stops := s0 :: more in
    let route := greedy (n - 1) D ids [default 0 (ids !! s0)]
                        (<[s0 := true]> (repeat false n)) s0 in
    route = Retailer.id <$> visits_of retailers stops /\
    visits_of retailers stops ≡ₚ retailers /\
    first_nearest (leg_from supplier retailers) (fun _ => True) n s0 /\
    greedy_from retailers [s0] s0 more /\
    (let total :=
       add_legs D idx route (at1 supplierDistances (index_of idx (default 0 (head route)))) in
     match retailers !! index_of idx (default 0 (last route)) with
     | Some r => PrimFloat.add total (distance_to supplier r)
     | None => total
     end) = tour_length supplier (visits_of retailers stops).
Proof.
  intros Hn sd s0.
  assert (Hsd_len : length sd = n) by (unfold sd; by rewrite length_fmap).
  assert (Hsd : forall j r, retailers !! j = Some r -> sd !! j = Some (distance_from supplier r)).
  { intros j r Hj. unfold sd. by rewrite list_lookup_fmap, Hj. }
  assert (Hfn0 : first_nearest (at1 sd) (fun j => true = true) (length sd) s0).
  { apply scan_first_nearest.
    - intros i d Hi _. unfold sd in Hi. rewrite list_lookup_fmap in Hi.
      destruct (retailers !! i) as [r|] eqn:Hr; [|done]. injection Hi as <-.
      apply (proj1 bounded). by eapply list_elem_of_lookup_2.
    - exists O. split; [lia|done]. }
  rewrite Hsd_len in Hfn0. destruct Hfn0 as (Hs0 & _ & Hmin & Hfirst).
  assert (Hat : forall j, (j < n)%nat -> at1 sd j = leg_from supplier retailers j).
  { intros j Hj. destruct (lookup_lt_is_Some_2 retailers j Hj) as [r Hr].
    unfold at1, leg_from. by rewrite (Hsd j r Hr), Hr. }
  destruct (greedy_spec (n - 1) [default 0 (ids !! s0)] (<[s0 := true]> (repeat false n)) s0 [s0])
    as (more & Hg & Hnd & Hall & Hlen & Hgf).
  { done. }
  { apply NoDup_singleton. }
  { by constructor. }
  { by rewrite length_insert, repeat_length. }
  { intros j. rewrite list_elem_of_singleton. destruct (decide (j = s0)) as [->|Hne].
    - rewrite list_lookup_insert_eq by (by rewrite repeat_length). done.
    - rewrite list_lookup_insert_ne by done. split; [|done].
      destruct (repeat false n !! j) as [b|] eqn:Hb; [|done].
      apply list_elem_of_lookup_2, list_elem_of_In, repeat_spec in Hb. by subst b. }
  { done. }
  { cbn. lia. }
  exists more. cbn zeta. cbn [app] in Hg, Hnd, Hall.
  destruct (lookup_lt_is_Some_2 retailers s0 Hs0) as [r0 Hr0].
  rewrite Hg. split; [by apply visits_ids|]. split.
  { apply visits_all; [exact Hnd|exact Hall|]. cbn. lia. }
  split.
  { split; [exact Hs0|]. split; [done|]. split.
    - intros j Hj _. rewrite <- !Hat by done. by apply Hmin.
    - intros j Hj _. rewrite <- !Hat by (done || lia). by apply Hfirst. }
  split; [exact Hgf|].
  (* the total distance *)
  rewrite (add_legs_spec (s0 :: more) _ Hnd Hall).
  change (default 0 (head (id_at <$> s0 :: more))) with (id_at s0).
  rewrite (id_at_lookup s0 r0 Hr0), (index_of_id s0 r0 Hr0).
  unfold at1. rewrite (Hsd s0 r0 Hr0).
  change (default 0%float (Some (distance_from supplier r0))) with (distance_from supplier r0).
  (* the last stop *)
  assert (exists sl rl, last (s0 :: more) = Some sl /\ retailers !! sl = Some rl) as (sl & rl & Hl & Hrl).
  { destruct (last (s0 :: more)) as [sl|] eqn:Hl; [|by apply last_None in Hl].
    assert (sl ∈ s0 :: more) as Hin.
    { rewrite last_lookup in Hl. by eapply list_elem_of_lookup_2. }
    rewrite Forall_forall in Hall. specialize (Hall sl Hin). cbn in Hall.
    destruct (lookup_lt_is_Some_2 retailers sl Hall) as [rl Hrl]. eauto. }
  rewrite fmap_last, Hl.
  change (default 0 (id_at <$> Some sl)) with (id_at sl).
  rewrite (id_at_lookup sl rl Hrl), (index_of_id sl rl Hrl), Hrl.
  unfold tour_length. rewrite (visits_of_cons s0 r0 more Hr0).
  rewrite <- (visits_of_cons s0 r0 more Hr0).
  assert (last (visits_of retailers (s0 :: more)) = Some rl) as ->.
  { clear -Hl Hrl Hall. revert Hl Hall. generalize (s0 :: more) as stops.
    induction stops as [|a [|b rest] IH]; intros Hl Hall; [done| |].
    - cbn in Hl. injection Hl as ->. by rewrite (visits_of_cons sl rl [] Hrl).
    - apply Forall_cons in Hall. destruct Hall as [Ha Hall].
      pose proof Hall as Hall1. apply Forall_cons in Hall1. destruct Hall1 as [Hb _].
      destruct (lookup_lt_is_Some_2 retailers a Ha) as [ra Hra].
      destruct (lookup_lt_is_Some_2 retailers b Hb) as [rb Hrb].
      rewrite (visits_of_cons a ra _ Hra).
      rewrite last_cons_cons in Hl. specialize (IH Hl Hall).
      rewrite (visits_of_cons b rb _ Hrb) in IH |- *. by rewrite last_cons_cons. }
  rewrite (visits_of_cons s0 r0 more Hr0). reflexivity.
Qed.

End Route.

(** *** The display and the full run *)

Lemma find_from_unique {A} (getId : A -> Z) (l : list A) :
  forall (k i : nat) (x : A),
    NoDup (getId <$> l) -> l !! i = Some x ->
    find_from getId (getId x) l k = Some ((k + i)%nat, x).
Proof.
  induction l as [|y l IH]; intros k i x Hnd Hi; [done|].
  rewrite fmap_cons in Hnd. apply NoDup_cons in Hnd. destruct Hnd as [Hy Hnd].
  cbn [find_from]. destruct i as [|i].
  - injection Hi as ->. rewrite Z.eqb_refl. do 2 f_equal. lia.
  - cbn in Hi. destruct (Z.eqb_spec (getId y) (getId x)) as [E|E].
    + exfalso. apply Hy. rewrite E. apply list_elem_of_fmap. exists x.
      split; [reflexivity|]. by eapply list_elem_of_lookup_2.
    + rewrite (IH (S k) i x Hnd Hi). do 2 f_equal. lia.
Qed.

Lemma find_by_id_unique {A} (getId : A -> Z) (l : list A) (i : nat) (x : A) :
  NoDup (getId <$> l) -> l !! i = Some x -> find_by_id getId (getId x) l = Some (i, x).
Proof. intros Hnd Hi. unfold find_by_id. by rewrite (find_from_unique getId l O i x Hnd Hi). Qed.

Lemma listing_stops (retailers stops : list Retailer.t) :
  NoDup (Retailer.id <$> retailers) -> stops ⊆ retailers ->
  listing retailers (Retailer.id <$> stops) = stops.
Proof.
  intros Hnd. induction stops as [|r stops IH]; intros Hsub; [done|].
  assert (r ∈ retailers) as Hin by (apply Hsub; left).
  apply list_elem_of_lookup in Hin. destruct Hin as [i Hi].
  unfold listing in *. rewrite fmap_cons. cbn [omap list_omap].
  rewrite (find_by_id_unique Retailer.id retailers i r Hnd Hi). cbn [fmap option_fmap option_map snd].
  f_equal. apply IH. intros x Hx. apply Hsub. by right.
Qed.

Lemma plan_tour_spec (supplier : Supplier.t) (retailers : list Retailer.t) :
  NoDup (Retailer.id <$> retailers) -> legs_bounded supplier retailers ->
  (2 <= length retailers)%nat ->
  exists first rest,
    let stops := visits_of retailers (first :: rest) in
    plan_tour supplier retailers = (Retailer.id <$> stops, tour_length supplier stops) /\
    stops ≡ₚ retailers /\
    first_nearest (leg_from supplier retailers) (fun _ => True) (length retailers) first /\
    greedy_from retailers [first] first rest.
Proof.
  intros Hids Hbounded Hn.
  destruct (route_spec supplier retailers Hids Hbounded Hn)
    as (rest & Hroute & Hperm & Hfirst & Hgreedy & Htotal).
  exists (nearest_to_supplier (distance_from supplier <$> retailers)), rest.
  cbn zeta. split; [|done].
  unfold plan_tour. cbn zeta. cbn zeta in Htotal. rewrite Htotal.
  f_equal. exact Hroute.
Qed.

(** C9. With fewer than two retailers [optimizeDistributionRoute] reports
    its precondition error and displays nothing. With at least two, a
    known supplier, retailer ids all different and all coordinates in the
    ranges of the data model, it displays, whatever transporter is entered
    afterwards, the ids of a sequence of stops that is a permutation of the
    retailers, listing these very retailers; the first stop is the first
    nearest to the supplier, every later stop the first nearest to the stop
    before it among the retailers not yet visited; and the total displayed
    is the leg from the supplier to the first stop, plus the legs between
    consecutive stops added in order, plus the leg from the last stop back
    to the supplier, each leg a [calculateDistance]. *)
Theorem route_visits_each_retailer_once (show : float -> string) (supplierId transporterId : Z)
    (sys : ProductionPlanningSystem.t) (w : World) :
  ((length (retailers sys) < 2)%nat ->
   optimizeDistributionRoute show supplierId transporterId sys w
   = ((mkShown None (Some (runtime_error "Need at least 2 retailers to optimize routes")),
       sys), w)) /\
  (forall si supplier,
     findSupplier supplierId sys = Some (si, supplier) ->
     (2 <= length (retailers sys))%nat ->
     NoDup (Retailer.id <$> retailers sys) ->
     all_placed supplier (retailers sys) ->
     exists first rest tour,
       let stops := visits_of (retailers sys) (first :: rest) in
       displayed (fst (fst (optimizeDistributionRoute show supplierId transporterId sys w)))
       = Some tour /\
       tour_route tour = Retailer.id <$> stops /\
       tour_listed tour = stops /\
       tour_distance tour = tour_length supplier stops /\
       stops ≡ₚ retailers sys /\
       first_nearest (leg_from supplier (retailers sys)) (fun _ => True)
                     (length (retailers sys)) first /\
       greedy_from (retailers sys) [first] first rest).
Proof.
  split.
  - intros Hfew. unfold optimizeDistributionRoute.
    destruct (Nat.ltb_spec (length (retailers sys)) 2) as [_|Hge]; [reflexivity|lia].
  - intros si supplier Hfind Hn Hids Hplaced.
    destruct (plan_tour_spec supplier (retailers sys) Hids
                             (placed_legs_bounded _ _ Hplaced) Hn)
      as (first & rest & Hplan & Hperm & Hfirst & Hgreedy).
    cbn zeta in Hplan, Hperm.
    assert (Hlist : listing (retailers sys)
                            (Retailer.id <$> visits_of (retailers sys) (first :: rest))
                    = visits_of (retailers sys) (first :: rest)).
    { apply listing_stops; [exact Hids|]. intros x Hx. by rewrite <- Hperm. }
    unfold optimizeDistributionRoute.
    destruct (Nat.ltb_spec (length (retailers sys)) 2) as [Hlt|_]; [lia|].
    rewrite Hfind, Hplan. rewrite Hlist.
    destruct (findTransporter transporterId sys) as [[ti transporter]|].
    + unfold bind.
      destruct (Blockchain.addBlock _ (blockchain sys) w) as [[chain|e] w'];
        cbn [ret fst snd displayed]; eexists first, rest, _; cbn zeta;
        (split; [reflexivity|]); cbn [tour_route tour_listed tour_distance]; done.
    + cbn [ret fst snd displayed]. eexists first, rest, _. cbn zeta.
      split; [reflexivity|]. cbn [tour_route tour_listed tour_distance]. done.
Qed.

(** C9, counterexample: after a failed restore a supplier and two
    retailers are added; the ledger being empty, both retailers get the
    id 4. Their coordinates are in range. The route displayed is 4, 4 and
    lists the first retailer twice, the second never; the total displayed,
    444 km, is taken from the second retailer alone and is not the length
    of the tour supplier, first, second, supplier, which is 581.2 km. *)
Lemma route_confuses_equal_ids :
  retailers twin_system = [north_shop; east_shop] /\
  findSupplier 3 twin_system = Some (O, twin_supplier) /\
  (2 <= length (retailers twin_system))%nat /\
  all_placed twin_supplier (retailers twin_system) /\
  displayed (fst (fst (optimizeDistributionRoute fixed2 3 1 twin_system sample_world)))
  = Some (mkTour [4; 4] [north_shop; north_shop] 444 None) /\
  tour_length twin_supplier [north_shop; east_shop] = 581.20354550247669%float /\
  PrimFloat.ltb 444 (tour_length twin_supplier [north_shop; east_shop]) = true.
Proof.
  split; [reflexivity|]. split; [reflexivity|]. split; [vm_compute; lia|].
  split.
  - split; [by vm_compute|]. cbn. repeat constructor; by vm_compute.
  - split; [vm_compute; reflexivity|]. split; vm_compute; reflexivity.
Qed.

(** C9, witness: the three Klang Valley retailers. *)
Lemma route_visits_each_retailer_once_witness :
  exists first rest tour,
    let stops := visits_of (retailers route_system) (first :: rest) in
    displayed (fst (fst (optimizeDistributionRoute fixed2 1 1 route_system sample_world)))
    = Some tour /\
    tour_route tour = Retailer.id <$> stops /\
    tour_listed tour = stops /\
    tour_distance tour = tour_length route_supplier stops /\
    stops ≡ₚ retailers route_system /\
    first_nearest (leg_from route_supplier (retailers route_system)) (fun _ => True)
                  (length (retailers route_system)) first /\
    greedy_from (retailers route_system) [first] first rest.
Proof.
  apply (proj2 (route_visits_each_retailer_once fixed2 1 1 route_system sample_world) O).
  - reflexivity.
  - vm_compute. lia.
  - by apply (bool_decide_unpack _).
  - split; [by vm_compute|]. cbn. repeat constructor; by vm_compute.
Defined.

(* ===================================================================== *)
(** ** Blocks and ledgers as text *)
(* ===================================================================== *)

Import Blockchain ProductionPlanningSystem.

Ltac in_int_now := unfold in_int, INT_MIN, INT_MAX; cbn; lia.

Ltac storable_now :=
  repeat (constructor; [split; [in_int_now|repeat split; (reflexivity || discriminate)]|]);
  constructor.

(** *** Decimal text and [stoi] *)

Lemma read_digits_acc (d : Decimal.uint) :
  forall acc : positive,
    read_digits (NilEmpty.string_of_uint d) (Some (Z.pos acc))
    = Some (Z.pos (Pos.of_uint_acc d acc)).
Proof.
  induction d; intros acc; cbn [NilEmpty.string_of_uint read_digits Pos.of_uint_acc];
    [reflexivity|..];
    match goal with
    | |- context [digit_of ?c] =>
        let v := eval vm_compute in (digit_of c) in change (digit_of c) with v
    end; cbn [default from_option id];
    match goal with
    | |- read_digits _ (Some ?x) = Some (Z.pos (Pos.of_uint_acc _ ?y)) =>
        replace x with (Z.pos y) by lia
    end; apply IHd.
Qed.

Lemma read_digits_uint (d : Decimal.uint) :
  read_digits (NilEmpty.string_of_uint d) (Some 0) = Some (Z.of_N (Pos.of_uint d)).
Proof.
  induction d; cbn [NilEmpty.string_of_uint read_digits Pos.of_uint];
    [reflexivity|..];
    match goal with
    | |- context [digit_of ?c] =>
        let v := eval vm_compute in (digit_of c) in change (digit_of c) with v
    end; cbn [default from_option id];
    [exact IHd | apply (read_digits_acc d) ..].
Qed.

Lemma read_digits_start (d : Decimal.uint) :
  d <> Decimal.Nil ->
  read_digits (NilEmpty.string_of_uint d) None
  = read_digits (NilEmpty.string_of_uint d) (Some 0).
Proof. destruct d; [congruence|reflexivity..]. Qed.

Lemma stoi_unsigned (d : Decimal.uint) :
  d <> Decimal.Nil ->
  Z.of_N (Pos.of_uint d) <= INT_MAX ->
  stoi (NilEmpty.string_of_uint d) = Ok (Z.of_N (Pos.of_uint d)).
Proof.
  intros Hd Hmax. pose proof (read_digits_start d Hd) as Hs.
  rewrite (read_digits_uint d) in Hs.
  assert (stoi (NilEmpty.string_of_uint d)
          = match read_digits (NilEmpty.string_of_uint d) None with
            | None => Throw (invalid_argument "stoi")
            | Some v => if (INT_MIN <=? v) && (v <=? INT_MAX) then Ok v
                        else Throw (out_of_range "stoi")
            end) as ->.
  { destruct d; [congruence|reflexivity..]. }
  rewrite Hs.
  destruct (Z.leb_spec INT_MIN (Z.of_N (Pos.of_uint d))) as [_|H];
    [|unfold INT_MIN in H; lia].
  destruct (Z.leb_spec (Z.of_N (Pos.of_uint d)) INT_MAX) as [_|H]; [reflexivity|lia].
Qed.

Lemma stoi_negative (d : Decimal.uint) :
  d <> Decimal.Nil ->
  INT_MIN <= - Z.of_N (Pos.of_uint d) ->
  stoi (String "-" (NilEmpty.string_of_uint d)) = Ok (- Z.of_N (Pos.of_uint d)).
Proof.
  intros Hd Hmin. pose proof (read_digits_start d Hd) as Hs.
  rewrite (read_digits_uint d) in Hs.
  assert (stoi (String "-" (NilEmpty.string_of_uint d))
          = match read_digits (NilEmpty.string_of_uint d) None with
            | None => Throw (invalid_argument "stoi")
            | Some v => if (INT_MIN <=? - v) && (- v <=? INT_MAX) then Ok (- v)
                        else Throw (out_of_range "stoi")
            end) as ->.
  { reflexivity. }
  rewrite Hs.
  destruct (Z.leb_spec INT_MIN (- Z.of_N (Pos.of_uint d))) as [_|H]; [|lia].
  destruct (Z.leb_spec (- Z.of_N (Pos.of_uint d)) INT_MAX) as [_|H];
    [reflexivity|unfold INT_MAX in H; lia].
Qed.

(** [stoi] reads back the decimal text of every [int]. *)
Lemma stoi_string_of_int (z : Z) : in_int z -> stoi (string_of_int z) = Ok z.
Proof.
  intros [Hmin Hmax]. unfold string_of_int. destruct z as [|p|p]; [reflexivity| |].
  - cbn [Z.to_int NilZero.string_of_int].
    pose proof (Unsigned.to_uint_nonnil p) as Hnil.
    pose proof (DecimalPos.Unsigned.of_to p) as Hval.
    assert (NilZero.string_of_uint (Pos.to_uint p) = NilEmpty.string_of_uint (Pos.to_uint p))
      as -> by (unfold NilZero.string_of_uint; destruct (Pos.to_uint p); [congruence|reflexivity..]).
    rewrite (stoi_unsigned _ Hnil); rewrite Hval; [reflexivity|exact Hmax].
  - cbn [Z.to_int NilZero.string_of_int].
    pose proof (Unsigned.to_uint_nonnil p) as Hnil.
    pose proof (DecimalPos.Unsigned.of_to p) as Hval.
    assert (NilZero.string_of_uint (Pos.to_uint p) = NilEmpty.string_of_uint (Pos.to_uint p))
      as -> by (unfold NilZero.string_of_uint; destruct (Pos.to_uint p); [congruence|reflexivity..]).
    rewrite (stoi_negative _ Hnil); rewrite Hval; [reflexivity|exact Hmin].
Qed.

(** The decimal text of an [int] is made of digits and a sign. *)
Lemma contains_string_of_uint (c : ascii) (d : Decimal.uint) :
  digit_of c = None -> contains c (NilEmpty.string_of_uint d) = false.
Proof.
  intros Hc. induction d; cbn [NilEmpty.string_of_uint contains]; [reflexivity|..];
    rewrite IHd, orb_false_r; apply Ascii.eqb_neq; intros <-; discriminate Hc.
Qed.

Lemma contains_string_of_int (c : ascii) (z : Z) :
  digit_of c = None -> c <> "-"%char -> contains c (string_of_int z) = false.
Proof.
  intros Hc Hsign.
  assert (forall d, contains c (NilZero.string_of_uint d) = false) as Hu.
  { intros d. unfold NilZero.string_of_uint.
    pose proof (contains_string_of_uint c d Hc) as H.
    destruct d; [|exact H..].
    cbn [contains]. rewrite orb_false_r. apply Ascii.eqb_neq. intros <-. discriminate Hc. }
  unfold string_of_int.
  destruct (Z.to_int z) as [d|d]; cbn [NilZero.string_of_int contains]; [apply Hu|].
  rewrite Hu, orb_false_r. apply Ascii.eqb_neq. congruence.
Qed.

Lemma string_of_int_nonempty (z : Z) : string_of_int z <> EmptyString.
Proof.
  unfold string_of_int. destruct (Z.to_int z) as [d|d]; cbn [NilZero.string_of_int];
    [|discriminate].
  unfold NilZero.string_of_uint. destruct d; discriminate.
Qed.

(** *** Fields *)

Lemma append_cons (x : ascii) (a b : string) :
  (String x a ++ b)%string = String x (a ++ b)%string.
Proof. reflexivity. Qed.

Lemma append_assoc (a b c : string) : ((a ++ b) ++ c = a ++ (b ++ c))%string.
Proof. induction a as [|x a IH]; [reflexivity|]. by rewrite !append_cons, IH. Qed.

Lemma append_nil_r (a : string) : (a ++ EmptyString)%string = a.
Proof. induction a as [|x a IH]; [reflexivity|]. by rewrite append_cons, IH. Qed.

Lemma contains_append (c : ascii) (a b : string) :
  contains c (a ++ b)%string = contains c a || contains c b.
Proof.
  induction a as [|x a IH]; [reflexivity|].
  rewrite append_cons. cbn [contains]. by rewrite IH, orb_assoc.
Qed.

Lemma before_plain (c : ascii) (s : string) : contains c s = false -> before c s = s.
Proof.
  induction s as [|a s IH]; cbn [contains before]; [reflexivity|].
  intros H. apply orb_false_elim in H. destruct H as [Ha Hs].
  rewrite Ha. by rewrite (IH Hs).
Qed.

(** The loop splitting at [delim] ends a field at the first delimiter;
    after a last delimiter it reads no further field. *)
Lemma split_from_field (delim : ascii) (s rest item : string) :
  contains delim s = false ->
  split_from delim (s ++ String delim rest) item
  = (item ++ s)%string :: match rest with
                          | EmptyString => []
                          | String _ _ => split_from delim rest EmptyString
                          end.
Proof.
  revert item. induction s as [|a s IH]; intros item H.
  - change (EmptyString ++ String delim rest)%string with (String delim rest).
    cbn [split_from]. rewrite Ascii.eqb_refl, append_nil_r. reflexivity.
  - cbn [contains] in H. apply orb_false_elim in H. destruct H as [Ha Hs].
    rewrite append_cons. cbn [split_from]. rewrite Ha, (IH _ Hs), append_assoc. reflexivity.
Qed.

Lemma split_from_last (delim : ascii) (s item : string) :
  contains delim s = false -> split_from delim s item = [(item ++ s)%string].
Proof.
  revert item. induction s as [|a s IH]; intros item H.
  - cbn. by rewrite append_nil_r.
  - cbn [contains] in H. apply orb_false_elim in H. destruct H as [Ha Hs].
    cbn [split_from]. rewrite Ha, (IH _ Hs), append_assoc. reflexivity.
Qed.

Lemma split_from_head (delim : ascii) (s item : string) :
  exists fields, split_from delim s item = (item ++ before delim s)%string :: fields.
Proof.
  revert item. induction s as [|a s IH]; intros item.
  - exists []. cbn. by rewrite append_nil_r.
  - cbn [split_from before]. destruct (Ascii.eqb a delim).
    + eexists. rewrite append_nil_r. reflexivity.
    + destruct (IH (item ++ String a EmptyString)%string) as [fields ->].
      exists fields. by rewrite append_assoc.
Qed.

Lemma split_field (delim : ascii) (s rest : string) :
  contains delim s = false ->
  split delim (s ++ String delim EmptyString ++ rest) = s :: split delim rest.
Proof.
  intros H. change (String delim EmptyString ++ rest)%string with (String delim rest).
  unfold split.
  destruct (s ++ String delim rest)%string eqn:E; [by destruct s|].
  rewrite <- E, (split_from_field delim s rest EmptyString H). reflexivity.
Qed.

(** *** [Block::serialize] and [Block::deserialize] *)

Lemma Block_serialize_fields (b : Block.t) :
  contains "|" (Block.currentHash b) = false ->
  contains "|" (Block.previousHash b) = false ->
  contains "|" (Block.timestamp b) = false ->
  split "|" (Block.serialize b)
  = string_of_int (Block.blockNumber b) :: Block.currentHash b :: Block.previousHash b
      :: Block.timestamp b :: split "|" (Block.data b).
Proof.
  intros Hh Hp Ht. unfold Block.serialize.
  rewrite (split_field "|" (string_of_int _)) by (by apply contains_string_of_int).
  rewrite (split_field "|" (Block.currentHash b)) by exact Hh.
  rewrite (split_field "|" (Block.previousHash b)) by exact Hp.
  rewrite (split_field "|" (Block.timestamp b)) by exact Ht.
  reflexivity.
Qed.

Lemma Block_deserialize_fields (n : Z) (h p ts d : string) (more : list string) (str : string)
    (w : World) :
  in_int n ->
  split "|" str = string_of_int n :: h :: p :: ts :: d :: more ->
  fst (Block.deserialize str w) = Ok (Block.mk n h p ts d).
Proof.
  intros Hn Hsplit. unfold Block.deserialize. rewrite Hsplit.
  cbn [length Nat.ltb Nat.leb nth]. rewrite (stoi_string_of_int n Hn).
  unfold bind, ret.
  destruct (Block_new_spec n p d w) as (h0 & ts0 & w' & ->). reflexivity.
Qed.

Lemma Block_deserialize_serialize (b : Block.t) (w : World) :
  in_int (Block.blockNumber b) -> Block.tokens_without "|" b -> Block.data b <> EmptyString ->
  fst (Block.deserialize (Block.serialize b) w) = Ok (Block.reread b).
Proof.
  intros Hn (Hh & Hp & Ht) Hd.
  pose proof (Block_serialize_fields b Hh Hp Ht) as Hfields.
  destruct (Block.data b) as [|c d] eqn:Ed; [done|].
  destruct (split_from_head "|" (String c d) EmptyString) as [more Hmore].
  unfold split in Hfields at 2. rewrite Hmore in Hfields.
  rewrite (Block_deserialize_fields _ _ _ _ _ _ _ w Hn Hfields).
  unfold Block.reread. rewrite Ed. reflexivity.
Qed.

(** X1. [Block::deserialize] reads back the line [Block::serialize] wrote
    for a block whose number is an [int], whose three tokens hold no '|'
    and whose payload is not empty: the number, the two hashes and the
    time are those of the block, and the payload is the block's payload
    up to its first '|'. A payload without '|' comes back whole. *)
Theorem block_text_round_trip (b : Block.t) (w : World) :
  in_int (Block.blockNumber b) -> Block.tokens_without "|" b -> Block.data b <> EmptyString ->
  fst (Block.deserialize (Block.serialize b) w) = Ok (Block.reread b) /\
  (contains "|" (Block.data b) = false -> Block.reread b = b).
Proof.
  intros Hn Htok Hd. split; [by apply Block_deserialize_serialize|].
  intros Hplain. unfold Block.reread. rewrite (before_plain _ _ Hplain). by destruct b.
Qed.

(** X1, witness: a block as [addProduct] appends it. *)
Lemma block_text_round_trip_witness :
  let b := Block.mk 7 "0a1b2c3d4e" "5f6g7h8i9j" "20250101:10:00" "Added Product | Rice" in
  fst (Block.deserialize (Block.serialize b) sample_world)
  = Ok (Block.mk 7 "0a1b2c3d4e" "5f6g7h8i9j" "20250101:10:00" "Added Product ") /\
  (contains "|" (Block.data b) = false -> Block.reread b = b).
Proof.
  intros b. refine (block_text_round_trip b sample_world _ _ _).
  - in_int_now.
  - repeat split; reflexivity.
  - discriminate.
Defined.

(** X2. The line written for a block with an empty payload has only four
    fields, the text ending in '|': reading it back throws "Invalid block
    data format" and draws nothing from the world. *)
Theorem block_without_payload_is_not_read_back (b : Block.t) (w : World) :
  Block.tokens_without "|" b -> Block.data b = EmptyString ->
  Block.deserialize (Block.serialize b) w
  = (Throw (runtime_error "Invalid block data format"), w).
Proof.
  intros (Hh & Hp & Ht) Hd.
  pose proof (Block_serialize_fields b Hh Hp Ht) as Hfields. rewrite Hd in Hfields.
  unfold Block.deserialize. rewrite Hfields. reflexivity.
Qed.

(** X2, witness: a block without payload. *)
Lemma block_without_payload_is_not_read_back_witness :
  let b := Block.mk 7 "0a1b2c3d4e" "5f6g7h8i9j" "20250101:10:00" "" in
  Block.deserialize (Block.serialize b) sample_world
  = (Throw (runtime_error "Invalid block data format"), sample_world).
Proof.
  intros b. refine (block_without_payload_is_not_read_back b sample_world _ _).
  - repeat split; reflexivity.
  - reflexivity.
Defined.

(** *** [saveToFile] and [loadFromFile] *)

Lemma serialize_one_line (b : Block.t) :
  storable b -> contains newline (Block.serialize b) = false.
Proof.
  intros (_ & _ & (Hh & Hp & Ht) & Hd & _). unfold Block.serialize.
  rewrite !contains_append, Hh, Hp, Ht, Hd.
  rewrite contains_string_of_int by done. reflexivity.
Qed.

Lemma getlines_saveToFile (chain : list Block.t) :
  Forall storable chain -> getlines (saveToFile chain) = Block.serialize <$> chain.
Proof.
  induction 1 as [|b chain Hb _ IH]; [reflexivity|].
  cbn [saveToFile]. unfold getlines in *.
  rewrite (split_field newline _ _ (serialize_one_line b Hb)), IH. reflexivity.
Qed.

Lemma loadFromFile_lines_serialize (chain : list Block.t) :
  forall (acc : list Block.t) (w : World),
    Forall storable chain -> acc ++ chain <> [] ->
    fst (loadFromFile_lines (Block.serialize <$> chain) acc w)
    = (true, acc ++ (Block.reread <$> chain)).
Proof.
  induction chain as [|b chain IH]; intros acc w Hall Hne.
  - rewrite app_nil_r in Hne |- *. cbn [fmap list_fmap loadFromFile_lines].
    destruct acc as [|a acc]; [done|]. reflexivity.
  - apply Forall_cons in Hall. destruct Hall as [Hb Hall].
    rewrite fmap_cons. cbn [loadFromFile_lines]. unfold bind at 1.
    pose proof Hb as (Hn & Htok & _ & _ & Hd).
    pose proof (Block_deserialize_serialize b w Hn Htok Hd) as Hread.
    destruct (Block.deserialize (Block.serialize b) w) as [r w1].
    cbn [fst] in Hread. subst r.
    rewrite IH; [|exact Hall|by destruct acc].
    by rewrite <- app_assoc.
Qed.

Lemma isChainValid_from_tokens (f : Block.t -> Block.t) :
  (forall b, Block.currentHash (f b) = Block.currentHash b) ->
  (forall b, Block.previousHash (f b) = Block.previousHash b) ->
  forall rest prev, isChainValid_from (f prev) (f <$> rest) = isChainValid_from prev rest.
Proof.
  intros Hc Hp. induction rest as [|b rest IH]; intros prev; [reflexivity|].
  rewrite fmap_cons. cbn [isChainValid_from]. by rewrite Hc, Hp, IH.
Qed.

(** X3. A ledger of storable blocks written by [saveToFile] and read by
    [loadFromFile], whatever the ledger held before: the load succeeds and
    yields the same blocks in the same order, each with its payload cut
    at the first '|'; the verdict of [isChainValid] is the same as before
    the save. *)
Theorem ledger_file_round_trip (chain old : list Block.t) (w : World) :
  chain <> [] -> Forall storable chain ->
  fst (loadFromFile (Some (getlines (saveToFile chain))) old w)
  = (true, Block.reread <$> chain) /\
  isChainValid (Block.reread <$> chain) = isChainValid chain.
Proof.
  intros Hne Hall. split.
  - unfold loadFromFile. rewrite (getlines_saveToFile chain Hall).
    exact (loadFromFile_lines_serialize chain [] w Hall Hne).
  - destruct chain as [|b rest]; [done|].
    by apply (isChainValid_from_tokens Block.reread).
Qed.

(** X3, witness: the fresh ledger of [sample_world] after one append. *)
Lemma ledger_file_round_trip_witness :
  fst (loadFromFile (Some (getlines (saveToFile sample_chain))) [] sample_world)
  = (true, Block.reread <$> sample_chain) /\
  isChainValid (Block.reread <$> sample_chain) = isChainValid sample_chain.
Proof.
  refine (ledger_file_round_trip sample_chain [] sample_world _ _).
  - discriminate.
  - storable_now.
Defined.

(** X4. [isChainValid] looks at the two hash tokens only: changing
    numbers, times and payloads of any blocks, the tokens left as they
    are, does not change its verdict. *)
Theorem verification_ignores_payloads (f : Block.t -> Block.t) (chain : list Block.t) :
  (forall b, Block.currentHash (f b) = Block.currentHash b) ->
  (forall b, Block.previousHash (f b) = Block.previousHash b) ->
  isChainValid (f <$> chain) = isChainValid chain.
Proof.
  intros Hc Hp. destruct chain as [|b rest]; [reflexivity|].
  rewrite fmap_cons. cbn [isChainValid]. apply (isChainValid_from_tokens f Hc Hp).
Qed.

(** X4, witness: every block of the sample ledger renumbered, redated and
    given another payload. *)
Lemma verification_ignores_payloads_witness :
  let forge := fun b => Block.mk 99 (Block.currentHash b) (Block.previousHash b)
                                 "19990101:00:00" "Added Product | forged" in
  isChainValid (forge <$> sample_chain) = isChainValid sample_chain.
Proof.
  intros forge. refine (verification_ignores_payloads forge sample_chain _ _).
  - intros b. reflexivity.
  - intros b. reflexivity.
Defined.

(* ===================================================================== *)
(** ** The ledger: links, numbers and tokens *)
(* ===================================================================== *)

(** X5. In a ledger [isChainValid] accepts, replacing the predecessor
    token of a block other than the first by another text, or the own
    token of a block other than the last, makes [isChainValid] return
    false. *)
Theorem broken_link_is_detected (chain : list Block.t) (i : nat) (b : Block.t) (token : string) :
  isChainValid chain = true -> chain !! i = Some b ->
  ((0 < i)%nat -> token <> Block.previousHash b ->
   isChainValid (<[i := Block.mk (Block.blockNumber b) (Block.currentHash b) token
                          (Block.timestamp b) (Block.data b)]> chain) = false) /\
  ((S i < length chain)%nat -> token <> Block.currentHash b ->
   isChainValid (<[i := Block.mk (Block.blockNumber b) token (Block.previousHash b)
                          (Block.timestamp b) (Block.data b)]> chain) = false).
Proof.
  intros Hvalid Hb. apply isChainValid_linked in Hvalid.
  assert (Hi : (i < length chain)%nat) by (by eapply lookup_lt_Some).
  split.
  - intros Hpos Hne. apply not_true_is_false. intros Hv. apply isChainValid_linked in Hv.
    destruct (lookup_lt_is_Some_2 chain (i - 1)) as [p Hp]; [lia|].
    pose proof (Hvalid i b p Hpos Hb Hp) as Hold.
    specialize (Hv i _ p Hpos (list_lookup_insert_eq _ _ _ Hi)).
    rewrite list_lookup_insert_ne in Hv by lia. specialize (Hv Hp). cbn in Hv. congruence.
  - intros Hnext Hne. apply not_true_is_false. intros Hv. apply isChainValid_linked in Hv.
    destruct (lookup_lt_is_Some_2 chain (S i) Hnext) as [n Hn].
    pose proof (Hvalid (S i) n b ltac:(lia)) as Hold.
    replace (S i - 1)%nat with i in Hold by lia. specialize (Hold Hn Hb).
    pose proof (fun p => Hv (S i) n p ltac:(lia)) as Hv'.
    rewrite list_lookup_insert_ne in Hv' by lia.
    replace (S i - 1)%nat with i in Hv' by lia.
    specialize (Hv' _ Hn (list_lookup_insert_eq _ _ _ Hi)). cbn in Hv'. congruence.
Qed.

(** X5, witness: the predecessor token of the second block replaced. *)
Lemma broken_link_is_detected_witness :
  exists b,
    sample_chain !! 1%nat = Some b /\
    isChainValid (<[1%nat := Block.mk (Block.blockNumber b) (Block.currentHash b) "forged"
                                      (Block.timestamp b) (Block.data b)]> sample_chain)
    = false.
Proof.
  eexists. split; [reflexivity|].
  refine (proj1 (broken_link_is_detected sample_chain 1 _ "forged" _ _) _ _).
  - reflexivity.
  - reflexivity.
  - lia.
  - discriminate.
Defined.

Lemma produced_numbers (chain : list Block.t) :
  produced chain ->
  chain <> [] /\
  forall i b, chain !! i = Some b -> Block.blockNumber b = wrap_int (Z.of_nat i).
Proof.
  induction 1 as [w chain w' Hnew | chain d w chain' w' Hp [Hne IH] Hadd].
  - destruct (new_spec w) as (gh & h & ts & w1 & E). rewrite E in Hnew.
    injection Hnew as <- <-. split; [done|].
    intros [|i] b Hb; [|done]. injection Hb as <-. reflexivity.
  - destruct (last_is_Some chain Hne) as [latest Hlast].
    destruct (addBlock_spec chain latest d w Hlast) as (h & ts & w1 & E).
    rewrite E in Hadd. injection Hadd as <- <-. split; [by destruct chain|].
    intros i b Hb. apply lookup_app_Some in Hb. destruct Hb as [Hb|[Hlen Hb]]; [by apply IH|].
    apply list_lookup_singleton_Some in Hb. destruct Hb as [Hi <-].
    cbn [Block.blockNumber]. rewrite last_lookup in Hlast.
    rewrite (IH _ _ Hlast). unfold int_add. rewrite wrap_int_add_l. f_equal.
    destruct chain; [done|]. cbn [length] in *. lia.
Qed.

(** X6. In a ledger produced from a fresh one by appends, the block at
    index [i] carries the number [i] as a 32-bit integer: [i] itself up to
    [INT_MAX]. *)
Theorem ledger_sequence_numbers (chain : list Block.t) (i : nat) (b : Block.t) :
  produced chain -> chain !! i = Some b ->
  Block.blockNumber b = wrap_int (Z.of_nat i) /\
  (Z.of_nat i <= INT_MAX -> Block.blockNumber b = Z.of_nat i).
Proof.
  intros Hp Hb. destruct (produced_numbers chain Hp) as [_ Hnum].
  rewrite (Hnum i b Hb). split; [reflexivity|].
  intros Hi. apply wrap_int_id. unfold in_int, INT_MIN. lia.
Qed.

(** X6, witness: the second block of the sample ledger. *)
Lemma ledger_sequence_numbers_witness :
  exists b, sample_chain !! 1%nat = Some b /\ Block.blockNumber b = 1.
Proof.
  eexists. split; [reflexivity|].
  refine (proj2 (ledger_sequence_numbers sample_chain 1 _ _ _) _).
  - apply (produced_addBlock sample_ledger "Added Product | Product ID: 1 | Name: Rice"
             sample_world sample_chain
             (snd (addBlock "Added Product | Product ID: 1 | Name: Rice" sample_ledger
                            sample_world))).
    + apply (produced_new sample_world sample_ledger (snd (Blockchain.new sample_world))).
      vm_compute. reflexivity.
    + vm_compute. reflexivity.
  - reflexivity.
  - in_int_now.
Defined.

(** *** Hash tokens *)

Lemma get_contains (s : string) :
  forall (i : nat) (c : ascii), String.get i s = Some c -> contains c s = true.
Proof.
  induction s as [|a s IH]; intros i c H; [discriminate|].
  cbn [contains]. destruct i as [|i]; cbn [String.get] in H.
  - injection H as ->. by rewrite Ascii.eqb_refl.
  - rewrite (IH i c H). apply orb_true_r.
Qed.

Lemma alphanum_at_alphanum (r : Z) : contains (alphanum_at r) alphanum = true.
Proof.
  unfold alphanum_at. destruct (String.get _ alphanum) as [c|] eqn:E.
  - by apply (get_contains _ _ _ E).
  - reflexivity.
Qed.

Lemma contains_snoc (c a : ascii) (s : string) :
  contains c (s ++ String a EmptyString) = contains c s || Ascii.eqb a c.
Proof.
  induction s as [|b s IH].
  - change (contains c (String a EmptyString) = false || Ascii.eqb a c).
    cbn [contains orb]. apply orb_false_r.
  - change (String b s ++ String a EmptyString)%string
      with (String b (s ++ String a EmptyString)).
    cbn [contains]. by rewrite IH, orb_assoc.
Qed.

Lemma length_snoc (a : ascii) (s : string) :
  String.length (s ++ String a EmptyString) = S (String.length s).
Proof.
  induction s as [|b s IH]; [reflexivity|].
  change (String b s ++ String a EmptyString)%string with (String b (s ++ String a EmptyString)).
  cbn [String.length]. by rewrite IH.
Qed.

Lemma generateHash_loop_spec (n : nat) :
  forall (hash : string) (w : World),
    (forall c, contains c hash = true -> contains c alphanum = true) ->
    let r := generateHash_loop n hash w in
    String.length (fst r) = (String.length hash + n)%nat /\
    (forall c, contains c (fst r) = true -> contains c alphanum = true) /\
    snd r = mkWorld (rand_src w) (rand_pos w + n) (clock_src w) (clock_pos w).
Proof.
  induction n as [|n IH]; intros hash w Hhash; cbn zeta.
  - cbn. split; [lia|]. split; [exact Hhash|]. destruct w. cbn. by rewrite Nat.add_0_r.
  - cbn [generateHash_loop]. unfold bind. destruct w as [rs rp cs cp]. cbn [rand].
    destruct (IH (hash ++ String (alphanum_at (rs rp)) EmptyString)%string
                 (mkWorld rs (S rp) cs cp)) as (Hlen & Hchars & Hw).
    { intros c. rewrite contains_snoc. intros H. apply orb_true_iff in H.
      destruct H as [H|H]; [by apply Hhash|].
      apply Ascii.eqb_eq in H. subst c. apply alphanum_at_alphanum. }
    split; [rewrite Hlen, length_snoc; lia|]. split; [exact Hchars|].
    rewrite Hw. cbn. f_equal. lia.
Qed.

(** X7. [generateHash] returns ten characters, each a digit or a lower
    case letter (so none is '|' or a line end); it draws exactly ten
    numbers from [rand()] and does not read the clock. *)
Theorem hash_tokens (w : World) :
  let r := generateHash w in
  String.length (fst r) = 10%nat /\
  (forall c, contains c (fst r) = true -> contains c alphanum = true) /\
  contains "|" (fst r) = false /\ contains newline (fst r) = false /\
  snd r = mkWorld (rand_src w) (rand_pos w + 10) (clock_src w) (clock_pos w).
Proof.
  cbn zeta. unfold generateHash.
  destruct (generateHash_loop_spec 10 EmptyString w) as (Hlen & Hchars & Hw); [done|].
  split; [exact Hlen|]. split; [exact Hchars|]. split; [|split; [|exact Hw]].
  - destruct (contains "|" _) eqn:E; [|reflexivity]. by apply Hchars in E.
  - destruct (contains newline _) eqn:E; [|reflexivity]. by apply Hchars in E.
Qed.

Lemma generateHash_plain (w : World) :
  contains "|" (fst (generateHash w)) = false /\ contains newline (fst (generateHash w)) = false.
Proof.
  unfold generateHash.
  destruct (generateHash_loop_spec 10 EmptyString w) as (_ & Hchars & _); [done|].
  split.
  - destruct (contains "|" _) eqn:E; [|reflexivity]. by apply Hchars in E.
  - destruct (contains newline _) eqn:E; [|reflexivity]. by apply Hchars in E.
Qed.

Lemma Block_new_plain n p d w :
  exists h ts w',
    Block.new n p d w = (Block.mk n h p ts d, w') /\
    contains "|" h = false /\ contains newline h = false.
Proof.
  unfold Block.new, bind, ret.
  destruct (getCurrentTimestamp w) as [ts w1].
  pose proof (generateHash_plain w1) as Hplain.
  destruct (generateHash w1) as [h w']. exists h, ts, w'. done.
Qed.

(** Both hash tokens of every block of a produced ledger are free of '|'
    and of line ends. *)
Lemma produced_plain (chain : list Block.t) :
  produced chain ->
  chain <> [] /\
  Forall (fun b => (contains "|" (Block.currentHash b) = false /\
                    contains newline (Block.currentHash b) = false) /\
                   (contains "|" (Block.previousHash b) = false /\
                    contains newline (Block.previousHash b) = false)) chain.
Proof.
  induction 1 as [w chain w' Hnew | chain d w chain' w' Hp [Hne IH] Hadd].
  - unfold Blockchain.new, createGenesisBlock, bind, ret in Hnew.
    pose proof (generateHash_plain w) as Hg.
    destruct (generateHash w) as [gh w1].
    destruct (Block_new_plain 0 gh "Genesis Block" w1) as (h & ts & w2 & E & Hh).
    rewrite E in Hnew. injection Hnew as <- <-. split; [done|].
    constructor; [|constructor]. done.
  - destruct (last_is_Some chain Hne) as [latest Hlast].
    unfold addBlock, getLatestBlock, bind, ret in Hadd. rewrite Hlast in Hadd.
    destruct (Block_new_plain (int_add (Block.blockNumber latest) 1)
                (Block.currentHash latest) d w) as (h & ts & w2 & E & Hh).
    rewrite E in Hadd. injection Hadd as <- <-. split; [by destruct chain|].
    apply Forall_app. split; [exact IH|]. constructor; [|constructor].
    split; [exact Hh|]. cbn [Block.previousHash].
    rewrite Forall_forall in IH. apply (IH latest).
    rewrite last_lookup in Hlast. by eapply list_elem_of_lookup_2.
Qed.

(** X8. A ledger produced from a fresh one by appends, saved and loaded:
    when its times hold no '|' and no line end and its payloads are
    non-empty single lines, the load succeeds and yields every block
    again, the payloads cut at their first '|'. *)
Theorem produced_ledger_file_round_trip (chain old : list Block.t) (w : World) :
  produced chain ->
  Forall (fun b => contains "|" (Block.timestamp b) = false /\
                   contains newline (Block.timestamp b) = false /\
                   contains newline (Block.data b) = false /\
                   Block.data b <> EmptyString) chain ->
  fst (loadFromFile (Some (getlines (saveToFile chain))) old w)
  = (true, Block.reread <$> chain).
Proof.
  intros Hp Htext.
  destruct (produced_inv chain Hp) as (Hne & _ & Hnum).
  destruct (produced_plain chain Hp) as [_ Htok].
  assert (Forall storable chain) as Hall.
  { unfold numbered in Hnum. rewrite Forall_forall in Hnum, Htok, Htext |- *.
    intros b Hb. destruct (Htok b Hb) as [[Hc1 Hc2] [Hp1 Hp2]].
    destruct (Htext b Hb) as (Ht1 & Ht2 & Hd1 & Hd2).
    split; [by apply Hnum|]. by repeat split. }
  unfold loadFromFile. rewrite (getlines_saveToFile chain Hall).
  exact (loadFromFile_lines_serialize chain [] w Hall Hne).
Qed.

(** X8, witness: the fresh ledger of [sample_world] after one append. *)
Lemma produced_ledger_file_round_trip_witness :
  fst (loadFromFile (Some (getlines (saveToFile sample_chain))) [] sample_world)
  = (true, Block.reread <$> sample_chain).
Proof.
  refine (produced_ledger_file_round_trip sample_chain [] sample_world _ _).
  - apply (produced_addBlock sample_ledger "Added Product | Product ID: 1 | Name: Rice"
             sample_world sample_chain
             (snd (addBlock "Added Product | Product ID: 1 | Name: Rice" sample_ledger
                            sample_world))).
    + apply (produced_new sample_world sample_ledger (snd (Blockchain.new sample_world))).
      vm_compute. reflexivity.
    + vm_compute. reflexivity.
  - repeat (constructor; [repeat split; (reflexivity || discriminate)|]). constructor.
Defined.

(* ===================================================================== *)
(** ** The catalog: lookup and registration *)
(* ===================================================================== *)

Ltac numbered_now :=
  split; [apply (bool_decide_unpack _); vm_compute; exact I|];
  split; [repeat (constructor; [cbn; lia|]); constructor|in_int_now].

Ltac well_formed_now :=
  split; [discriminate|];
  split; [apply isChainValid_linked; reflexivity|];
  split; [numbered_now|]; split; [numbered_now|]; split; [numbered_now|];
  split; [numbered_now|numbered_now].

Lemma find_from_first {A} (getId : A -> Z) (id : Z) (l : list A) :
  forall k : nat,
    match find_from getId id l k with
    | Some (i, x) =>
        (k <= i)%nat /\ l !! (i - k)%nat = Some x /\ getId x = id /\
        forall j y, (j < i - k)%nat -> l !! j = Some y -> getId y <> id
    | None => forall y, y ∈ l -> getId y <> id
    end.
Proof.
  induction l as [|z l IH]; intros k.
  - cbn. intros y Hy. by apply elem_of_nil in Hy.
  - cbn [find_from]. destruct (Z.eqb_spec (getId z) id) as [E|E].
    + rewrite Nat.sub_diag. split; [lia|]. split; [done|]. split; [exact E|]. intros j y Hj. lia.
    + specialize (IH (S k)). destruct (find_from getId id l (S k)) as [[i x]|].
      * destruct IH as (Hk & Hl & Hid & Hfirst). split; [lia|].
        replace (i - k)%nat with (S (i - S k)) by lia. split; [exact Hl|].
        split; [exact Hid|]. intros [|j] y Hj Hy.
        -- injection Hy as <-. exact E.
        -- apply (Hfirst j y); [lia|exact Hy].
      * intros y Hy. apply elem_of_cons in Hy. destruct Hy as [->|Hy]; [exact E|by apply IH].
Qed.

(** X9. The lookup loop of [findProduct], [findSupplier], [findRetailer]
    and [findTransporter] returns the first element of the store with the
    id, at its index; it returns nothing exactly when no element has the
    id. *)
Theorem lookup_returns_the_first_match {A} (getId : A -> Z) (id : Z) (l : list A) :
  match find_by_id getId id l with
  | Some (i, x) =>
      l !! i = Some x /\ getId x = id /\
      forall j y, (j < i)%nat -> l !! j = Some y -> getId y <> id
  | None => forall y, y ∈ l -> getId y <> id
  end.
Proof.
  unfold find_by_id. pose proof (find_from_first getId id l O) as H.
  destruct (find_from getId id l 0) as [[i x]|]; [|exact H].
  rewrite Nat.sub_0_r in H. destruct H as (_ & Hl & Hid & Hfirst). done.
Qed.

(** *** Registration *)

Lemma register_appends blockData nextId set_nextId (sys : ProductionPlanningSystem.t) latest w :
  last (blockchain sys) = Some latest ->
  exists h ts w',
    register blockData nextId set_nextId sys w
    = ((nextId,
        set_nextId (int_add nextId 1)
          (set_blockchain
             (blockchain sys ++ [Block.mk (int_add (Block.blockNumber latest) 1) h
                                          (Block.currentHash latest) ts blockData]) sys)), w').
Proof.
  intros Hlast. unfold register, bind.
  destruct (addBlock_spec (blockchain sys) latest blockData w Hlast) as (h & ts & w' & ->).
  exists h, ts, w'. reflexivity.
Qed.

Lemma register_empty blockData nextId set_nextId (sys : ProductionPlanningSystem.t) w :
  blockchain sys = [] -> register blockData nextId set_nextId sys w = ((-1, sys), w).
Proof. intros E. unfold register, bind. rewrite E. reflexivity. Qed.

Lemma numbered_below_snoc {A} (getId : A -> Z) (store : list A) (nextId : Z) (x : A) :
  numbered_below getId store nextId -> getId x = nextId -> nextId < INT_MAX ->
  numbered_below getId (store ++ [x]) (int_add nextId 1).
Proof.
  intros (Hnd & Hlt & Hint) Hx Hmax.
  assert (int_add nextId 1 = nextId + 1) as ->.
  { apply wrap_int_id. unfold in_int, INT_MIN, INT_MAX in *. lia. }
  split; [|split].
  - rewrite fmap_app. apply NoDup_app. split; [exact Hnd|]. split; [|apply NoDup_singleton].
    intros id Hid Hid'. apply list_elem_of_singleton in Hid'. subst id.
    apply list_elem_of_fmap in Hid. destruct Hid as (y & Hy & Hin).
    rewrite Forall_forall in Hlt. specialize (Hlt y Hin). cbn in Hlt. lia.
  - apply Forall_app. split.
    + eapply Forall_impl; [exact Hlt|]. cbn. intros y Hy. lia.
    + constructor; [lia|constructor].
  - unfold in_int, INT_MIN, INT_MAX in *. lia.
Qed.

Lemma numbered_below_update {A} (getId : A -> Z) (store : list A) (nextId : Z) (i : nat)
    (x y : A) :
  numbered_below getId store nextId -> store !! i = Some x -> getId y = getId x ->
  numbered_below getId (<[i := y]> store) nextId.
Proof.
  intros (Hnd & Hlt & Hint) Hi Hy.
  assert (getId <$> <[i := y]> store = getId <$> store) as Hids.
  { rewrite list_fmap_insert, Hy. apply list_insert_id. by rewrite list_lookup_fmap, Hi. }
  split; [by rewrite Hids|]. split; [|exact Hint].
  apply Forall_insert; [exact Hlt|]. rewrite Hy.
  rewrite Forall_forall in Hlt. apply Hlt. by eapply list_elem_of_lookup_2.
Qed.

Lemma linked_append (chain : list Block.t) latest n h ts d :
  chain <> [] -> linked chain -> last chain = Some latest ->
  chain ++ [Block.mk n h (Block.currentHash latest) ts d] <> [] /\
  linked (chain ++ [Block.mk n h (Block.currentHash latest) ts d]).
Proof.
  intros Hne Hl Hlast. split; [by destruct chain|].
  by apply (linked_snoc chain latest).
Qed.

Lemma settle_counters (sys : ProductionPlanningSystem.t) ri retailer pi product transaction
    prefix stored sys1 :
  settle sys ri retailer pi product transaction = (prefix, stored, sys1) ->
  nextProductId sys1 = nextProductId sys /\ nextSupplierId sys1 = nextSupplierId sys /\
  nextRetailerId sys1 = nextRetailerId sys /\ nextTransporterId sys1 = nextTransporterId sys /\
  Transaction.id stored = Transaction.id transaction /\
  (products sys1 = products sys \/
   products sys1
   = <[pi := Product.updateStock (int_neg (Transaction.quantity transaction)) product]>
       (products sys)) /\
  (retailers sys1 = retailers sys \/
   retailers sys1
   = <[ri := snd (Retailer.deductCredit (Transaction.totalCost transaction) retailer)]>
       (retailers sys)).
Proof.
  unfold settle.
  destruct (negb (approved _ _)); [intros [= <- <- <-]; by auto 10|].
  destruct (negb (PrimFloat.leb _ _)); intros [= <- <- <-]; cbn; by auto 10.
Qed.

Lemma record_transaction_counters prefix transaction (s : ProductionPlanningSystem.t) w :
  let s' := snd (fst (record_transaction prefix transaction s w)) in
  nextProductId s' = nextProductId s /\ nextSupplierId s' = nextSupplierId s /\
  nextRetailerId s' = nextRetailerId s /\ nextTransporterId s' = nextTransporterId s.
Proof.
  unfold record_transaction, bind. cbn [blockchain set_transactions].
  destruct (addBlock _ _ w) as [[chain|e] w']; cbn; done.
Qed.

Lemma createTransaction_counters supplierId retailerId productId transporterId quantity orderType
    (sys : ProductionPlanningSystem.t) w :
  let sys' := snd (fst (createTransaction supplierId retailerId productId transporterId
                                          quantity orderType sys w)) in
  nextProductId sys' = nextProductId sys /\ nextSupplierId sys' = nextSupplierId sys /\
  nextRetailerId sys' = nextRetailerId sys /\ nextTransporterId sys' = nextTransporterId sys.
Proof.
  destruct (resolve supplierId retailerId productId transporterId quantity sys)
    as [[[[supplier [ri retailer]] [pi product]] transporter]|] eqn:R.
  - destruct (createTransaction_try_resolved _ _ _ _ _ orderType _ _ _ _ _ _ _ w R)
      as (ts & w1 & _ & E).
    unfold createTransaction, bind. rewrite E.
    destruct (settle _ _ _ _ _ _) as [[prefix stored] sys1] eqn:S.
    destruct (settle_counters _ _ _ _ _ _ _ _ _ S) as (H1 & H2 & H3 & H4 & _).
    pose proof (record_transaction_counters prefix stored sys1 w1) as Hr. cbn zeta in Hr.
    destruct (record_transaction prefix stored sys1 w1) as [[[id|e] s'] w'];
      cbn [fst snd] in Hr; unfold ret; cbn [fst snd];
      destruct Hr as (-> & -> & -> & ->); done.
  - pose proof (createTransaction_cases supplierId retailerId productId transporterId quantity
                  orderType sys w) as C.
    rewrite R in C. rewrite C. done.
Qed.

Lemma link_keeps_id (productIds : list Z) :
  forall s : Supplier.t,
    Supplier.id (fold_left (fun s productId => Supplier.addProduct productId s) productIds s)
    = Supplier.id s.
Proof. induction productIds as [|p ps IH]; intros s; [reflexivity|]. cbn. by rewrite IH. Qed.

Ltac unfold_setters :=
  cbn [fst snd blockchain products suppliers retailers transporters transactions contracts
       nextProductId nextSupplierId nextRetailerId nextTransporterId nextTransactionId
       set_products set_suppliers set_retailers set_transporters set_transactions
       set_blockchain set_nextProductId set_nextSupplierId set_nextRetailerId
       set_nextTransporterId set_nextTransactionId].

Ltac registered Hne Hl store :=
  let latest := fresh "latest" in
  let Hlast := fresh "Hlast" in
  destruct (last_is_Some _ Hne) as [latest Hlast];
  match goal with
  | |- context [register ?d ?n ?f ?s ?w] =>
      let h := fresh "h" in
      let ts := fresh "ts" in
      let w' := fresh "w" in
      let E := fresh "E" in
      destruct (register_appends d n f s latest w Hlast) as (h & ts & w' & E);
      rewrite E; unfold well_formed; unfold_setters;
      destruct (linked_append _ latest (int_add (Block.blockNumber latest) 1) h ts d
                              Hne Hl Hlast) as [Hne' Hl'];
      refine (conj Hne' (conj Hl' (conj _ (conj _ (conj _ (conj _ _))))));
      try assumption; apply numbered_below_snoc; [assumption|reflexivity|assumption]
  end.

(** X10. A well-formed system (ledger non-empty and linked; in every
    store ids pairwise different and below the store's counter) stays
    well-formed under [addProduct], [addSupplier], [addRetailer],
    [addTransporter] and [createTransaction], as long as the counter the
    operation draws from is below [INT_MAX], and under the linking of
    products to a supplier. *)
Theorem registration_keeps_the_catalog_well_formed (sys : ProductionPlanningSystem.t) :
  well_formed sys ->
  (forall name price stock w,
      nextProductId sys < INT_MAX ->
      well_formed (snd (fst (addProduct name price stock sys w)))) /\
  (forall name location branch latitude longitude w,
      nextSupplierId sys < INT_MAX ->
      well_formed (snd (fst (addSupplier name location branch latitude longitude sys w)))) /\
  (forall name location latitude longitude initialCredit annualCredit w,
      nextRetailerId sys < INT_MAX ->
      well_formed (snd (fst (addRetailer name location latitude longitude initialCredit
                                         annualCredit sys w)))) /\
  (forall name type costPerKm capacity w,
      nextTransporterId sys < INT_MAX ->
      well_formed (snd (fst (addTransporter name type costPerKm capacity sys w)))) /\
  (forall supplierId productIds, well_formed (link_products supplierId productIds sys)) /\
  (forall supplierId retailerId productId transporterId quantity orderType w,
      nextTransactionId sys < INT_MAX ->
      well_formed (snd (fst (createTransaction supplierId retailerId productId transporterId
                                               quantity orderType sys w)))).
Proof.
  intros (Hne & Hl & Hp & Hs & Hr & Ht & Hx).
  split; [|split; [|split; [|split; [|split]]]].
  - intros name price stock w Hmax. unfold addProduct. registered Hne Hl products.
  - intros name location branch latitude longitude w Hmax. unfold addSupplier.
    registered Hne Hl suppliers.
  - intros name location latitude longitude initialCredit annualCredit w Hmax.
    unfold addRetailer. registered Hne Hl retailers.
  - intros name type costPerKm capacity w Hmax. unfold addTransporter.
    registered Hne Hl transporters.
  - intros supplierId productIds. unfold link_products.
    destruct (findSupplier supplierId sys) as [[si supplier]|] eqn:F; [|done].
    apply find_by_id_lookup in F. destruct F as [Hsi _].
    unfold well_formed. unfold_setters.
    refine (conj Hne (conj Hl (conj Hp (conj _ (conj Hr (conj Ht Hx)))))).
    exact (numbered_below_update Supplier.id (suppliers sys) _ si supplier _
             Hs Hsi (link_keeps_id productIds supplier)).
  - intros supplierId retailerId productId transporterId quantity orderType w Hmax.
    pose proof (createTransaction_counters supplierId retailerId productId transporterId
                  quantity orderType sys w) as Hc. cbn zeta in Hc.
    pose proof (createTransaction_cases supplierId retailerId productId transporterId quantity
                  orderType sys w) as C.
    destruct (resolve _ _ _ _ _ _)
      as [[[[supplier [ri retailer]] [pi product]] transporter]|] eqn:R.
    + destruct C as (ts & prefix & stored & sys1 & id & sys' & w' & S & E & Htx & Hpr & Hre
                     & Hsu & Htr & _ & L).
      rewrite E in Hc |- *. cbn [fst snd] in Hc |- *.
      destruct Hc as (Hc1 & Hc2 & Hc3 & Hc4).
      destruct (last_is_Some _ Hne) as [latest Hlast]. rewrite Hlast in L.
      destruct L as (_ & Hnext & block & Hb & Hprev & _).
      apply resolve_Some_iff in R. destruct R as (_ & Hfr & Hfp & _).
      apply find_by_id_lookup in Hfr, Hfp. cbn [fst snd] in Hfr, Hfp.
      destruct Hfr as [Hfr _]. destruct Hfp as [Hfp _].
      destruct (settle_counters _ _ _ _ _ _ _ _ _ S) as (_ & _ & _ & _ & Hid & Hps & Hrs).
      unfold well_formed.
      rewrite Hb, Hpr, Hre, Hsu, Htr, Htx, Hc1, Hc2, Hc3, Hc4, Hnext.
      split; [by destruct (blockchain sys)|]. split; [by apply (linked_snoc _ latest)|].
      split; [|split; [exact Hs|split; [|split; [exact Ht|]]]].
      * destruct Hps as [->| ->]; [exact Hp|].
        by apply (numbered_below_update Product.id _ _ pi product).
      * destruct Hrs as [->| ->]; [exact Hr|].
        apply (numbered_below_update Retailer.id _ _ ri retailer); [exact Hr|exact Hfr|].
        unfold Retailer.deductCredit. by destruct (PrimFloat.leb _ _).
      * apply numbered_below_snoc; [exact Hx| |exact Hmax]. by rewrite Hid.
    + rewrite C. cbn [fst snd]. done.
Qed.

(** X10, witness: a second retailer, and an order, on the sample system. *)
Lemma registration_keeps_the_catalog_well_formed_witness :
  well_formed (snd (fst (addRetailer "FreshMart" "Petaling Jaya, 47800 Selangor"
                                     3.107 101.607 8000 80000 sample_system sample_world))) /\
  well_formed (snd (fst (createTransaction 1 1 1 1 100 "Regular" sample_system sample_world))).
Proof.
  assert (well_formed sample_system) as Hwf by well_formed_now.
  destruct (registration_keeps_the_catalog_well_formed sample_system Hwf)
    as (_ & _ & Hr & _ & _ & Hc).
  split.
  - apply Hr. reflexivity.
  - apply Hc. reflexivity.
Defined.

(** *** Lookup by id *)

Lemma find_from_snoc {A} (getId : A -> Z) (id : Z) (l : list A) (x : A) :
  forall k : nat,
    find_from getId id (l ++ [x]) k
    = match find_from getId id l k with
      | Some r => Some r
      | None => if getId x =? id then Some ((k + length l)%nat, x) else None
      end.
Proof.
  induction l as [|y l IH]; intros k.
  - cbn. rewrite Nat.add_0_r. reflexivity.
  - cbn [app find_from]. destruct (getId y =? id); [reflexivity|].
    rewrite IH. cbn [length]. by replace (S k + length l)%nat with (k + S (length l))%nat by lia.
Qed.

Lemma find_from_below {A} (getId : A -> Z) (nextId : Z) (l : list A) :
  Forall (fun x => getId x < nextId) l -> forall k, find_from getId nextId l k = None.
Proof.
  induction 1 as [|y l Hy _ IH]; intros k; [reflexivity|].
  cbn [find_from]. destruct (Z.eqb_spec (getId y) nextId); [lia|apply IH].
Qed.

Lemma find_by_id_snoc {A} (getId : A -> Z) (nextId : Z) (l : list A) (x : A) :
  Forall (fun y => getId y < nextId) l -> getId x = nextId ->
  find_by_id getId nextId (l ++ [x]) = Some (length l, x) /\
  forall id, id <> nextId -> find_by_id getId id (l ++ [x]) = find_by_id getId id l.
Proof.
  intros Hlt Hx. unfold find_by_id. split.
  - rewrite find_from_snoc, (find_from_below getId nextId l Hlt), Hx, Z.eqb_refl. reflexivity.
  - intros id Hid. rewrite find_from_snoc.
    destruct (find_from getId id l 0); [reflexivity|].
    destruct (Z.eqb_spec (getId x) id); [congruence|reflexivity].
Qed.

(** X11. In a well-formed system every stored product, supplier,
    retailer and transporter is what the lookup by its id returns. *)
Theorem stored_entities_are_found_by_their_ids (sys : ProductionPlanningSystem.t) :
  well_formed sys ->
  (forall i p, products sys !! i = Some p -> findProduct (Product.id p) sys = Some (i, p)) /\
  (forall i s, suppliers sys !! i = Some s -> findSupplier (Supplier.id s) sys = Some (i, s)) /\
  (forall i r, retailers sys !! i = Some r -> findRetailer (Retailer.id r) sys = Some (i, r)) /\
  (forall i tr, transporters sys !! i = Some tr ->
                findTransporter (Transporter.id tr) sys = Some (i, tr)).
Proof.
  intros (_ & _ & [Hp _] & [Hs _] & [Hr _] & [Ht _] & _).
  split; [|split; [|split]]; intros i x Hi.
  - by apply find_by_id_unique.
  - by apply find_by_id_unique.
  - by apply find_by_id_unique.
  - by apply find_by_id_unique.
Qed.

(** X11, witness: the rice of the sample system. *)
Lemma stored_entities_are_found_by_their_ids_witness :
  findProduct 1 sample_system = Some (0%nat, Product.mk 1 "Rice" 5.5 1000).
Proof.
  assert (well_formed sample_system) as Hwf by well_formed_now.
  apply (proj1 (stored_entities_are_found_by_their_ids sample_system Hwf) O
               (Product.mk 1 "Rice" 5.5 1000)).
  reflexivity.
Defined.

Ltac added Hne Hlt :=
  let latest := fresh "latest" in
  let Hlast := fresh "Hlast" in
  destruct (last_is_Some _ Hne) as [latest Hlast];
  match goal with
  | |- context [register ?d ?n ?f ?s ?w] =>
      let h := fresh "h" in
      let ts := fresh "ts" in
      let w' := fresh "w" in
      let E := fresh "E" in
      destruct (register_appends d n f s latest w Hlast) as (h & ts & w' & E);
      rewrite E; unfold_setters;
      unfold findProduct, findSupplier, findRetailer, findTransporter; unfold_setters;
      split; [reflexivity|]; split; [|split];
      [ apply find_by_id_snoc; [exact Hlt|reflexivity]
      | apply find_by_id_snoc; [exact Hlt|reflexivity]
      | rewrite fmap_app; reflexivity ]
  end.

(** X12. On a well-formed system each of the four [add...] functions
    returns the value of its counter; the lookup by that id then returns
    the new entity, stored last, the lookup by any other id returns what
    it returned before, and the ledger has one more block, whose payload
    is the label of the operation followed by the entity's [toString]. *)
Theorem added_entity_is_found_by_the_returned_id (sys : ProductionPlanningSystem.t) (w : World) :
  well_formed sys ->
  (forall name price stock,
      let r := fst (addProduct name price stock sys w) in
      fst r = nextProductId sys /\
      findProduct (fst r) (snd r)
      = Some (length (products sys), Product.mk (nextProductId sys) name price stock) /\
      (forall id, id <> nextProductId sys -> findProduct id (snd r) = findProduct id sys) /\
      Block.data <$> blockchain (snd r)
      = (Block.data <$> blockchain sys)
          ++ [("Added Product | "
               ++ Product.toString (Product.mk (nextProductId sys) name price stock))%string]) /\
  (forall name location branch latitude longitude,
      let r := fst (addSupplier name location branch latitude longitude sys w) in
      let new := Supplier.mk (nextSupplierId sys) name location branch latitude longitude [] in
      fst r = nextSupplierId sys /\
      findSupplier (fst r) (snd r) = Some (length (suppliers sys), new) /\
      (forall id, id <> nextSupplierId sys -> findSupplier id (snd r) = findSupplier id sys) /\
      Block.data <$> blockchain (snd r)
      = (Block.data <$> blockchain sys)
          ++ [("Added Supplier | " ++ Supplier.toString new)%string]) /\
  (forall name location latitude longitude initialCredit annualCredit,
      let r := fst (addRetailer name location latitude longitude initialCredit annualCredit
                                sys w) in
      let new := Retailer.mk (nextRetailerId sys) name location latitude longitude
                             initialCredit annualCredit [] in
      fst r = nextRetailerId sys /\
      findRetailer (fst r) (snd r) = Some (length (retailers sys), new) /\
      (forall id, id <> nextRetailerId sys -> findRetailer id (snd r) = findRetailer id sys) /\
      Block.data <$> blockchain (snd r)
      = (Block.data <$> blockchain sys)
          ++ [("Added Retailer | " ++ Retailer.toString new)%string]) /\
  (forall name type costPerKm capacity,
      let r := fst (addTransporter name type costPerKm capacity sys w) in
      let new := Transporter.mk (nextTransporterId sys) name type costPerKm capacity in
      fst r = nextTransporterId sys /\
      findTransporter (fst r) (snd r) = Some (length (transporters sys), new) /\
      (forall id, id <> nextTransporterId sys ->
                  findTransporter id (snd r) = findTransporter id sys) /\
      Block.data <$> blockchain (snd r)
      = (Block.data <$> blockchain sys)
          ++ [("Added Transporter | " ++ Transporter.toString new)%string]).
Proof.
  intros (Hne & _ & (_ & Hp & _) & (_ & Hs & _) & (_ & Hr & _) & (_ & Ht & _) & _).
  split; [|split; [|split]].
  - intros name price stock. cbn zeta. unfold addProduct. added Hne Hp.
  - intros name location branch latitude longitude. cbn zeta. unfold addSupplier.
    added Hne Hs.
  - intros name location latitude longitude initialCredit annualCredit. cbn zeta.
    unfold addRetailer. added Hne Hr.
  - intros name type costPerKm capacity. cbn zeta. unfold addTransporter. added Hne Ht.
Qed.

(** X12, witness: a second product on the sample system. *)
Lemma added_entity_is_found_by_the_returned_id_witness :
  let r := fst (addProduct "Fruits" 4.75 600 sample_system sample_world) in
  fst r = 2 /\
  findProduct (fst r) (snd r) = Some (1%nat, Product.mk 2 "Fruits" 4.75 600) /\
  (forall id, id <> 2 -> findProduct id (snd r) = findProduct id sample_system) /\
  Block.data <$> blockchain (snd r)
  = ["Genesis Block";
     "Added Product | Product ID: 2 | Name: Fruits | Price: RM4.75 | Stock: 600"].
Proof.
  assert (well_formed sample_system) as Hwf by well_formed_now.
  exact (proj1 (added_entity_is_found_by_the_returned_id sample_system sample_world Hwf)
               "Fruits" 4.75%float 600).
Defined.

(** X13. On a system whose ledger is empty each of the four [add...]
    functions returns [-1] with the entity stored all the same and the
    counter not advanced, the ledger still empty: two products added one
    after the other get the same id. *)
Theorem registration_on_an_empty_ledger (sys : ProductionPlanningSystem.t) (w : World) :
  blockchain sys = [] ->
  (forall name price stock,
      addProduct name price stock sys w
      = ((-1, set_products
                (products sys ++ [Product.mk (nextProductId sys) name price stock]) sys), w)) /\
  (forall name location branch latitude longitude,
      addSupplier name location branch latitude longitude sys w
      = ((-1, set_suppliers
                (suppliers sys ++ [Supplier.mk (nextSupplierId sys) name location branch
                                               latitude longitude []]) sys), w)) /\
  (forall name location latitude longitude initialCredit annualCredit,
      addRetailer name location latitude longitude initialCredit annualCredit sys w
      = ((-1, set_retailers
                (retailers sys ++ [Retailer.mk (nextRetailerId sys) name location latitude
                                               longitude initialCredit annualCredit []]) sys),
         w)) /\
  (forall name type costPerKm capacity,
      addTransporter name type costPerKm capacity sys w
      = ((-1, set_transporters
                (transporters sys ++ [Transporter.mk (nextTransporterId sys) name type
                                                     costPerKm capacity]) sys), w)) /\
  (forall name price stock name' price' stock',
      let sys1 := snd (fst (addProduct name price stock sys w)) in
      let sys2 := snd (fst (addProduct name' price' stock' sys1 w)) in
      products sys2
      = products sys ++ [Product.mk (nextProductId sys) name price stock;
                         Product.mk (nextProductId sys) name' price' stock']).
Proof.
  intros E. split; [|split; [|split; [|split]]].
  - intros. unfold addProduct. by rewrite register_empty.
  - intros. unfold addSupplier. by rewrite register_empty.
  - intros. unfold addRetailer. by rewrite register_empty.
  - intros. unfold addTransporter. by rewrite register_empty.
  - intros name price stock name' price' stock'. cbn zeta.
    unfold addProduct at 2. rewrite register_empty by exact E. unfold_setters.
    unfold addProduct. rewrite register_empty by exact E. unfold_setters.
    by rewrite <- app_assoc.
Qed.

(** X13, witness: a product added after a failed restore. *)
Lemma registration_on_an_empty_ledger_witness :
  addProduct "Fruits" 4.75 600 stranded_system sample_world
  = ((-1, set_products (products stranded_system ++ [Product.mk 2 "Fruits" 4.75 600])
                       stranded_system), sample_world).
Proof.
  apply (proj1 (registration_on_an_empty_ledger stranded_system sample_world eq_refl)).
Defined.

(** *** Construction and reset *)

Ltac last_of c :=
  lazymatch c with
  | [?b] => b
  | _ :: ?rest => last_of rest
  end.

Section Registration.

Variables (ps : list Product.t) (ss : list Supplier.t) (rs : list Retailer.t)
          (ts : list Transporter.t) (xs : list Transaction.t) (cs : list SmartContract)
          (chain : list Block.t) (n1 n2 n3 n4 n5 : Z) (latest : Block.t) (w : World).
Hypothesis Hlast : last chain = Some latest.

Let appended (h stamp d : string) : list Block.t :=
  chain ++ [Block.mk (int_add (Block.blockNumber latest) 1) h (Block.currentHash latest)
                     stamp d].

Lemma addProduct_appends name price stock :
  exists h stamp w',
    addProduct name price stock (mk ps ss rs ts xs cs chain n1 n2 n3 n4 n5) w
    = ((n1, mk (ps ++ [Product.mk n1 name price stock]) ss rs ts xs cs
               (appended h stamp ("Added Product | "
                                  ++ Product.toString (Product.mk n1 name price stock)))
               (int_add n1 1) n2 n3 n4 n5), w').
Proof.
  unfold addProduct. unfold_setters.
  match goal with
  | |- context [register ?d ?n ?f ?s w] =>
      destruct (register_appends d n f s latest w Hlast) as (h & stamp & w' & ->)
  end.
  by exists h, stamp, w'.
Qed.

Lemma addSupplier_appends name location branch latitude longitude :
  exists h stamp w',
    addSupplier name location branch latitude longitude
                (mk ps ss rs ts xs cs chain n1 n2 n3 n4 n5) w
    = ((n2, mk ps (ss ++ [Supplier.mk n2 name location branch latitude longitude []])
               rs ts xs cs
               (appended h stamp
                  ("Added Supplier | "
                   ++ Supplier.toString
                        (Supplier.mk n2 name location branch latitude longitude [])))
               n1 (int_add n2 1) n3 n4 n5), w').
Proof.
  unfold addSupplier. unfold_setters.
  match goal with
  | |- context [register ?d ?n ?f ?s w] =>
      destruct (register_appends d n f s latest w Hlast) as (h & stamp & w' & ->)
  end.
  by exists h, stamp, w'.
Qed.

Lemma addRetailer_appends name location latitude longitude initialCredit annualCredit :
  exists h stamp w',
    addRetailer name location latitude longitude initialCredit annualCredit
                (mk ps ss rs ts xs cs chain n1 n2 n3 n4 n5) w
    = ((n3, mk ps ss
               (rs ++ [Retailer.mk n3 name location latitude longitude initialCredit
                                   annualCredit []])
               ts xs cs
               (appended h stamp
                  ("Added Retailer | "
                   ++ Retailer.toString
                        (Retailer.mk n3 name location latitude longitude initialCredit
                                     annualCredit [])))
               n1 n2 (int_add n3 1) n4 n5), w').
Proof.
  unfold addRetailer. unfold_setters.
  match goal with
  | |- context [register ?d ?n ?f ?s w] =>
      destruct (register_appends d n f s latest w Hlast) as (h & stamp & w' & ->)
  end.
  by exists h, stamp, w'.
Qed.

Lemma addTransporter_appends name type costPerKm capacity :
  exists h stamp w',
    addTransporter name type costPerKm capacity (mk ps ss rs ts xs cs chain n1 n2 n3 n4 n5) w
    = ((n4, mk ps ss rs (ts ++ [Transporter.mk n4 name type costPerKm capacity]) xs cs
               (appended h stamp
                  ("Added Transporter | "
                   ++ Transporter.toString (Transporter.mk n4 name type costPerKm capacity)))
               n1 n2 n3 (int_add n4 1) n5), w').
Proof.
  unfold addTransporter. unfold_setters.
  match goal with
  | |- context [register ?d ?n ?f ?s w] =>
      destruct (register_appends d n f s latest w Hlast) as (h & stamp & w' & ->)
  end.
  by exists h, stamp, w'.
Qed.

End Registration.

Ltac after_step :=
  cbn [fst snd app Block.blockNumber Block.currentHash];
  repeat match goal with
         | |- context [int_add (Z.pos ?a) 1] =>
             let v := eval vm_compute in (int_add (Z.pos a) 1) in
             change (int_add (Z.pos a) 1) with v
         end.

Ltac registration :=
  let h := fresh "h" in
  let stamp := fresh "stamp" in
  let w' := fresh "w" in
  let E := fresh "E" in
  match goal with
  | |- context [addProduct ?a ?b ?c (mk ?ps ?ss ?rs ?ts ?xs ?cs ?chain ?n1 ?n2 ?n3 ?n4 ?n5) ?w] =>
      let l := last_of chain in
      destruct (addProduct_appends ps ss rs ts xs cs chain n1 n2 n3 n4 n5 l w eq_refl a b c)
        as (h & stamp & w' & E)
  | |- context [addSupplier ?a ?b ?c ?d ?e
                            (mk ?ps ?ss ?rs ?ts ?xs ?cs ?chain ?n1 ?n2 ?n3 ?n4 ?n5) ?w] =>
      let l := last_of chain in
      destruct (addSupplier_appends ps ss rs ts xs cs chain n1 n2 n3 n4 n5 l w eq_refl
                                    a b c d e)
        as (h & stamp & w' & E)
  | |- context [addRetailer ?a ?b ?c ?d ?e ?g
                            (mk ?ps ?ss ?rs ?ts ?xs ?cs ?chain ?n1 ?n2 ?n3 ?n4 ?n5) ?w] =>
      let l := last_of chain in
      destruct (addRetailer_appends ps ss rs ts xs cs chain n1 n2 n3 n4 n5 l w eq_refl
                                    a b c d e g)
        as (h & stamp & w' & E)
  | |- context [addTransporter ?a ?b ?c ?d
                               (mk ?ps ?ss ?rs ?ts ?xs ?cs ?chain ?n1 ?n2 ?n3 ?n4 ?n5) ?w] =>
      let l := last_of chain in
      destruct (addTransporter_appends ps ss rs ts xs cs chain n1 n2 n3 n4 n5 l w eq_refl
                                       a b c d)
        as (h & stamp & w' & E)
  end;
  rewrite E; clear E; after_step.

Lemma loadSampleData_spec (cs : list SmartContract) (genesis : Block.t) (w : World) :
  let fresh := fst (loadSampleData (mk [] [] [] [] [] cs [genesis] 1 1 1 1 1) w) in
  exists blocks,
    blockchain fresh = genesis :: blocks /\ length blocks = 10%nat /\
    linked (genesis :: blocks) /\
    Product.id <$> products fresh = [1; 2; 3] /\
    Supplier.id <$> suppliers fresh = [1; 2] /\
    Supplier.productIds <$> suppliers fresh = [[1; 2]; [2; 3]] /\
    Retailer.id <$> retailers fresh = [1; 2; 3] /\
    Transporter.id <$> transporters fresh = [1; 2] /\
    transactions fresh = [] /\ contracts fresh = cs /\
    nextProductId fresh = 4 /\ nextSupplierId fresh = 3 /\ nextRetailerId fresh = 4 /\
    nextTransporterId fresh = 3 /\ nextTransactionId fresh = 1.
Proof.
  cbn zeta. unfold loadSampleData, bind, ret.
  do 5 registration.
  match goal with
  | |- context [link_products 2 [2; 3] ?s] =>
      let v := eval cbv [link_products findSupplier find_by_id find_from suppliers Supplier.id
                         Z.eqb Pos.eqb set_suppliers products retailers transporters
                         transactions contracts blockchain nextProductId nextSupplierId
                         nextRetailerId nextTransporterId nextTransactionId fold_left
                         Supplier.addProduct Supplier.name Supplier.location Supplier.branch
                         Supplier.latitude Supplier.longitude Supplier.productIds app
                         insert list_insert]
               in (link_products 2 [2; 3] s) in
      change (link_products 2 [2; 3] s) with v
  end.
  do 5 registration.
  cbn [blockchain products suppliers retailers transporters transactions contracts
       nextProductId nextSupplierId nextRetailerId nextTransporterId nextTransactionId].
  eexists. split; [reflexivity|]. split; [reflexivity|]. split.
  { apply isChainValid_linked.
    cbn [isChainValid isChainValid_from Block.previousHash Block.currentHash].
    rewrite !String.eqb_refl. reflexivity. }
  repeat split; reflexivity.
Qed.

(** X14. The constructor is [resetSystem] on the default contract. After
    [resetSystem], whatever the system was and whatever the world yields,
    the system is well-formed; it holds products 1 to 3, suppliers 1 and
    2 carrying products 1, 2 and 2, 3, retailers 1 to 3, transporters 1
    and 2 and no transaction; the contracts are those it had; the ledger
    has eleven blocks; the counters stand at 4, 3, 4, 3 and 1. *)
Theorem fresh_system_is_well_formed (sys : ProductionPlanningSystem.t) (w : World) :
  ProductionPlanningSystem.new w
  = resetSystem (mk [] [] [] [] [] [PriceThresholdContract 4000] [] 0 0 0 0 0) w /\
  let fresh := fst (resetSystem sys w) in
  well_formed fresh /\ length (blockchain fresh) = 11%nat /\
  Product.id <$> products fresh = [1; 2; 3] /\
  Supplier.id <$> suppliers fresh = [1; 2] /\
  Supplier.productIds <$> suppliers fresh = [[1; 2]; [2; 3]] /\
  Retailer.id <$> retailers fresh = [1; 2; 3] /\
  Transporter.id <$> transporters fresh = [1; 2] /\
  transactions fresh = [] /\ contracts fresh = contracts sys /\
  nextProductId fresh = 4 /\ nextSupplierId fresh = 3 /\ nextRetailerId fresh = 4 /\
  nextTransporterId fresh = 3 /\ nextTransactionId fresh = 1.
Proof.
  split; [reflexivity|]. cbn zeta. unfold resetSystem, bind.
  destruct (new_spec w) as (gh & h & ts & w' & ->).
  destruct (loadSampleData_spec (contracts sys) (Block.mk 0 h gh ts "Genesis Block") w')
    as (blocks & Hchain & Hlen & Hlinked & Hp & Hs & Hl & Hr & Ht & Hx & Hc & H1 & H2 & H3
        & H4 & H5).
  cbn zeta in Hchain, Hlen, Hlinked, Hp, Hs, Hl, Hr, Ht, Hx, Hc, H1, H2, H3, H4, H5.
  set (fresh := fst (loadSampleData _ w')) in *.
  assert (forall ids : list Z, bool_decide (NoDup ids) = true -> NoDup ids) as Hdec
    by (intros ids; apply bool_decide_eq_true_1).
  assert (forall {A} (getId : A -> Z) (l : list A) (ids : list Z) (n : Z),
             (getId <$> l) = ids -> bool_decide (NoDup ids) = true ->
             (forallb (fun id => id <? n) ids) = true -> in_int n ->
             numbered_below getId l n) as Hnum.
  { intros A getId l ids n <- Hnd Hlt Hn. split; [by apply Hdec|]. split; [|exact Hn].
    apply Forall_forall. intros x Hx'. rewrite forallb_forall in Hlt.
    apply Z.ltb_lt, Hlt, list_elem_of_In, list_elem_of_fmap. by exists x. }
  assert (forall n, ((INT_MIN <=? n) && (n <=? INT_MAX)) = true -> in_int n) as Hin.
  { intros n H. apply andb_true_iff in H. destruct H as [Ha Hb].
    split; [by apply Z.leb_le|by apply Z.leb_le]. }
  split; [|rewrite Hchain; cbn [length]; rewrite Hlen; by repeat split].
  unfold well_formed. rewrite Hchain, H1, H2, H3, H4, H5, Hx.
  split; [done|]. split; [exact Hlinked|].
  split; [by apply (Hnum _ _ _ _ _ Hp); [| |apply Hin]|].
  split; [by apply (Hnum _ _ _ _ _ Hs); [| |apply Hin]|].
  split; [by apply (Hnum _ _ _ _ _ Hr); [| |apply Hin]|].
  split; [by apply (Hnum _ _ _ _ _ Ht); [| |apply Hin]|].
  split; [apply NoDup_nil_2|]. split; [constructor|by apply Hin].
Qed.

(* ===================================================================== *)
(** ** The pipeline: what it reads, appends and reports *)
(* ===================================================================== *)

Lemma find_from_fmap {A} (getId : A -> Z) (f : A -> A) (id : Z) (l : list A) :
  (forall x, getId (f x) = getId x) ->
  forall k, find_from getId id (f <$> l) k
            = (fun r : nat * A => (fst r, f (snd r))) <$> find_from getId id l k.
Proof.
  intros Hf. induction l as [|x l IH]; intros k; [reflexivity|].
  rewrite fmap_cons. cbn [find_from]. rewrite Hf.
  destruct (getId x =? id); [reflexivity|apply IH].
Qed.

Ltac unfold_sys :=
  cbn [fst snd blockchain products suppliers retailers transporters transactions contracts
       nextProductId nextSupplierId nextRetailerId nextTransporterId nextTransactionId
       set_products set_suppliers set_retailers set_transporters set_transactions
       set_blockchain set_nextTransactionId].

(** X15. [createTransaction] never looks at a transporter's capacity (or
    name, or type): changing the transporters in any way that keeps their
    ids and their cost per km changes neither what the call returns nor
    anything else it leaves behind. *)
Theorem capacity_is_never_checked (f : Transporter.t -> Transporter.t)
    (supplierId retailerId productId transporterId quantity : Z) (orderType : string)
    (sys : ProductionPlanningSystem.t) (w : World) :
  (forall tr, Transporter.id (f tr) = Transporter.id tr) ->
  (forall tr, Transporter.costPerKm (f tr) = Transporter.costPerKm tr) ->
  createTransaction supplierId retailerId productId transporterId quantity orderType
                    (set_transporters (f <$> transporters sys) sys) w
  = (let '((id, sys'), w') :=
       createTransaction supplierId retailerId productId transporterId quantity orderType
                         sys w in
     ((id, set_transporters (f <$> transporters sys') sys'), w')).
Proof.
  intros Hid Hcost.
  destruct sys as [ps ss rs ts xs cs chain n1 n2 n3 n4 n5].
  unfold createTransaction, createTransaction_try, bind, ret,
    findSupplier, findRetailer, findProduct, findTransporter, find_by_id.
  cbn [suppliers retailers products transporters set_transporters contracts blockchain
       transactions nextProductId nextSupplierId nextRetailerId nextTransporterId
       nextTransactionId].
  rewrite (find_from_fmap Transporter.id f transporterId ts Hid).
  destruct (find_from Supplier.id supplierId ss 0) as [[si supplier]|]; [|reflexivity].
  destruct (find_from Retailer.id retailerId rs 0) as [[ri retailer]|]; [|reflexivity].
  destruct (find_from Product.id productId ps 0) as [[pi product]|]; [|reflexivity].
  destruct (find_from Transporter.id transporterId ts 0) as [[ti transporter]|];
    [|reflexivity].
  cbn [fmap option_fmap option_map fst snd].
  destruct (negb (existsb _ _)); [reflexivity|].
  destruct (negb (Product.hasEnoughStock quantity product)); [reflexivity|].
  unfold Transporter.calculateTransportCost. rewrite Hcost.
  unfold Transaction.new, bind, ret.
  destruct (getCurrentTimestamp w) as [stamp w1].
  match goal with
  | |- context [forallb ?p cs] => destruct (forallb p cs)
  end; cbn [negb].
  2: { unfold record_transaction, bind, ret. unfold_sys.
       match goal with
       | |- context [addBlock ?d chain w1] => destruct (addBlock d chain w1) as [[chain'|e] w2]
       end; reflexivity. }
  match goal with
  | |- context [Retailer.deductCredit ?c retailer] =>
      destruct (Retailer.deductCredit c retailer) as [[] retailer']
  end.
  - unfold record_transaction, bind, ret. unfold_sys.
    match goal with
    | |- context [addBlock ?d chain w1] => destruct (addBlock d chain w1) as [[chain'|e] w2]
    end; reflexivity.
  - unfold record_transaction, bind, ret. unfold_sys.
    match goal with
    | |- context [addBlock ?d chain w1] => destruct (addBlock d chain w1) as [[chain'|e] w2]
    end; reflexivity.
Qed.

(** X15, witness: an order of a thousand units with every capacity set to
    0. *)
Lemma capacity_is_never_checked_witness :
  let no_capacity := fun tr => Transporter.mk (Transporter.id tr) (Transporter.name tr)
                                              (Transporter.transportType tr)
                                              (Transporter.costPerKm tr) 0 in
  createTransaction 1 1 1 1 1000 "Regular"
                    (set_transporters (no_capacity <$> transporters sample_system)
                                      sample_system) sample_world
  = (let '((id, sys'), w') :=
       createTransaction 1 1 1 1 1000 "Regular" sample_system sample_world in
     ((id, set_transporters (no_capacity <$> transporters sys') sys'), w')).
Proof.
  intros no_capacity.
  refine (capacity_is_never_checked no_capacity 1 1 1 1 1000 "Regular" sample_system
                                    sample_world _ _).
  - intros tr. reflexivity.
  - intros tr. reflexivity.
Defined.

Lemma call_appends c (sys : ProductionPlanningSystem.t) w :
  blockchain sys <> [] -> linked (blockchain sys) ->
  let sys' := snd (fst (call c sys w)) in
  linked (blockchain sys') /\
  exists blocks stored,
    blockchain sys' = blockchain sys ++ blocks /\
    transactions sys' = transactions sys ++ stored /\
    length blocks = length stored /\
    length stored = (if constructs c sys then 1 else 0)%nat.
Proof.
  intros Hne Hl. unfold call, constructs.
  pose proof (createTransaction_cases (call_supplier c) (call_retailer c) (call_product c)
                (call_transporter c) (call_quantity c) (call_orderType c) sys w) as C.
  destruct (resolve _ _ _ _ _ _)
    as [[[[supplier [ri retailer]] [pi product]] transporter]|] eqn:R.
  - destruct C as (ts & prefix & stored & sys1 & id & sys' & w' & _ & E & Htx & _ & _ & _ & _
                   & _ & L).
    rewrite E. cbn [fst snd]. destruct (last_is_Some _ Hne) as [latest Hlast].
    rewrite Hlast in L. destruct L as (_ & _ & block & Hb & Hprev & _).
    split; [rewrite Hb; by apply (linked_snoc _ latest)|].
    exists [block], [stored]. done.
  - rewrite C. cbn [fst snd]. split; [exact Hl|].
    exists [], []. by rewrite !app_nil_r.
Qed.

(** X16. Any sequence of [createTransaction] calls on a system with a
    non-empty ledger that [isChainValid] accepts leaves a ledger that
    [isChainValid] accepts; the old blocks and the old transactions are
    still there, in place, followed by one new block and one new
    transaction for each call that constructed a [Transaction]. *)
Theorem runs_only_append_to_a_valid_ledger (calls : list Call) :
  forall (sys : ProductionPlanningSystem.t) (w : World),
    blockchain sys <> [] -> isChainValid (blockchain sys) = true ->
    let r := fst (run calls sys w) in
    let n := length (List.filter step_constructs (fst r)) in
    isChainValid (blockchain (snd r)) = true /\
    (exists blocks, blockchain (snd r) = blockchain sys ++ blocks /\ length blocks = n) /\
    (exists stored, transactions (snd r) = transactions sys ++ stored /\ length stored = n).
Proof.
  induction calls as [|c calls IH]; intros sys w Hne Hvalid.
  - cbn. split; [exact Hvalid|]. split; exists []; by rewrite app_nil_r.
  - rewrite run_cons. cbn [fst snd]. cbn zeta.
    apply isChainValid_linked in Hvalid.
    destruct (call_appends c sys w Hne Hvalid) as (Hl1 & blocks1 & stored1 & Hb1 & Ht1 & Hlen & Hn1).
    set (sys1 := snd (fst (call c sys w))) in *.
    assert (blockchain sys1 <> []) as Hne1 by (rewrite Hb1; by destruct (blockchain sys)).
    apply isChainValid_linked in Hl1.
    destruct (IH sys1 (snd (call c sys w)) Hne1 Hl1) as (Hv & (blocks & Hb & Hbn) & (stored & Ht & Htn)).
    split; [exact Hv|].
    assert (length (List.filter step_constructs
                      (mkStep (constructs c sys) (fst (fst (call c sys w)))
                              (nextTransactionId sys) (nextTransactionId sys1)
                       :: fst (fst (run calls sys1 (snd (call c sys w))))))
            = (length stored1 + length stored)%nat) as ->.
    { cbn [List.filter step_constructs]. rewrite Hn1, Htn.
      by destruct (constructs c sys). }
    split.
    + exists (blocks1 ++ blocks). rewrite Hb, Hb1, app_assoc, length_app. split; [done|]. lia.
    + exists (stored1 ++ stored). rewrite Ht, Ht1, app_assoc, length_app. done.
Qed.

(** X16, witness: a completed order, an order beyond the stock and an
    order beyond the price ceiling. *)
Lemma runs_only_append_to_a_valid_ledger_witness :
  let calls := [mkCall 1 1 1 1 100 "Regular"; mkCall 1 1 1 1 5000 "Regular";
                mkCall 1 1 1 1 800 "Seasonal"] in
  let r := fst (run calls sample_system sample_world) in
  let n := length (List.filter step_constructs (fst r)) in
  n = 2%nat /\
  isChainValid (blockchain (snd r)) = true /\
  (exists blocks,
      blockchain (snd r) = blockchain sample_system ++ blocks /\ length blocks = n) /\
  (exists stored,
      transactions (snd r) = transactions sample_system ++ stored /\ length stored = n).
Proof.
  intros calls r n. split; [vm_compute; reflexivity|].
  apply (runs_only_append_to_a_valid_ledger calls sample_system sample_world).
  - discriminate.
  - reflexivity.
Defined.

Lemma beginRetailerTransaction_products
    (retailerId supplierId productId quantity transporterId : Z)
    (sys : ProductionPlanningSystem.t) (w : World) :
  Forall (fun p => in_int (Product.stock p)) (products sys) ->
  let r := fst (beginRetailerTransaction retailerId supplierId productId quantity
                                         transporterId sys w) in
  products (snd r) = products sys \/
  exists pi product,
    findProduct productId sys = Some (pi, product) /\
    0 < quantity <= Product.stock product /\
    products (snd r)
    = <[pi := Product.mk (Product.id product) (Product.name product) (Product.price product)
                         (Product.stock product - quantity)]> (products sys).
Proof.
  intros Hint. cbn zeta. unfold beginRetailerTransaction.
  destruct (findRetailer retailerId sys) as [[ri retailer]|]; [|by auto].
  destruct (findSupplier supplierId sys) as [[si supplier]|]; [|by auto].
  destruct (negb (existsb _ _)); [by auto|].
  destruct (Z.leb_spec quantity 0) as [Hq|Hq]; [by auto|].
  unfold bind, ret.
  pose proof (createTransaction_cases supplierId retailerId productId transporterId quantity
                "Regular" sys w) as C.
  destruct (resolve _ _ _ _ _ _)
    as [[[[supplier' [ri' retailer']] [pi product]] transporter]|] eqn:R.
  - destruct C as (ts & prefix & stored & sys1 & id & sys' & w' & S & E & _ & Hpr & _).
    rewrite E. cbn [fst snd]. rewrite Hpr.
    apply resolve_Some_iff in R. destruct R as (_ & _ & Hfp & _ & _ & Hstock).
    cbn [snd] in Hstock.
    destruct (settle_counters _ _ _ _ _ _ _ _ _ S) as (_ & _ & _ & _ & _ & [->| ->] & _);
      [by left|].
    right. exists pi, product. split; [exact Hfp|]. split; [lia|].
    cbn [costed Transaction.quantity]. unfold Product.updateStock.
    rewrite int_sub_exact; [reflexivity|exact Hstock|].
    apply find_by_id_lookup in Hfp. destruct Hfp as [Hfp _].
    rewrite Forall_forall in Hint. apply list_elem_of_lookup_2 in Hfp.
    destruct (Hint _ Hfp) as [_ Hmax]. lia.
  - rewrite C. by left.
Qed.

(** X17. [beginRetailerTransaction] on a system whose stocks are [int]s:
    a quantity that is not positive is refused and nothing changes;
    otherwise the products are as before, or the product found by the id
    has its stock lowered by exactly the quantity, which was positive and
    within the stock, nothing else of it changed. *)
Theorem order_entry_takes_stock_exactly
    (retailerId supplierId productId quantity transporterId : Z)
    (sys : ProductionPlanningSystem.t) (w : World) :
  Forall (fun p => in_int (Product.stock p)) (products sys) ->
  let r := fst (beginRetailerTransaction retailerId supplierId productId quantity
                                         transporterId sys w) in
  (quantity <= 0 -> is_ok (fst r) = false /\ snd r = sys) /\
  (products (snd r) = products sys \/
   exists pi product,
     findProduct productId sys = Some (pi, product) /\
     0 < quantity <= Product.stock product /\
     products (snd r)
     = <[pi := Product.mk (Product.id product) (Product.name product) (Product.price product)
                          (Product.stock product - quantity)]> (products sys)).
Proof.
  intros Hint. split; [|by apply beginRetailerTransaction_products].
  intros Hq. unfold beginRetailerTransaction.
  destruct (findRetailer retailerId sys) as [[ri retailer]|]; [|done].
  destruct (findSupplier supplierId sys) as [[si supplier]|]; [|done].
  destruct (negb (existsb _ _)); [done|].
  destruct (Z.leb_spec quantity 0); [done|lia].
Qed.

(** X17, witness: an order of a hundred units. *)
Lemma order_entry_takes_stock_exactly_witness :
  let r := fst (beginRetailerTransaction 1 1 1 100 1 sample_system sample_world) in
  (100 <= 0 -> is_ok (fst r) = false /\ snd r = sample_system) /\
  (products (snd r) = products sample_system \/
   exists pi product,
     findProduct 1 sample_system = Some (pi, product) /\
     0 < 100 <= Product.stock product /\
     products (snd r)
     = <[pi := Product.mk (Product.id product) (Product.name product) (Product.price product)
                          (Product.stock product - 100)]> (products sample_system)).
Proof.
  refine (order_entry_takes_stock_exactly 1 1 1 100 1 sample_system sample_world _).
  repeat (constructor; [in_int_now|]). constructor.
Defined.

(** X18. If every stock lies between 0 and [INT_MAX], it still does after
    [addNewProduct] (the stock entered being an [int]) and after
    [beginRetailerTransaction], whatever is entered. *)
Theorem menu_keeps_stock_in_range (sys : ProductionPlanningSystem.t) (w : World) :
  Forall (fun p => 0 <= Product.stock p <= INT_MAX) (products sys) ->
  (forall name price stock,
      (forall z, stock = Some z -> in_int z) ->
      Forall (fun p => 0 <= Product.stock p <= INT_MAX)
             (products (snd (fst (addNewProduct name price stock sys w))))) /\
  (forall retailerId supplierId productId quantity transporterId,
      Forall (fun p => 0 <= Product.stock p <= INT_MAX)
             (products (snd (fst (beginRetailerTransaction retailerId supplierId productId
                                                           quantity transporterId sys w))))).
Proof.
  intros Hall. split.
  - intros name price stock Hstock. unfold addNewProduct.
    destruct price as [price|]; [|exact Hall].
    destruct (PrimFloat.ltb price 0); [exact Hall|].
    destruct stock as [stock|]; [|exact Hall].
    destruct (Z.ltb_spec stock 0) as [Hneg|Hpos]; [exact Hall|].
    unfold bind, ret, addProduct, register, bind, ret. unfold_sys.
    destruct (addBlock _ (blockchain sys) w) as [[chain|e] w']; unfold_sys.
    all: apply Forall_app; split; [exact Hall|]; constructor; [|constructor].
    all: cbn [Product.stock]; destruct (Hstock stock eq_refl) as [_ Hmax]; lia.
  - intros retailerId supplierId productId quantity transporterId.
    destruct (beginRetailerTransaction_products retailerId supplierId productId quantity
                transporterId sys w) as [->|(pi & product & Hfind & Hq & ->)]; [|exact Hall|].
    { eapply Forall_impl; [exact Hall|]. cbn. intros p Hp.
      unfold in_int, INT_MIN. lia. }
    apply Forall_insert; [exact Hall|]. cbn [Product.stock].
    apply find_by_id_lookup in Hfind. destruct Hfind as [Hl _].
    rewrite Forall_forall in Hall. apply list_elem_of_lookup_2 in Hl.
    specialize (Hall _ Hl). cbn in Hall. lia.
Qed.

(** X18, witness: a new product and an order of a hundred units. *)
Lemma menu_keeps_stock_in_range_witness :
  Forall (fun p => 0 <= Product.stock p <= INT_MAX)
         (products (snd (fst (addNewProduct "Fruits" (Some 4.75%float) (Some 600)
                                            sample_system sample_world)))) /\
  Forall (fun p => 0 <= Product.stock p <= INT_MAX)
         (products (snd (fst (beginRetailerTransaction 1 1 1 100 1 sample_system
                                                       sample_world)))).
Proof.
  assert (Forall (fun p => 0 <= Product.stock p <= INT_MAX) (products sample_system)) as Hall.
  { repeat (constructor; [unfold INT_MAX; cbn; lia|]). constructor. }
  destruct (menu_keeps_stock_in_range sample_system sample_world Hall) as [Hadd Horder].
  split.
  - apply Hadd. intros z [= <-]. in_int_now.
  - apply Horder.
Defined.

(** *** The report and the stock *)

Lemma wrap_int_sub_r a b : wrap_int (a - wrap_int b) = wrap_int (a - b).
Proof.
  unfold wrap_int. f_equal.
  assert (forall m, a - (m - 2147483648) + 2147483648 = a + 4294967296 - m) as -> by (intros; lia).
  rewrite Zminus_mod_idemp_r. f_equal. lia.
Qed.

Lemma wrap_int_idem a : wrap_int (wrap_int a) = wrap_int a.
Proof. apply wrap_int_id, wrap_int_range. Qed.

Lemma find_from_insert {A} (getId : A -> Z) (id : Z) (y : A) (l : list A) :
  forall (i k : nat) (x : A),
    l !! i = Some x -> getId y = getId x ->
    find_from getId id (<[i := y]> l) k
    = (fun r : nat * A => if (fst r =? k + i)%nat then (fst r, y) else r)
        <$> find_from getId id l k.
Proof.
  induction l as [|z l IH]; intros i k x Hi Hy; [done|].
  destruct i as [|i].
  - injection Hi as ->. change (<[O := y]> (x :: l)) with (y :: l).
    cbn [find_from]. rewrite Hy.
    destruct (getId x =? id).
    + cbn. rewrite Nat.add_0_r, Nat.eqb_refl. reflexivity.
    + pose proof (find_from_spec getId id l (S k)) as Hspec.
      destruct (find_from getId id l (S k)) as [[j u]|]; [|reflexivity].
      destruct (Hspec j u eq_refl) as (Hj & _). cbn.
      destruct (Nat.eqb_spec j (k + 0)); [lia|reflexivity].
  - cbn in Hi. change (<[S i := y]> (z :: l)) with (z :: <[i := y]> l).
    cbn [find_from]. destruct (getId z =? id).
    + cbn. destruct (Nat.eqb_spec k (k + S i)); [lia|reflexivity].
    + rewrite (IH i (S k) x Hi Hy).
      destruct (find_from getId id l (S k)) as [[j u]|]; [|reflexivity].
      cbn [fmap option_fmap option_map fst].
      destruct (Nat.eqb_spec j (S k + i)), (Nat.eqb_spec j (k + S i)); (reflexivity || lia).
Qed.

Lemma find_by_id_insert {A} (getId : A -> Z) (id : Z) (l : list A) (i : nat) (x y : A) :
  l !! i = Some x -> getId y = getId x ->
  find_by_id getId id (<[i := y]> l)
  = (fun r : nat * A => if (fst r =? i)%nat then (fst r, y) else r) <$> find_by_id getId id l.
Proof. intros Hi Hy. unfold find_by_id. by rewrite (find_from_insert getId id y l i O x Hi Hy). Qed.

(** The quantity the report holds for a product. *)
Lemma report_step_quantity (r : Report) (x : Transaction.t) (productId : Z) :
  default 0 (productQuantities (report_step r x) !! productId)
  = if String.eqb (Transaction.status x) "Completed" && (Transaction.productId x =? productId)
    then int_add (default 0 (productQuantities r !! productId)) (Transaction.quantity x)
    else default 0 (productQuantities r !! productId).
Proof.
  unfold report_step. destruct (String.eqb (Transaction.status x) "Completed"); cbn [andb].
  - cbn [productQuantities]. destruct (Z.eqb_spec (Transaction.productId x) productId) as [->|E].
    + by rewrite lookup_insert_eq.
    + by rewrite lookup_insert_ne.
  - by destruct (String.eqb (Transaction.status x) "Failed").
Qed.

Lemma report_quantities_in_int (history : list Transaction.t) :
  forall r : Report,
    (forall k, in_int (default 0 (productQuantities r !! k))) ->
    forall k, in_int (default 0 (productQuantities (fold_left report_step history r) !! k)).
Proof.
  induction history as [|x history IH]; intros r Hr k; [apply Hr|].
  cbn [fold_left]. apply IH. intros k'. rewrite report_step_quantity.
  destruct (_ && _); [apply wrap_int_range|apply Hr].
Qed.

Lemma call_conserves c (sys : ProductionPlanningSystem.t) w :
  let sys' := snd (fst (call c sys w)) in
  exists stored,
    transactions sys' = transactions sys ++ stored /\
    forall productId pi product,
      findProduct productId sys = Some (pi, product) ->
      exists product',
        findProduct productId sys' = Some (pi, product') /\
        forall r : Report,
          wrap_int (default 0 (productQuantities (fold_left report_step stored r) !! productId))
          = wrap_int (default 0 (productQuantities r !! productId)
                      + (Product.stock product - Product.stock product')).
Proof.
  cbn zeta. unfold call.
  pose proof (createTransaction_cases (call_supplier c) (call_retailer c) (call_product c)
                (call_transporter c) (call_quantity c) (call_orderType c) sys w) as C.
  destruct (resolve _ _ _ _ _ _)
    as [[[[supplier [ri retailer]] [pi0 product0]] transporter]|] eqn:R.
  - destruct C as (ts & prefix & stored & sys1 & id & sys' & w' & S & E & Htx & Hpr & _).
    rewrite E. cbn [fst snd]. exists [stored]. split; [exact Htx|].
    intros productId pi product Hfind. cbn [fold_left].
    apply resolve_Some_iff in R. destruct R as (_ & _ & Hfp0 & _).
    unfold findProduct in *. rewrite Hpr.
    unfold settle in S.
    destruct (negb (approved _ _)).
    { injection S as <- <- <-. exists product. split; [exact Hfind|]. intros r.
      rewrite report_step_quantity. cbn [Transaction.status Transaction.setStatus andb].
      change (String.eqb "Failed" "Completed") with false. cbn [andb]. f_equal. lia. }
    destruct (negb (PrimFloat.leb _ _)).
    { injection S as <- <- <-. exists product. split; [exact Hfind|]. intros r.
      rewrite report_step_quantity. cbn [Transaction.status Transaction.setStatus andb].
      change (String.eqb "Failed" "Completed") with false. cbn [andb]. f_equal. lia. }
    injection S as <- <- <-. cbn [products set_products set_retailers].
    pose proof Hfp0 as Hl0. apply find_by_id_lookup in Hl0. destruct Hl0 as [Hl0 Hid0].
    cbn [costed Transaction.quantity].
    rewrite (find_by_id_insert Product.id productId (products sys) pi0 product0
               (Product.updateStock (int_neg (call_quantity c)) product0) Hl0 eq_refl).
    rewrite Hfind. cbn [fmap option_fmap option_map fst].
    destruct (Nat.eqb_spec pi pi0) as [->|Hpi].
    + eexists. split; [reflexivity|]. intros r.
      pose proof Hfind as Hl. apply find_by_id_lookup in Hl. destruct Hl as [Hl Hid].
      rewrite Hl0 in Hl. injection Hl as <-. cbn [fst snd] in Hid0.
      rewrite report_step_quantity.
      cbn [Transaction.status Transaction.setStatus Transaction.productId Transaction.quantity
           costed].
      change (String.eqb "Completed" "Completed") with true. cbn [andb].
      assert ((call_product c =? productId) = true) as -> by (apply Z.eqb_eq; congruence).
      cbn [Product.updateStock Product.stock]. unfold int_add, int_neg.
      rewrite wrap_int_idem.
      set (a := default 0 (productQuantities r !! productId)).
      set (s := Product.stock product0). set (q := call_quantity c).
      replace (a + (s - wrap_int (s + wrap_int (- q)))) with ((a + s) - wrap_int (s + wrap_int (- q)))
        by lia.
      rewrite wrap_int_sub_r.
      replace (a + s - (s + wrap_int (- q))) with (a - wrap_int (- q)) by lia.
      rewrite wrap_int_sub_r. f_equal. lia.
    + exists product. split; [reflexivity|]. intros r.
      rewrite report_step_quantity.
      cbn [Transaction.status Transaction.setStatus Transaction.productId costed].
      destruct (Z.eqb_spec (call_product c) productId) as [Heq|Hne].
      * exfalso. rewrite Heq in Hfp0. cbn [fst snd] in Hfp0. congruence.
      * rewrite andb_false_r. f_equal. lia.
  - rewrite C. cbn [fst snd]. exists []. split; [by rewrite app_nil_r|].
    intros productId pi product Hfind. exists product. split; [exact Hfind|].
    intros r. cbn [fold_left]. f_equal. lia.
Qed.

Lemma run_conserves (calls : list Call) :
  forall (sys : ProductionPlanningSystem.t) (w : World),
    let sys' := snd (fst (run calls sys w)) in
    exists stored,
      transactions sys' = transactions sys ++ stored /\
      forall productId pi product,
        findProduct productId sys = Some (pi, product) ->
        exists product',
          findProduct productId sys' = Some (pi, product') /\
          forall r : Report,
            wrap_int (default 0 (productQuantities (fold_left report_step stored r) !! productId))
            = wrap_int (default 0 (productQuantities r !! productId)
                        + (Product.stock product - Product.stock product')).
Proof.
  induction calls as [|c calls IH]; intros sys w; cbn zeta.
  - cbn. exists []. split; [by rewrite app_nil_r|].
    intros productId pi product Hfind. exists product. split; [exact Hfind|].
    intros r. cbn [fold_left]. f_equal. lia.
  - rewrite run_cons. cbn [fst snd].
    destruct (call_conserves c sys w) as (stored1 & Ht1 & H1).
    set (sys1 := snd (fst (call c sys w))) in *.
    destruct (IH sys1 (snd (call c sys w))) as (stored & Ht & H).
    exists (stored1 ++ stored). split; [by rewrite Ht, Ht1, app_assoc|].
    intros productId pi product Hfind.
    destruct (H1 productId pi product Hfind) as (product1 & Hfind1 & Hq1).
    destruct (H productId pi product1 Hfind1) as (product' & Hfind' & Hq).
    exists product'. split; [exact Hfind'|]. intros r.
    rewrite fold_left_app, Hq, <- wrap_int_add_l, Hq1, wrap_int_add_l. f_equal. lia.
Qed.

(** X19. After any sequence of [createTransaction] calls on a system
    without transactions, the product found by an id before is found at
    the same place after, and the quantity [generateDistributionReport]
    adds up for the id is the stock it had minus the stock it has, as a
    32-bit integer: the difference itself when that is an [int]. *)
Theorem stock_taken_is_the_quantity_reported (calls : list Call)
    (sys : ProductionPlanningSystem.t) (w : World) (productId : Z) (pi : nat)
    (product : Product.t) :
  transactions sys = [] ->
  findProduct productId sys = Some (pi, product) ->
  let sys' := snd (fst (run calls sys w)) in
  let reported :=
    default 0 (productQuantities (generateDistributionReport sys') !! productId) in
  exists product',
    findProduct productId sys' = Some (pi, product') /\
    reported = wrap_int (Product.stock product - Product.stock product') /\
    (in_int (Product.stock product - Product.stock product') ->
     reported = Product.stock product - Product.stock product').
Proof.
  intros Hempty Hfind. cbn zeta.
  destruct (run_conserves calls sys w) as (stored & Ht & H). cbn zeta in Ht, H.
  destruct (H productId pi product Hfind) as (product' & Hfind' & Hq).
  exists product'. split; [exact Hfind'|].
  unfold generateDistributionReport. rewrite Ht, Hempty. cbn [app].
  specialize (Hq (mkReport 0 0 PrimFloat.zero ∅)).
  cbn [productQuantities] in Hq. rewrite lookup_empty in Hq. cbn [default from_option] in Hq.
  rewrite wrap_int_id in Hq.
  - rewrite Hq. cbn [Z.add]. split; [reflexivity|]. intros Hin. by apply wrap_int_id.
  - apply report_quantities_in_int. intros k. cbn [productQuantities].
    rewrite lookup_empty. cbn. unfold in_int, INT_MIN, INT_MAX. lia.
Qed.

(** X19, witness: two completed orders and one beyond the stock. *)
Lemma stock_taken_is_the_quantity_reported_witness :
  let calls := [mkCall 1 1 1 1 100 "Regular"; mkCall 1 1 1 1 5000 "Regular";
                mkCall 1 1 1 1 200 "Seasonal"] in
  let sys' := snd (fst (run calls sample_system sample_world)) in
  let reported := default 0 (productQuantities (generateDistributionReport sys') !! 1) in
  exists product',
    findProduct 1 sys' = Some (0%nat, product') /\
    reported = wrap_int (1000 - Product.stock product') /\
    (in_int (1000 - Product.stock product') -> reported = 1000 - Product.stock product').
Proof.
  intros calls.
  refine (stock_taken_is_the_quantity_reported calls sample_system sample_world 1 O
            (Product.mk 1 "Rice" 5.5 1000) _ _).
  - reflexivity.
  - reflexivity.
Defined.

(** *** The report's counters *)

Lemma call_stores_settled c (sys : ProductionPlanningSystem.t) w :
  Forall settled (transactions sys) ->
  Forall settled (transactions (snd (fst (call c sys w)))).
Proof.
  intros Hall. unfold call.
  pose proof (createTransaction_cases (call_supplier c) (call_retailer c) (call_product c)
                (call_transporter c) (call_quantity c) (call_orderType c) sys w) as C.
  destruct (resolve _ _ _ _ _ _)
    as [[[[supplier [ri retailer]] [pi0 product0]] transporter]|] eqn:R.
  - destruct C as (ts & prefix & stored & sys1 & id & sys' & w' & S & E & Htx & _).
    rewrite E. cbn [fst snd]. rewrite Htx. apply Forall_app. split; [exact Hall|].
    constructor; [|constructor]. unfold settle in S.
    destruct (negb (approved _ _)); [injection S as <- <- <-; by right|].
    destruct (negb (PrimFloat.leb _ _)); injection S as <- <- <-; [by right|by left].
  - rewrite C. exact Hall.
Qed.

Lemma report_counts (history : list Transaction.t) :
  forall r : Report,
    Forall settled history -> 0 <= completed r -> 0 <= failed r ->
    completed r + failed r + Z.of_nat (length history) <= INT_MAX ->
    let r' := fold_left report_step history r in
    0 <= completed r' /\ 0 <= failed r' /\
    completed r' + failed r' = completed r + failed r + Z.of_nat (length history).
Proof.
  induction history as [|x history IH]; intros r Hall Hc Hf Hmax; cbn zeta.
  - cbn. lia.
  - apply Forall_cons in Hall. destruct Hall as [Hx Hall].
    cbn [fold_left]. cbn [length] in Hmax.
    assert (forall n, 0 <= n -> n < INT_MAX -> int_add n 1 = n + 1) as Hinc.
    { intros n H0 H1. apply wrap_int_id. unfold in_int, INT_MIN, INT_MAX in *. lia. }
    destruct (IH (report_step r x) Hall) as (H1 & H2 & H3).
    + unfold report_step. destruct Hx as [-> | ->].
      * change (String.eqb "Completed" "Completed") with true. cbn [completed].
        rewrite Hinc; lia.
      * change (String.eqb "Failed" "Completed") with false.
        change (String.eqb "Failed" "Failed") with true. cbn [completed]. lia.
    + unfold report_step. destruct Hx as [-> | ->].
      * change (String.eqb "Completed" "Completed") with true. cbn [failed]. lia.
      * change (String.eqb "Failed" "Completed") with false.
        change (String.eqb "Failed" "Failed") with true. cbn [failed].
        rewrite Hinc; lia.
    + unfold report_step. destruct Hx as [-> | ->].
      * change (String.eqb "Completed" "Completed") with true. cbn [completed failed].
        rewrite Hinc; lia.
      * change (String.eqb "Failed" "Completed") with false.
        change (String.eqb "Failed" "Failed") with true. cbn [completed failed].
        rewrite Hinc; lia.
    + split; [exact H1|]. split; [exact H2|]. rewrite H3. cbn [length].
      unfold report_step. destruct Hx as [-> | ->].
      * change (String.eqb "Completed" "Completed") with true. cbn [completed failed].
        rewrite Hinc; lia.
      * change (String.eqb "Failed" "Completed") with false.
        change (String.eqb "Failed" "Failed") with true. cbn [completed failed].
        rewrite Hinc; lia.
Qed.

(** X20. Every transaction [createTransaction] stores has status
    Completed or Failed; so when all transactions of the system were
    stored by it, and there are at most [INT_MAX] of them, the two
    counters of [generateDistributionReport] are not negative and add up
    to the number of transactions. *)
Theorem report_counts_every_stored_transaction (calls : list Call) :
  forall (sys : ProductionPlanningSystem.t) (w : World),
    Forall settled (transactions sys) ->
    let sys' := snd (fst (run calls sys w)) in
    let report := generateDistributionReport sys' in
    Forall settled (transactions sys') /\
    (Z.of_nat (length (transactions sys')) <= INT_MAX ->
     0 <= completed report /\ 0 <= failed report /\
     completed report + failed report = Z.of_nat (length (transactions sys'))).
Proof.
  assert (forall calls (sys : ProductionPlanningSystem.t) w,
             Forall settled (transactions sys) ->
             Forall settled (transactions (snd (fst (run calls sys w))))) as Hrun.
  { induction calls0 as [|c calls0 IH]; intros sys w Hall; [exact Hall|].
    rewrite run_cons. cbn [fst snd]. apply IH. by apply call_stores_settled. }
  intros sys w Hall. cbn zeta. split; [by apply Hrun|].
  intros Hmax. unfold generateDistributionReport.
  destruct (report_counts (transactions (snd (fst (run calls sys w))))
              (mkReport 0 0 PrimFloat.zero ∅)) as (H1 & H2 & H3);
    [by apply Hrun|done|done|cbn; lia|].
  cbn zeta in H1, H2, H3. cbn [completed failed] in H3. split; [exact H1|].
  split; [exact H2|]. lia.
Qed.

(** X20, witness: a completed order, an order beyond the stock and an
    order beyond the price ceiling. *)
Lemma report_counts_every_stored_transaction_witness :
  let calls := [mkCall 1 1 1 1 100 "Regular"; mkCall 1 1 1 1 5000 "Regular";
                mkCall 1 1 1 1 800 "Seasonal"] in
  let sys' := snd (fst (run calls sample_system sample_world)) in
  let report := generateDistributionReport sys' in
  Forall settled (transactions sys') /\
  (Z.of_nat (length (transactions sys')) <= INT_MAX ->
   0 <= completed report /\ 0 <= failed report /\
   completed report + failed report = Z.of_nat (length (transactions sys'))).
Proof.
  intros calls.
  refine (report_counts_every_stored_transaction calls sample_system sample_world _).
  constructor.
Defined.

(** *** Costs that are not numbers *)

Lemma leb_nan (x y : float) : Prim2SF x = S754_nan -> PrimFloat.leb x y = false.
Proof. intros H. rewrite FloatAxioms.leb_spec, H. reflexivity. Qed.

(** X21. A call that passes the existence, product and stock checks and
    whose total cost is not a number is stored as Failed: no comparison
    with a NaN succeeds, neither the contract's nor the credit check's.
    Products and retailers stay as they were. *)
Theorem order_without_a_cost_is_never_completed
    (supplierId retailerId productId transporterId quantity : Z) (orderType : string)
    (sys : ProductionPlanningSystem.t) (w : World)
    (supplier : Supplier.t) (ri : nat) (retailer : Retailer.t) (pi : nat) (product : Product.t)
    (transporter : Transporter.t) :
  resolve supplierId retailerId productId transporterId quantity sys
  = Some (supplier, (ri, retailer), (pi, product), transporter) ->
  Prim2SF (quote supplier retailer product transporter quantity) = S754_nan ->
  let sys' := snd (fst (createTransaction supplierId retailerId productId transporterId
                                          quantity orderType sys w)) in
  products sys' = products sys /\ retailers sys' = retailers sys /\
  exists stored,
    transactions sys' = transactions sys ++ [stored] /\
    Transaction.status stored = "Failed" /\ Transaction.quantity stored = quantity.
Proof.
  intros R Hnan. cbn zeta.
  pose proof (createTransaction_cases supplierId retailerId productId transporterId quantity
                orderType sys w) as C.
  rewrite R in C.
  destruct C as (ts & prefix & stored & sys1 & id & sys' & w' & S & E & Htx & Hpr & Hre & _).
  rewrite E. cbn [fst snd]. rewrite Hpr, Hre, Htx.
  unfold settle in S. rewrite costed_totalCost in S.
  destruct (approved (contracts sys) _); cbn [negb] in S.
  - rewrite (leb_nan _ _ Hnan) in S. cbn [negb] in S. injection S as <- <- <-.
    split; [done|]. split; [done|]. by eexists.
  - injection S as <- <- <-. split; [done|]. split; [done|]. by eexists.
Qed.

(** X21, witness: an order of rice that has no price. *)
Lemma order_without_a_cost_is_never_completed_witness :
  let sys' := snd (fst (createTransaction 1 1 1 1 100 "Regular" unpriced_system
                                          sample_world)) in
  products sys' = products unpriced_system /\ retailers sys' = retailers unpriced_system /\
  exists stored,
    transactions sys' = transactions unpriced_system ++ [stored] /\
    Transaction.status stored = "Failed" /\ Transaction.quantity stored = 100.
Proof.
  refine (order_without_a_cost_is_never_completed 1 1 1 1 100 "Regular" unpriced_system
            sample_world
            (Supplier.mk 1 "Malayan Agro" "Kuala Lumpur" "Federal Territory" 3.168 101.708
                         [1; 2])
            O (Retailer.mk 1 "SuperMart" "Bukit Bintang" 3.148 101.698 10000 100000 [])
            O (Product.mk 1 "Rice" PrimFloat.nan 1000)
            (Transporter.mk 1 "FastTruck" "Ordinary Ground Transfer" 2.5 2000) _ _).
  - vm_compute. reflexivity.
  - vm_compute. reflexivity.
Defined.

(* ===================================================================== *)
(** ** The route and the distance *)
(* ===================================================================== *)

Import Router.

(** *** The route, whatever the distances *)

Lemma scan_in_range (eligible : nat -> bool) (n : nat) (row : list float) :
  forall (j : nat) (minDist : float) (index : nat),
    (index < n)%nat -> (j + length row <= n)%nat ->
    (scan eligible row j minDist index < n)%nat.
Proof.
  induction row as [|d row IH]; intros j minDist index Hi Hj; [exact Hi|].
  cbn [scan]. cbn [length] in Hj.
  destruct (eligible j && PrimFloat.ltb d minDist); apply IH; lia.
Qed.

Lemma matrix_row_length (retailers : list Retailer.t) (i : nat) :
  (length (default [] (distance_matrix retailers !! i)) <= length retailers)%nat.
Proof.
  unfold distance_matrix. rewrite list_lookup_imap.
  destruct (retailers !! i) as [r|]; cbn; [|lia]. by rewrite length_imap.
Qed.

Lemma greedy_in_range (retailers : list Retailer.t) (k : nat) :
  forall (route : list Z) (visited : list bool) (currentIndex : nat),
    (0 < length retailers)%nat ->
    Forall (fun id => id ∈ Retailer.id <$> retailers) route ->
    let result := greedy k (distance_matrix retailers) (Retailer.id <$> retailers)
                         route visited currentIndex in
    length result = (length route + k)%nat /\
    Forall (fun id => id ∈ Retailer.id <$> retailers) result.
Proof.
  induction k as [|k IH]; intros route visited currentIndex Hn Hroute; cbn zeta.
  - cbn [greedy]. split; [lia|exact Hroute].
  - cbn [greedy].
    set (nextIndex := nearest_unvisited (distance_matrix retailers) visited currentIndex).
    assert (nextIndex < length retailers)%nat as Hnext.
    { apply scan_in_range; [exact Hn|]. apply matrix_row_length. }
    destruct (lookup_lt_is_Some_2 (Retailer.id <$> retailers) nextIndex) as [stop Hid];
      [by rewrite length_fmap|].
    rewrite Hid. change (default 0 (Some stop)) with stop.
    destruct (IH (route ++ [stop]) (<[nextIndex := true]> visited) nextIndex Hn) as [Hlen Hall].
    { apply Forall_app. split; [exact Hroute|]. constructor; [|constructor].
      by eapply list_elem_of_lookup_2. }
    split; [|exact Hall]. rewrite Hlen, length_app. cbn. lia.
Qed.

Lemma plan_tour_range (supplier : Supplier.t) (retailers : list Retailer.t) :
  (0 < length retailers)%nat ->
  length (plan_tour supplier retailers).1 = length retailers /\
  Forall (fun id => id ∈ Retailer.id <$> retailers) (plan_tour supplier retailers).1.
Proof.
  intros Hn. unfold plan_tour. cbn zeta. cbn [fst].
  set (first := nearest_to_supplier (distance_from supplier <$> retailers)).
  assert (first < length retailers)%nat as Hfirst.
  { apply scan_in_range; [lia|]. rewrite length_fmap. lia. }
  destruct (lookup_lt_is_Some_2 (Retailer.id <$> retailers) first) as [stop Hid];
    [by rewrite length_fmap|].
  rewrite Hid. change (default 0 (Some stop)) with stop.
  destruct (greedy_in_range retailers (length retailers - 1) [stop]
              (<[first := true]> (repeat false (length retailers))) first)
    as [Hlen Hall]; [lia| |].
  { constructor; [|constructor]. by eapply list_elem_of_lookup_2. }
  split; [|exact Hall]. rewrite Hlen. cbn [length]. lia.
Qed.

(** X22. What [optimizeDistributionRoute] catches, displays and leaves
    behind, for any coordinates and ids. It catches, in this order of
    precedence: the precondition error with fewer than two retailers,
    "Supplier not found", "Transporter not found", and "Blockchain is
    empty" from the append; otherwise nothing. It displays a route exactly
    when the first two checks pass; the route then has as many stops as
    there are retailers and every stop is the id of a retailer (no index
    ever leaves its vector), and the cost is displayed exactly when the
    transporter is found. When an exception is caught the system is left
    as it was and nothing is drawn from the world; otherwise one block is
    appended that names the supplier, the route, the transporter and the
    two amounts, and nothing else changes. *)
Theorem route_has_one_stop_per_retailer (show : float -> string) (supplierId transporterId : Z)
    (sys : ProductionPlanningSystem.t) (w : World) :
  let r := optimizeDistributionRoute show supplierId transporterId sys w in
  let shown := fst (fst r) in
  let sys' := snd (fst r) in
  caught shown
  = (if (length (retailers sys) <? 2)%nat
     then Some (runtime_error "Need at least 2 retailers to optimize routes")
     else if findSupplier supplierId sys is None
     then Some (runtime_error "Supplier not found")
     else if findTransporter transporterId sys is None
     then Some (runtime_error "Transporter not found")
     else if blockchain sys is [] then Some (runtime_error "Blockchain is empty")
     else None) /\
  match displayed shown with
  | None => (length (retailers sys) < 2)%nat \/ findSupplier supplierId sys = None
  | Some tour =>
      (2 <= length (retailers sys))%nat /\ is_Some (findSupplier supplierId sys) /\
      length (tour_route tour) = length (retailers sys) /\
      Forall (fun id => id ∈ Retailer.id <$> retailers sys) (tour_route tour) /\
      tour_cost tour
      = (fun found => Transporter.calculateTransportCost (tour_distance tour) found.2)
          <$> findTransporter transporterId sys
  end /\
  match caught shown with
  | Some _ => sys' = sys /\ snd r = w
  | None =>
      exists si supplier tour cost block,
        findSupplier supplierId sys = Some (si, supplier) /\
        displayed shown = Some tour /\ tour_cost tour = Some cost /\
        sys' = set_blockchain (blockchain sys ++ [block]) sys /\
        Block.data block
        = ("Optimized Route | Supplier: " ++ string_of_int (Supplier.id supplier)
           ++ " | Retailers: " ++ route_text (tour_route tour)
           ++ " | Distance: " ++ show (tour_distance tour)
           ++ " | Transporter: " ++ string_of_int transporterId
           ++ " | Cost: " ++ show cost)%string
  end.
Proof.
  cbn zeta. unfold optimizeDistributionRoute.
  destruct (Nat.ltb_spec (length (retailers sys)) 2) as [Hlt|Hge].
  { cbn. split; [done|]. split; [by left|done]. }
  destruct (findSupplier supplierId sys) as [[si supplier]|] eqn:Hs.
  2:{ cbn. split; [done|]. split; [by right|done]. }
  destruct (plan_tour_range supplier (retailers sys) ltac:(lia)) as [Hlen Hall].
  destruct (plan_tour supplier (retailers sys)) as [route totalDistance].
  cbn [fst] in Hlen, Hall.
  destruct (findTransporter transporterId sys) as [[ti transporter]|] eqn:Ht.
  2:{ cbn. split; [done|]. split; [|done]. split; [lia|]. split; [by eexists|]. done. }
  cbn zeta. unfold bind.
  destruct (blockchain sys) as [|b chain] eqn:Hc.
  { rewrite addBlock_empty. cbn. split; [done|]. split; [|done].
    split; [lia|]. split; [by eexists|]. done. }
  destruct (last_is_Some (b :: chain) ltac:(done)) as [latest Hlast].
  match goal with
  | |- context [addBlock ?d (b :: chain) w] =>
      destruct (addBlock_spec (b :: chain) latest d w Hlast) as (h & ts & w' & ->)
  end.
  cbn [ret fst snd caught displayed]. split; [done|]. split.
  { cbn [tour_route tour_cost tour_distance]. split; [lia|]. split; [by eexists|]. done. }
  eexists si, supplier, _, _, _. split; [done|]. split; [reflexivity|].
  cbn [tour_cost tour_route tour_distance]. split; [reflexivity|].
  split; [reflexivity|]. reflexivity.
Qed.

(** *** The distance function *)

Lemma binary_round_aux_opp (s : bool) (m e : Z) (l : location) :
  binary_round_aux prec emax (negb s) m e l = SFopp (binary_round_aux prec emax s m e l).
Proof.
  unfold binary_round_aux.
  destruct (shr_fexp prec emax m e l) as [mrs' e'].
  destruct (shr_fexp prec emax _ e' loc_Exact) as [mrs'' e''].
  destruct (shr_m mrs''); [reflexivity| |reflexivity].
  destruct (e'' <=? emax - prec); reflexivity.
Qed.

Lemma binary_round_opp (s : bool) (m : positive) (e : Z) :
  binary_round prec emax (negb s) m e = SFopp (binary_round prec emax s m e).
Proof.
  unfold binary_round. destruct (shl_align m e _) as [mz ez]. apply binary_round_aux_opp.
Qed.

Lemma SFopp_twice (x : spec_float) : SFopp (SFopp x) = x.
Proof. destruct x as [s|s| |s m e]; cbn; by rewrite ?negb_involutive. Qed.

Lemma binary_normalize_opp (m e : Z) :
  binary_normalize prec emax (- m) e false = SFopp (binary_normalize prec emax m e false) \/
  binary_normalize prec emax (- m) e false = binary_normalize prec emax m e false.
Proof.
  destruct m as [|p|p]; [by right| |]; left; cbn [Z.opp binary_normalize].
  - apply (binary_round_opp false).
  - change true with (negb false). by rewrite (binary_round_opp false), SFopp_twice.
Qed.

Lemma Zmin_swap (a b : Z) : IntDef.Z.min a b = IntDef.Z.min b a.
Proof.
  change (Z.min a b = Z.min b a). apply Z.min_comm.
Qed.

(** Exchanging the operands of a subtraction changes at most the sign. *)
Lemma SFsub_swap (x y : spec_float) :
  SFsub prec emax y x = SFopp (SFsub prec emax x y) \/
  SFsub prec emax y x = SFsub prec emax x y.
Proof.
  destruct x as [sx|sx| |sx mx ex], y as [sy|sy| |sy my ey];
    try (destruct sx, sy; cbn; by auto);
    try (destruct sx; cbn; by auto);
    try (destruct sy; cbn; by rewrite ?negb_involutive; auto);
    try (cbn; by rewrite ?negb_involutive; auto).
  cbn [SFsub]. rewrite (Zmin_swap ey ex).
  set (ez := IntDef.Z.min ex ey).
  set (a := cond_Zopp sx (Z.pos (fst (shl_align mx ex ez)))).
  set (b := cond_Zopp sy (Z.pos (fst (shl_align my ey ez)))).
  replace (b - a) with (- (a - b)) by lia.
  apply binary_normalize_opp.
Qed.

Lemma SFmul_opp (x : spec_float) :
  SFmul prec emax (SFopp x) (SFopp x) = SFmul prec emax x x.
Proof. destruct x as [[]|[]| |[] m e]; reflexivity. Qed.

Lemma square_swap (x y : float) : ((y - x) * (y - x))%float = ((x - y) * (x - y))%float.
Proof.
  apply Prim2SF_inj. rewrite !FloatAxioms.mul_spec, !FloatAxioms.sub_spec. unfold SF64mul, SF64sub.
  destruct (SFsub_swap (Prim2SF y) (Prim2SF x)) as [-> | ->]; [|reflexivity].
  symmetry. apply SFmul_opp.
Qed.

Lemma binary_round_aux_sign (m e : Z) (l : location) :
  SFltb (binary_round_aux prec emax false m e l) (S754_zero false) = false.
Proof.
  unfold binary_round_aux.
  destruct (shr_fexp prec emax m e l) as [mrs' e'].
  destruct (shr_fexp prec emax _ e' loc_Exact) as [mrs'' e''].
  destruct (shr_m mrs''); [reflexivity| |reflexivity].
  destruct (e'' <=? emax - prec); reflexivity.
Qed.

Lemma SFsqrt_times_positive (x : spec_float) (m : positive) (e : Z) :
  SFltb (SFmul prec emax (SFsqrt prec emax x) (S754_finite false m e)) (S754_zero false) = false.
Proof.
  destruct x as [s|[]| |[] mx ex]; try reflexivity.
  cbn [SFsqrt]. destruct (SFsqrt_core_binary prec emax (Z.pos mx) ex) as [[mz ez] lz].
  unfold binary_round_aux.
  destruct (shr_fexp prec emax mz ez lz) as [mrs' e'].
  destruct (shr_fexp prec emax _ e' loc_Exact) as [mrs'' e''].
  destruct (shr_m mrs''); [reflexivity| |reflexivity].
  destruct (e'' <=? emax - prec); [|reflexivity].
  cbn [SFmul xorb]. apply binary_round_aux_sign.
Qed.

(** X23. [calculateDistance] gives the same double for a pair of points
    and for the pair exchanged, and never a negative one. *)
Theorem distance_is_symmetric (lat1 lon1 lat2 lon2 : float) :
  calculateDistance lat1 lon1 lat2 lon2 = calculateDistance lat2 lon2 lat1 lon1 /\
  PrimFloat.ltb (calculateDistance lat1 lon1 lat2 lon2) 0 = false.
Proof.
  split.
  - unfold calculateDistance.
    by rewrite (square_swap lat1 lat2), (square_swap lon1 lon2).
  - unfold calculateDistance.
    rewrite FloatAxioms.ltb_spec, FloatAxioms.mul_spec, FloatAxioms.sqrt_spec.
    replace (Prim2SF 111) with (S754_finite false 7810930603720704 (-46))
      by (vm_compute; reflexivity).
    apply SFsqrt_times_positive.
Qed.

(* ===================================================================== *)
(** ** Catalog records as text *)
(* ===================================================================== *)

Import Blockchain ProductionPlanningSystem.

(** *** Products, suppliers and transactions as text *)

Lemma split_plain (delim : ascii) (s : string) :
  contains delim s = false -> s <> EmptyString -> split delim s = [s].
Proof.
  intros H Hne. unfold split. destruct s as [|a s]; [done|].
  by rewrite (split_from_last delim (String a s) EmptyString H).
Qed.

Lemma comma_is_no_digit : digit_of ","%char = None /\ ","%char <> "-"%char.
Proof. split; [reflexivity|discriminate]. Qed.

Lemma split_productIds_text (productIds : list Z) :
  split "," (Supplier.productIds_text productIds) = string_of_int <$> productIds.
Proof.
  induction productIds as [|a [|b rest] IH]; [reflexivity| |].
  - cbn [Supplier.productIds_text]. rewrite split_plain; [reflexivity| |].
    + apply contains_string_of_int; apply comma_is_no_digit.
    + apply string_of_int_nonempty.
  - change (Supplier.productIds_text (a :: b :: rest))
      with (string_of_int a ++ "," ++ Supplier.productIds_text (b :: rest))%string.
    rewrite split_field by (apply contains_string_of_int; apply comma_is_no_digit).
    by rewrite IH.
Qed.

Lemma read_productIds_texts (productIds : list Z) :
  forall acc : list Z,
    Forall in_int productIds ->
    Supplier.read_productIds (string_of_int <$> productIds) acc = Ok (acc ++ productIds).
Proof.
  induction productIds as [|a rest IH]; intros acc Hall.
  - by rewrite app_nil_r.
  - apply Forall_cons in Hall. destruct Hall as [Ha Hall].
    rewrite fmap_cons. cbn [Supplier.read_productIds].
    destruct (string_of_int a) as [|c s] eqn:E; [by apply string_of_int_nonempty in E|].
    rewrite <- E, (stoi_string_of_int a Ha). cbn [and_then].
    rewrite (IH _ Hall). by rewrite <- app_assoc.
Qed.

Lemma contains_productIds_text (productIds : list Z) :
  contains "|" (Supplier.productIds_text productIds) = false.
Proof.
  induction productIds as [|a [|b rest] IH]; [reflexivity| |].
  - by apply contains_string_of_int.
  - change (Supplier.productIds_text (a :: b :: rest))
      with (string_of_int a ++ "," ++ Supplier.productIds_text (b :: rest))%string.
    rewrite !contains_append, IH. rewrite contains_string_of_int by done. reflexivity.
Qed.

(** X24. [Product::deserialize] on the line [Product::serialize] wrote,
    for ids and stock that are [int]s and a name without '|': the id, the
    name and the stock come back as they were; the price is what
    [std::stod] makes of the price as written, and the line is refused
    when [std::stod] refuses that. *)
Theorem product_text_round_trip (show : float -> string) (stod : string -> result float)
    (p : Product.t) :
  in_int (Product.id p) -> in_int (Product.stock p) ->
  contains "|" (Product.name p) = false -> contains "|" (show (Product.price p)) = false ->
  Product.deserialize stod (Product.serialize show p)
  = (try! price := stod (show (Product.price p)) in
     Ok (Product.mk (Product.id p) (Product.name p) price (Product.stock p)))%result.
Proof.
  intros Hid Hstock Hname Hprice. unfold Product.deserialize, Product.serialize.
  rewrite (split_field "|" (string_of_int _)) by (by apply contains_string_of_int).
  rewrite (split_field "|" (Product.name p)) by exact Hname.
  rewrite (split_field "|" (show _)) by exact Hprice.
  rewrite split_plain; [|by apply contains_string_of_int|apply string_of_int_nonempty].
  cbn [length Nat.ltb Nat.leb nth].
  rewrite (stoi_string_of_int _ Hid), (stoi_string_of_int _ Hstock). cbn [and_then].
  destruct (stod _); reflexivity.
Qed.

(** X24, witness: the rice, doubles written with two decimals. *)
Lemma product_text_round_trip_witness :
  Product.deserialize stod_integer (Product.serialize fixed2 (Product.mk 1 "Rice" 5.5 1000))
  = (try! price := stod_integer (fixed2 5.5) in Ok (Product.mk 1 "Rice" price 1000))%result.
Proof.
  refine (product_text_round_trip fixed2 stod_integer (Product.mk 1 "Rice" 5.5 1000) _ _ _ _).
  - in_int_now.
  - in_int_now.
  - reflexivity.
  - vm_compute. reflexivity.
Defined.

(** X25. [Supplier::deserialize] on the line [Supplier::serialize] wrote,
    for [int] ids and texts without '|': id, name, location, branch and
    the list of product ids, empty or not, come back as they were; the
    coordinates are what [std::stod] makes of them as written. *)
Theorem supplier_text_round_trip (show : float -> string) (stod : string -> result float)
    (s : Supplier.t) :
  in_int (Supplier.id s) -> Forall in_int (Supplier.productIds s) ->
  contains "|" (Supplier.name s) = false -> contains "|" (Supplier.location s) = false ->
  contains "|" (Supplier.branch s) = false ->
  contains "|" (show (Supplier.latitude s)) = false ->
  contains "|" (show (Supplier.longitude s)) = false ->
  Supplier.deserialize stod (Supplier.serialize show s)
  = (try! latitude := stod (show (Supplier.latitude s)) in
     try! longitude := stod (show (Supplier.longitude s)) in
     Ok (Supplier.mk (Supplier.id s) (Supplier.name s) (Supplier.location s)
                     (Supplier.branch s) latitude longitude (Supplier.productIds s)))%result.
Proof.
  intros Hid Hids Hname Hloc Hbranch Hlat Hlon.
  unfold Supplier.deserialize, Supplier.serialize.
  rewrite (split_field "|" (string_of_int _)) by (by apply contains_string_of_int).
  rewrite (split_field "|" (Supplier.name s)) by exact Hname.
  rewrite (split_field "|" (Supplier.location s)) by exact Hloc.
  rewrite (split_field "|" (Supplier.branch s)) by exact Hbranch.
  rewrite (split_field "|" (show (Supplier.latitude s))) by exact Hlat.
  rewrite (split_field "|" (show (Supplier.longitude s))) by exact Hlon.
  destruct (Supplier.productIds s) as [|a rest] eqn:E.
  - cbn [Supplier.productIds_text split length Nat.ltb Nat.leb nth].
    rewrite (stoi_string_of_int _ Hid). cbn [and_then].
    destruct (stod (show (Supplier.latitude s))); [|reflexivity].
    destruct (stod (show (Supplier.longitude s))); reflexivity.
  - rewrite split_plain; [|apply contains_productIds_text|].
    2: { destruct rest; [apply string_of_int_nonempty|].
         change (Supplier.productIds_text (a :: z :: rest))
           with (string_of_int a ++ "," ++ Supplier.productIds_text (z :: rest))%string.
         destruct (string_of_int a) eqn:Ea; [by apply string_of_int_nonempty in Ea|done]. }
    cbn [length Nat.ltb Nat.leb nth].
    rewrite (stoi_string_of_int _ Hid). cbn [and_then].
    destruct (stod (show (Supplier.latitude s))); [|reflexivity].
    destruct (stod (show (Supplier.longitude s))); [|reflexivity].
    cbn [and_then]. rewrite split_productIds_text, (read_productIds_texts _ [] Hids).
    reflexivity.
Qed.

(** X25, witness: a supplier of two products. *)
Lemma supplier_text_round_trip_witness :
  let s := Supplier.mk 1 "Malayan Agro" "Kuala Lumpur" "Federal Territory" 3 101 [1; 2] in
  Supplier.deserialize stod_integer (Supplier.serialize fixed2 s)
  = (try! latitude := stod_integer (fixed2 3) in
     try! longitude := stod_integer (fixed2 101) in
     Ok (Supplier.mk 1 "Malayan Agro" "Kuala Lumpur" "Federal Territory" latitude longitude
                     [1; 2]))%result.
Proof.
  intros s. refine (supplier_text_round_trip fixed2 stod_integer s _ _ _ _ _ _ _).
  - in_int_now.
  - repeat (constructor; [in_int_now|]). constructor.
  - reflexivity.
  - reflexivity.
  - reflexivity.
  - vm_compute. reflexivity.
  - vm_compute. reflexivity.
Defined.


(** X26. [Transaction::deserialize] on the line [Transaction::serialize]
    wrote, for [int] numbers, texts without '|' and an order type that is
    not empty: the six numbers, the time, the status and the order type
    come back as they were, whatever the clock shows at the load; the
    three costs are what [std::stod] makes of them as written. *)
Theorem transaction_text_round_trip (show : float -> string) (stod : string -> result float)
    (x : Transaction.t) (w : World) :
  in_int (Transaction.id x) -> in_int (Transaction.supplierId x) ->
  in_int (Transaction.retailerId x) -> in_int (Transaction.productId x) ->
  in_int (Transaction.transporterId x) -> in_int (Transaction.quantity x) ->
  contains "|" (show (Transaction.productCost x)) = false ->
  contains "|" (show (Transaction.transportCost x)) = false ->
  contains "|" (show (Transaction.totalCost x)) = false ->
  contains "|" (Transaction.timestamp x) = false ->
  contains "|" (Transaction.status x) = false ->
  contains "|" (Transaction.orderType x) = false ->
  Transaction.orderType x <> EmptyString ->
  fst (Transaction.deserialize stod (Transaction.serialize show x) w)
  = (try! productCost := stod (show (Transaction.productCost x)) in
     try! transportCost := stod (show (Transaction.transportCost x)) in
     try! totalCost := stod (show (Transaction.totalCost x)) in
     Ok (Transaction.mk (Transaction.id x) (Transaction.supplierId x)
                        (Transaction.retailerId x) (Transaction.productId x)
                        (Transaction.transporterId x) (Transaction.quantity x)
                        productCost transportCost totalCost (Transaction.timestamp x)
                        (Transaction.status x) (Transaction.orderType x)))%result.
Proof.
  intros H1 H2 H3 H4 H5 H6 Hc1 Hc2 Hc3 Hts Hst Hot Hne.
  unfold Transaction.deserialize, Transaction.serialize.
  do 6 (rewrite (split_field "|" (string_of_int _)) by (by apply contains_string_of_int)).
  rewrite (split_field "|" (show _)) by exact Hc1.
  rewrite (split_field "|" (show _)) by exact Hc2.
  rewrite (split_field "|" (show _)) by exact Hc3.
  rewrite (split_field "|" (Transaction.timestamp x)) by exact Hts.
  rewrite (split_field "|" (Transaction.status x)) by exact Hst.
  assert (split "|" (Transaction.orderType x) = [Transaction.orderType x]) as ->.
  { unfold split. destruct (Transaction.orderType x) as [|a s] eqn:E; [done|].
    by rewrite (split_from_last "|" (String a s) EmptyString Hot). }
  cbn [length Nat.ltb Nat.leb nth].
  rewrite (stoi_string_of_int _ H1), (stoi_string_of_int _ H2), (stoi_string_of_int _ H3),
    (stoi_string_of_int _ H4), (stoi_string_of_int _ H5), (stoi_string_of_int _ H6).
  cbn [and_then]. unfold bind, Transaction.new, bind, ret.
  destruct (getCurrentTimestamp w) as [stamp w1]. reflexivity.
Qed.

(** X26, witness: a completed order. *)
Lemma transaction_text_round_trip_witness :
  let x := Transaction.mk 1 1 1 1 1 100 550 5 555 "20250101:10:00" "Completed" "Regular" in
  fst (Transaction.deserialize stod_integer (Transaction.serialize fixed2 x) sample_world)
  = (try! productCost := stod_integer (fixed2 550) in
     try! transportCost := stod_integer (fixed2 5) in
     try! totalCost := stod_integer (fixed2 555) in
     Ok (Transaction.mk 1 1 1 1 1 100 productCost transportCost totalCost "20250101:10:00"
                        "Completed" "Regular"))%result.
Proof.
  intros x.
  refine (transaction_text_round_trip fixed2 stod_integer x sample_world
            _ _ _ _ _ _ _ _ _ _ _ _ _).
  1-6: in_int_now.
  1-3: vm_compute; reflexivity.
  1-3: reflexivity.
  discriminate.
Defined.
